(** * SnapSecure audit trail: ledger hashing, firewall counters, intrusion scoring

    A shallow embedding of [BlockchainService] (blockchainService.ts),
    [SecurityService] (securityService.ts) and the parts of [DatabaseStorage]
    (server/storage.ts, shared/schema.ts) they call, and of
    [AuthService.register] and [AuthService.login] (authService.ts), which
    call them.

    Conventions of the embedding.
    - A JavaScript string is a [string] holding its UTF-8 bytes; for the ASCII
      text the services build, bytes, UTF-16 code units and code points agree.
    - A JavaScript number that holds an integer (block numbers, counters,
      [Date.now()] readings) is a [Z]; the model is exact below 2^53.
    - An asynchronous method is a state transformer over [World] that returns
      or throws: JavaScript runs each method body without pre-emption between
      two [await]s, and the theorems below speak about calls that run one
      after the other. A call that throws leaves the state it had reached.
    - A PostgreSQL table is the list of its rows in the order of insertion,
      together with the sequence behind its [serial] id. The tables enforce
      what shared/schema.ts declares: [integer] columns hold 32 bits,
      [varchar(n)] columns hold n characters, ids are primary keys, tx_hash,
      username and email are unique, and the user_id of a security log and
      of a permission refers to the id of a row of users. A statement the
      database refuses throws. A parameter that does not fit its column (an
      integer that is not a number or is out of range, a text longer than
      its [varchar]) is refused before the statement runs; a unique or
      foreign key that a row violates is found after the sequence has
      handed out the id, which is then not used again; and a sequence that
      has reached 2^31 - 1 refuses to go on.
    - What the jsonb column gives back for a payload, the clocks, the random
      sources, the environment, AES and bcrypt are parameters ([Platform]).
      Texts hold no NUL character, which the database would refuse, and
      connection failures are outside the model.
    - [bcrypt.hash], [bcrypt.compare] and the store behind
      [expo-secure-store] are taken not to fail. *)

From Stdlib Require Import ZArith Ascii String List Lia.
From stdpp Require Import base decidable option list sorting gmap strings pretty fin_maps.

Local Open Scope string_scope.
Local Open Scope list_scope.
Local Open Scope Z_scope.

(** ** JavaScript values *)

#[warnings="-register-all"]
Inductive JsValue : Type :=
| JUndefined
| JNull
| JBool (b : bool)
| JNumber (n : Z)
| JString (s : string)
| JArray (xs : list JsValue)
| JObject (props : list (string * JsValue)).

(** Own property lookup: [Get(O, P)], [undefined] when the key is absent. *)
Fixpoint assoc_get {A : Type} (k : string) (ps : list (string * A)) : option A :=
  match ps with
  | [] => None
  | (k', v) :: ps' => if String.eqb k k' then Some v else assoc_get k ps'
  end.

Definition js_get (o : JsValue) (k : string) : JsValue :=
  match o with
  | JObject props => default JUndefined (assoc_get k props)
  | _ => JUndefined
  end.

(** [ToBoolean]. *)
Definition truthy (v : JsValue) : bool :=
  match v with
  | JUndefined | JNull => false
  | JBool b => b
  | JNumber n => negb (n =? 0)
  | JString s => negb (String.eqb s EmptyString)
  | JArray _ | JObject _ => true
  end.

(** ** Outcomes: a returned value or a thrown [Error] *)

Inductive Result (A : Type) : Type :=
| Ok (a : A)
| Throw (message : string).
Arguments Ok {A} a.
Arguments Throw {A} message.

(** ** JSON.stringify with an array replacer (ECMA-262, 25.5.2) *)

Definition hex_digit (n : Z) : ascii :=
  ascii_of_nat (Z.to_nat (if n <? 10 then 48 + n else 87 + n)).

Definition dquote : ascii := ascii_of_nat 34.
Definition backslash : ascii := ascii_of_nat 92.

(** [QuoteJSONString] on one code unit. *)
Definition quote_char (c : ascii) : string :=
  let n := Z.of_nat (nat_of_ascii c) in
  if n =? 34 then String backslash (String dquote EmptyString)
  else if n =? 92 then String backslash (String backslash EmptyString)
  else if n =? 8 then String backslash "b"
  else if n =? 9 then String backslash "t"
  else if n =? 10 then String backslash "n"
  else if n =? 12 then String backslash "f"
  else if n =? 13 then String backslash "r"
  else if n <? 32 then
    String backslash "u00" +:+
    String (hex_digit (n / 16)) (String (hex_digit (n mod 16)) EmptyString)
  else String c EmptyString.

Fixpoint quote_body (s : string) : string :=
  match s with
  | EmptyString => EmptyString
  | String c s' => quote_char c +:+ quote_body s'
  end.

Definition QuoteJSONString (s : string) : string :=
  String dquote (quote_body s) +:+ String dquote EmptyString.

Fixpoint join_comma (parts : list string) : string :=
  match parts with
  | [] => EmptyString
  | [p] => p
  | p :: rest => p +:+ "," +:+ join_comma rest
  end.

(** The members of [SerializeJSONObject] when a property list is present:
    for every key [P] of the list, in the order of the list, the member
    [QuoteJSONString(P):str] when [SerializeJSONProperty] of [Get(value, P)]
    is defined, and nothing otherwise. [sprops] holds the properties of the
    object with their values already serialized. *)
Fixpoint object_members (plist : list string) (sprops : list (string * option string))
  : list string :=
  match plist with
  | [] => []
  | P :: plist' =>
      match assoc_get P sprops with
      | Some (Some str) => (QuoteJSONString P +:+ ":" +:+ str) :: object_members plist' sprops
      | _ => object_members plist' sprops
      end
  end.

(** [SerializeJSONProperty] with the state's [PropertyList] set to [plist];
    [None] is the result [undefined]. The property list applies to every
    object met during the traversal, at any depth; array elements are all
    kept, an [undefined] element becoming [null]. *)
Fixpoint SerializeJSONProperty (plist : list string) (v : JsValue) : option string :=
  match v with
  | JUndefined => None
  | JNull => Some "null"
  | JBool true => Some "true"
  | JBool false => Some "false"
  | JNumber n => Some (pretty n)
  | JString s => Some (QuoteJSONString s)
  | JArray xs =>
      Some ("[" +:+ join_comma
              ((fix elems (l : list JsValue) : list string :=
                  match l with
                  | [] => []
                  | x :: l' => default "null" (SerializeJSONProperty plist x) :: elems l'
                  end) xs) +:+ "]")
  | JObject props =>
      Some ("{" +:+ join_comma
              (object_members plist
                 ((fix each (l : list (string * JsValue)) : list (string * option string) :=
                     match l with
                     | [] => []
                     | (k, x) :: l' => (k, SerializeJSONProperty plist x) :: each l'
                     end) props)) +:+ "}")
  end.

(** The property list built from the replacer array: its strings in order,
    a string already in the list being skipped. *)
Fixpoint property_list (replacer : list string) (acc : list string) : list string :=
  match replacer with
  | [] => acc
  | k :: rest =>
      if bool_decide (k ∈ acc) then property_list rest acc
      else property_list rest (acc ++ [k])
  end.

Definition JSON_stringify (value : JsValue) (replacer : list string) : option string :=
  SerializeJSONProperty (property_list replacer []) value.

(** ** Object.keys and Array.prototype.sort *)

Definition index_keys (n : nat) : list string := (λ i : nat, pretty i) <$> seq 0 n.

(** [Object.keys]: a [TypeError] on [undefined] and [null]; the own
    enumerable string keys otherwise. *)
Definition Object_keys (v : JsValue) : Result (list string) :=
  match v with
  | JUndefined | JNull => Throw "TypeError: Cannot convert undefined or null to object"
  | JBool _ | JNumber _ => Ok []
  | JString s => Ok (index_keys (String.length s))
  | JArray xs => Ok (index_keys (length xs))
  | JObject props => Ok (props.*1)
  end.

(** The default order of [sort()]: strings by code unit. *)
Definition string_le (s1 s2 : string) : Prop := String.leb s1 s2 = true.

#[global] Instance string_le_dec : RelDecision string_le :=
  λ s1 s2, decide (String.leb s1 s2 = true).

Definition Array_sort (keys : list string) : list string := merge_sort string_le keys.

(** ** CryptoJS.SHA256 (FIPS 180-4) with hexadecimal output

    [CryptoJS.SHA256(str).toString(CryptoJS.enc.Hex)]: the digest of the
    UTF-8 bytes of [str], printed as 64 lower-case hexadecimal digits.
    Words are 32-bit integers held in [Z], additions wrap modulo 2^32. *)
Module SHA256.

Definition wrap32 (x : Z) : Z := x mod 2 ^ 32.

Definition add32 (x y : Z) : Z := wrap32 (x + y).

Definition rotr (n x : Z) : Z :=
  Z.lor (Z.shiftr x n) (wrap32 (Z.shiftl x (32 - n))).

Definition Ch (x y z : Z) : Z :=
  Z.lxor (Z.land x y) (Z.land (Z.lxor x 0xffffffff) z).

Definition Maj (x y z : Z) : Z :=
  Z.lxor (Z.lxor (Z.land x y) (Z.land x z)) (Z.land y z).

Definition Sigma0 (x : Z) : Z := Z.lxor (Z.lxor (rotr 2 x) (rotr 13 x)) (rotr 22 x).
Definition Sigma1 (x : Z) : Z := Z.lxor (Z.lxor (rotr 6 x) (rotr 11 x)) (rotr 25 x).
Definition sigma0 (x : Z) : Z := Z.lxor (Z.lxor (rotr 7 x) (rotr 18 x)) (Z.shiftr x 3).
Definition sigma1 (x : Z) : Z := Z.lxor (Z.lxor (rotr 17 x) (rotr 19 x)) (Z.shiftr x 10).

(** The round constants are the first 32 bits of the fractional parts of
    the cube roots of the first sixty-four primes, the initial hash value
    those of the square roots of the first eight. *)
Definition is_prime (n : nat) : bool :=
  forallb (λ d : nat, negb (n mod d =? 0)%nat) (seq 2 (Nat.sqrt n - 1)).

Definition primes : list nat := take 64 (filter (λ n, is_prime n = true) (seq 2 310)).

(** The integer cube root, by bisection between [lo] and [hi]. *)
Fixpoint cube_root (fuel : nat) (lo hi n : Z) : Z :=
  match fuel with
  | O => lo
  | S fuel' =>
      let mid := (lo + hi) / 2 in
      if mid * mid * mid <=? n then cube_root fuel' mid hi n
      else cube_root fuel' lo mid n
  end.

Definition cube_root_bits (p : nat) : Z :=
  wrap32 (cube_root 40 0 (2 ^ 36) (Z.of_nat p * 2 ^ 96)).

(** The round constants, in decimal; [round_constants_from_primes] below
    checks them against their definition. *)
Definition K : list Z :=
  [
    1116352408; 1899447441; 3049323471; 3921009573; 961987163; 1508970993;
    2453635748; 2870763221; 3624381080; 310598401; 607225278; 1426881987;
    1925078388; 2162078206; 2614888103; 3248222580; 3835390401; 4022224774;
    264347078; 604807628; 770255983; 1249150122; 1555081692; 1996064986;
    2554220882; 2821834349; 2952996808; 3210313671; 3336571891; 3584528711;
    113926993; 338241895; 666307205; 773529912; 1294757372; 1396182291;
    1695183700; 1986661051; 2177026350; 2456956037; 2730485921; 2820302411;
    3259730800; 3345764771; 3516065817; 3600352804; 4094571909; 275423344;
    430227734; 506948616; 659060556; 883997877; 958139571; 1322822218;
    1537002063; 1747873779; 1955562222; 2024104815; 2227730452; 2361852424;
    2428436474; 2756734187; 3204031479; 3329325298 ].

(** The eight working variables a..h, also the shape of a hash value. *)
Record Regs : Type := mkRegs {
  ra : Z; rb : Z; rc : Z; rd : Z; re : Z; rf : Z; rg : Z; rh : Z }.

Definition root_bits (p : nat) : Z := wrap32 (Z.sqrt (Z.of_nat p * 2 ^ 64)).

Definition H0 : Regs :=
  mkRegs (root_bits 2) (root_bits 3) (root_bits 5) (root_bits 7)
         (root_bits 11) (root_bits 13) (root_bits 17) (root_bits 19).

(** Padding: the byte 0x80, zero bytes up to 56 modulo 64, then the bit
    length of the message as a 64-bit big-endian integer. *)
Definition be_bytes (count : nat) (x : Z) : list Z :=
  (λ i : nat, (Z.shiftr x (8 * Z.of_nat (count - 1 - i))) mod 256) <$> seq 0 count.

Definition pad (msg : list Z) : list Z :=
  let len := Z.of_nat (length msg) in
  let zeros := Z.to_nat ((55 - len) mod 64) in
  msg ++ [0x80] ++ replicate zeros 0 ++ be_bytes 8 (8 * len).

Fixpoint be_words (n : nat) (bytes : list Z) : list Z :=
  match n, bytes with
  | S n', b0 :: b1 :: b2 :: b3 :: rest =>
      (((b0 * 256 + b1) * 256 + b2) * 256 + b3) :: be_words n' rest
  | _, _ => []
  end.

(** One round: [w] holds the sixteen most recent schedule words, oldest
    first, so its head is W_t and the word appended is W_(t+16). *)
Definition round (st : Regs * list Z) (k : Z) : Regs * list Z :=
  let '(r, w) := st in
  let wt := nth 0 w 0 in
  let t1 := add32 (add32 (add32 (add32 (rh r) (Sigma1 (re r))) (Ch (re r) (rf r) (rg r))) k) wt in
  let t2 := add32 (Sigma0 (ra r)) (Maj (ra r) (rb r) (rc r)) in
  let next := add32 (add32 (add32 (sigma1 (nth 14 w 0)) (nth 9 w 0)) (sigma0 (nth 1 w 0))) wt in
  (mkRegs (add32 t1 t2) (ra r) (rb r) (rc r) (add32 (rd r) t1) (re r) (rf r) (rg r),
   tl w ++ [next]).

Definition compress (h : Regs) (block : list Z) : Regs :=
  let r := fst (fold_left round K (h, be_words 16 block)) in
  mkRegs (add32 (ra h) (ra r)) (add32 (rb h) (rb r)) (add32 (rc h) (rc r))
         (add32 (rd h) (rd r)) (add32 (re h) (re r)) (add32 (rf h) (rf r))
         (add32 (rg h) (rg r)) (add32 (rh h) (rh r)).

Fixpoint blocks (n : nat) (h : Regs) (bytes : list Z) : Regs :=
  match n with
  | O => h
  | S n' => blocks n' (compress h (take 64 bytes)) (drop 64 bytes)
  end.

Definition digest (msg : list Z) : Regs :=
  let padded := pad msg in
  blocks (length padded / 64) H0 padded.

Definition hex_nibble (n : Z) : ascii :=
  ascii_of_nat (Z.to_nat (if n <? 10 then 48 + n else 87 + n)).

Definition hex_word (x : Z) : string :=
  string_of_list_ascii
    ((λ i : nat, hex_nibble ((Z.shiftr x (4 * Z.of_nat (7 - i))) mod 16)) <$> seq 0 8).

Definition hex (r : Regs) : string :=
  hex_word (ra r) +:+ hex_word (rb r) +:+ hex_word (rc r) +:+ hex_word (rd r) +:+
  hex_word (re r) +:+ hex_word (rf r) +:+ hex_word (rg r) +:+ hex_word (rh r).

Definition bytes_of_string (s : string) : list Z :=
  (λ c, Z.of_nat (nat_of_ascii c)) <$> list_ascii_of_string s.

Definition hash_hex (s : string) : string := hex (digest (bytes_of_string s)).

End SHA256.

(** ** BlockchainService.generateTransactionHash

    [JSON.stringify(data, Object.keys(data).sort())] hashed with SHA-256.
    The sorted top-level keys are passed as the replacer array of
    [JSON.stringify]. *)
Definition canonical_string (data : JsValue) : Result string :=
  match Object_keys data with
  | Throw e => Throw e
  | Ok keys =>
      match JSON_stringify data (Array_sort keys) with
      | Some dataString => Ok dataString
      | None => Throw "TypeError: SHA256 of undefined"
      end
  end.

Definition generateTransactionHash (data : JsValue) : Result string :=
  match canonical_string data with
  | Throw e => Throw e
  | Ok dataString => Ok (SHA256.hash_hex dataString)
  end.

(** ** String helpers of the JavaScript runtime *)

(** [String.prototype.includes]. *)
Fixpoint includes (needle hay : string) : bool :=
  String.prefix needle hay ||
  match hay with
  | EmptyString => false
  | String _ hay' => includes needle hay'
  end.

(** [Array.prototype.join] on strings. *)
Fixpoint Array_join (sep : string) (parts : list string) : string :=
  match parts with
  | [] => EmptyString
  | [p] => p
  | p :: rest => p +:+ sep +:+ Array_join sep rest
  end.

Definition is_whitespace (c : ascii) : bool :=
  let n := nat_of_ascii c in
  bool_decide (n = 32%nat) || (bool_decide (9 <= n)%nat && bool_decide (n <= 13)%nat).

Fixpoint skip_whitespace (s : string) : string :=
  match s with
  | String c s' => if is_whitespace c then skip_whitespace s' else s
  | EmptyString => s
  end.

Definition digit_value (c : ascii) : option Z :=
  let n := Z.of_nat (nat_of_ascii c) in
  if (48 <=? n) && (n <=? 57) then Some (n - 48)
  else if (97 <=? n) && (n <=? 122) then Some (n - 87)
  else if (65 <=? n) && (n <=? 90) then Some (n - 55)
  else None.

Fixpoint parse_digits (radix : Z) (s : string) (acc : option Z) : option Z :=
  match s with
  | EmptyString => acc
  | String c s' =>
      match digit_value c with
      | Some d =>
          if d <? radix then parse_digits radix s' (Some (default 0 acc * radix + d))
          else acc
      | None => acc
      end
  end.

(** [parseInt(s)] without a radix argument; [None] is NaN. *)
Definition parseInt (s : string) : option Z :=
  let s1 := skip_whitespace s in
  let '(negative, s2) :=
    match s1 with
    | String "-" r => (true, r)
    | String "+" r => (false, r)
    | _ => (false, s1)
    end in
  let '(radix, s3) :=
    match s2 with
    | String "0" (String "x" r) => (16, r)
    | String "0" (String "X" r) => (16, r)
    | _ => (10, s2)
    end in
  match parse_digits radix s3 None with
  | Some n => Some (if negative then - n else n)
  | None => None
  end.

(** [a || b] on optional strings: [a] unless it is [undefined] or empty. *)
Definition string_or (a b : option string) : option string :=
  match a with
  | Some s => if String.eqb s EmptyString then b else a
  | None => b
  end.

(** [!s] on an optional string. *)
Definition string_falsy (a : option string) : bool :=
  match a with
  | Some s => String.eqb s EmptyString
  | None => true
  end.

(** [v.k]: reading a property of [undefined] or [null] throws. *)
Definition js_member (v : JsValue) (k : string) : Result JsValue :=
  match v with
  | JUndefined | JNull => Throw "TypeError: Cannot read properties of undefined"
  | _ => Ok (js_get v k)
  end.

(** ** Columns of the tables (shared/schema.ts)

    An [integer] or [serial] column holds a 32-bit integer. A [varchar(n)]
    column holds at most n characters: on assignment the blanks beyond them
    are dropped, and a text with anything else beyond them is refused. The
    characters of a text are counted on its UTF-8 bytes. *)
Definition int4 (n : Z) : bool := (-2147483648 <=? n) && (n <=? 2147483647).

Definition int4_or_null (n : option Z) : bool := from_option int4 true n.

(** A byte that continues a UTF-8 character. *)
Definition continuation_byte (c : ascii) : bool :=
  let n := nat_of_ascii c in
  bool_decide (128 <= n)%nat && bool_decide (n < 192)%nat.

(** The first [n] characters of a text, and what comes after them. *)
Fixpoint utf8_take (n : nat) (s : string) : string :=
  match s with
  | EmptyString => EmptyString
  | String c s' =>
      if continuation_byte c then String c (utf8_take n s')
      else match n with
           | O => EmptyString
           | S n' => String c (utf8_take n' s')
           end
  end.

Fixpoint utf8_drop (n : nat) (s : string) : string :=
  match s with
  | EmptyString => EmptyString
  | String c s' =>
      if continuation_byte c then utf8_drop n s'
      else match n with
           | O => s
           | S n' => utf8_drop n' s'
           end
  end.

Fixpoint all_blank (s : string) : bool :=
  match s with
  | EmptyString => true
  | String c s' => Ascii.eqb c " " && all_blank s'
  end.

(** The text a [varchar(n)] column keeps for [s]; [None] when it refuses. *)
Definition varchar (n : nat) (s : string) : option string :=
  if all_blank (utf8_drop n s) then Some (utf8_take n s) else None.

Definition varchar_or_null (n : nat) (s : option string) : option (option string) :=
  match s with
  | None => Some None
  | Some text => Some <$> varchar n text
  end.

(** The error of the driver for a statement the database refuses, named by
    its SQLSTATE. No caller reads it. *)
Definition numeric_value_out_of_range : string := "22003 numeric_value_out_of_range".
Definition invalid_text_representation : string := "22P02 invalid_text_representation".
Definition string_data_right_truncation : string := "22001 string_data_right_truncation".
Definition unique_violation : string := "23505 unique_violation".
Definition foreign_key_violation : string := "23503 foreign_key_violation".
Definition sequence_generator_limit_exceeded : string :=
  "2200H sequence_generator_limit_exceeded".

(** ** Rows of the tables (shared/schema.ts)

    Nullable columns are options; [isConfirmed] folds SQL NULL into [false],
    the two being told apart nowhere in the services. *)
Record User : Type := mkUser {
  user_id : Z;
  username : string;
  email : string;
  passwordHash : string;
  displayName : option string;
  avatar : option string;
  isVerified : option bool;
  publicKey : option string;
  privateKeyEncrypted : option string;
  securityScore : option Z;
  lastActive : option Z;
  user_createdAt : Z;
  updatedAt : Z }.

(** The [InsertUser] object [register] builds. *)
Record InsertUser : Type := mkInsertUser {
  ins_username : string;
  ins_email : string;
  ins_passwordHash : string;
  ins_displayName : option string;
  ins_securityScore : option Z;
  ins_isVerified : option bool }.

(** The [Partial<InsertUser>] objects the callers of [updateUser] build;
    [None] is a key that is not in the object. *)
Record UserUpdates : Type := mkUserUpdates {
  upd_publicKey : option string;
  upd_privateKeyEncrypted : option string;
  upd_lastActive : option Z }.

Record Permission : Type := mkPermission {
  permission_id : Z;
  permission_userId : Z;
  permissionType : string;
  isGranted : bool;
  grantedAt : option Z;
  revokedAt : option Z;
  autoRevoke : option bool;
  securityContext : option JsValue;
  permission_createdAt : Z;
  permission_updatedAt : Z }.

Record BlockchainTransaction : Type := mkTx {
  tx_id : Z;
  txHash : string;
  txType : string;
  relatedEntityId : option string;
  data : JsValue;
  blockNumber : option Z;
  gasUsed : option Z;
  isConfirmed : bool;
  tx_createdAt : Z }.

Record InsertBlockchainTransaction : Type := mkInsertTx {
  ins_txHash : string;
  ins_txType : string;
  ins_relatedEntityId : option string;
  ins_data : JsValue;
  ins_blockNumber : option Z;
  ins_gasUsed : option Z;
  ins_isConfirmed : option bool }.

Record SecurityLog : Type := mkLog {
  log_id : Z;
  log_userId : option Z;
  eventType : string;
  eventDescription : string;
  riskLevel : string;
  blockchainHash : option string;
  isAnomaly : bool;
  log_createdAt : Z }.

(** Every caller names a user; [ins_userId] is [None] when the number it
    hands over is NaN. *)
Record InsertSecurityLog : Type := mkInsertLog {
  ins_userId : option Z;
  ins_eventType : string;
  ins_eventDescription : string;
  ins_riskLevel : string;
  ins_blockchainHash : option string;
  ins_isAnomaly : option bool }.

(** One entry of [SecurityService.rateLimits]. *)
Record RateLimit : Type := mkRateLimit {
  count : Z;
  resetTime : Z }.

(** ** What the code takes from its platform

    None of this is code of the repository: the system clock; [Math.random],
    as [Math.floor(Math.random() * 50000)] and as
    [Math.random().toString(36)] at the n-th draw; the process environment;
    the AES routines of CryptoJS; [CryptoJS.lib.WordArray.random(32)
    .toString()] and [bcrypt.hash] with twelve rounds, each at the n-th draw
    from the cryptographic random source; [bcrypt.compare];
    [Date.prototype.toISOString]; and of the database behind [db] the value
    [db_jsonb v] it keeps for a jsonb column when handed [v], and the
    reading [database_now n] of its clock behind [defaultNow()], taken when
    the process has read its own clock n times. *)
Record Platform : Type := mkPlatform {
  clock : nat -> Z;
  random_below_50000 : nat -> Z;
  Math_random_base36 : nat -> string;
  process_env : string -> option string;
  AES_encrypt : string -> string -> string;
  AES_decrypt_utf8 : string -> string -> Result string;
  WordArray_random : nat -> string;
  bcrypt_hash : nat -> string -> string;
  bcrypt_compare : string -> string -> bool;
  Date_toISOString : Z -> string;
  db_jsonb : JsValue -> JsValue;
  database_now : nat -> Z }.

(** ** The state the methods act on

    [clock_reads], [random_draws] and [crypto_draws] count the readings
    taken so far, so the n-th [Date.now()] or [new Date()] returns
    [clock platform n]. Then come the private fields of the two singletons,
    the key-value store behind [expo-secure-store], and the four tables,
    each with the last value its id sequence has handed out. *)
Record World : Type := mkWorld {
  clock_reads : nat;
  random_draws : nat;
  crypto_draws : nat;
  currentBlockNumber : Z;
  blockedIPs : gset string;
  suspiciousActivities : gmap string Z;
  rateLimits : gmap string RateLimit;
  failedAttempts : gmap string Z;
  secure_store : gmap string string;
  users : list User;
  users_id_seq : Z;
  permissions : list Permission;
  permissions_id_seq : Z;
  blockchain_transactions : list BlockchainTransaction;
  blockchain_transactions_id_seq : Z;
  security_logs : list SecurityLog;
  security_logs_id_seq : Z }.

Definition set_clock_reads (x : nat) (w : World) : World :=
  mkWorld
    x (random_draws w) (crypto_draws w) (currentBlockNumber w) (blockedIPs w)
    (suspiciousActivities w) (rateLimits w) (failedAttempts w) (secure_store w) (users w)
    (users_id_seq w) (permissions w) (permissions_id_seq w) (blockchain_transactions w)
    (blockchain_transactions_id_seq w) (security_logs w) (security_logs_id_seq w).

Definition set_random_draws (x : nat) (w : World) : World :=
  mkWorld
    (clock_reads w) x (crypto_draws w) (currentBlockNumber w) (blockedIPs w)
    (suspiciousActivities w) (rateLimits w) (failedAttempts w) (secure_store w) (users w)
    (users_id_seq w) (permissions w) (permissions_id_seq w) (blockchain_transactions w)
    (blockchain_transactions_id_seq w) (security_logs w) (security_logs_id_seq w).

Definition set_crypto_draws (x : nat) (w : World) : World :=
  mkWorld
    (clock_reads w) (random_draws w) x (currentBlockNumber w) (blockedIPs w)
    (suspiciousActivities w) (rateLimits w) (failedAttempts w) (secure_store w) (users w)
    (users_id_seq w) (permissions w) (permissions_id_seq w) (blockchain_transactions w)
    (blockchain_transactions_id_seq w) (security_logs w) (security_logs_id_seq w).

Definition set_currentBlockNumber (x : Z) (w : World) : World :=
  mkWorld
    (clock_reads w) (random_draws w) (crypto_draws w) x (blockedIPs w)
    (suspiciousActivities w) (rateLimits w) (failedAttempts w) (secure_store w) (users w)
    (users_id_seq w) (permissions w) (permissions_id_seq w) (blockchain_transactions w)
    (blockchain_transactions_id_seq w) (security_logs w) (security_logs_id_seq w).

Definition set_blockedIPs (x : gset string) (w : World) : World :=
  mkWorld
    (clock_reads w) (random_draws w) (crypto_draws w) (currentBlockNumber w) x
    (suspiciousActivities w) (rateLimits w) (failedAttempts w) (secure_store w) (users w)
    (users_id_seq w) (permissions w) (permissions_id_seq w) (blockchain_transactions w)
    (blockchain_transactions_id_seq w) (security_logs w) (security_logs_id_seq w).

Definition set_suspiciousActivities (x : gmap string Z) (w : World) : World :=
  mkWorld
    (clock_reads w) (random_draws w) (crypto_draws w) (currentBlockNumber w) (blockedIPs w)
    x (rateLimits w) (failedAttempts w) (secure_store w) (users w) (users_id_seq w)
    (permissions w) (permissions_id_seq w) (blockchain_transactions w)
    (blockchain_transactions_id_seq w) (security_logs w) (security_logs_id_seq w).

Definition set_rateLimits (x : gmap string RateLimit) (w : World) : World :=
  mkWorld
    (clock_reads w) (random_draws w) (crypto_draws w) (currentBlockNumber w) (blockedIPs w)
    (suspiciousActivities w) x (failedAttempts w) (secure_store w) (users w)
    (users_id_seq w) (permissions w) (permissions_id_seq w) (blockchain_transactions w)
    (blockchain_transactions_id_seq w) (security_logs w) (security_logs_id_seq w).

Definition set_failedAttempts (x : gmap string Z) (w : World) : World :=
  mkWorld
    (clock_reads w) (random_draws w) (crypto_draws w) (currentBlockNumber w) (blockedIPs w)
    (suspiciousActivities w) (rateLimits w) x (secure_store w) (users w) (users_id_seq w)
    (permissions w) (permissions_id_seq w) (blockchain_transactions w)
    (blockchain_transactions_id_seq w) (security_logs w) (security_logs_id_seq w).

Definition set_secure_store (x : gmap string string) (w : World) : World :=
  mkWorld
    (clock_reads w) (random_draws w) (crypto_draws w) (currentBlockNumber w) (blockedIPs w)
    (suspiciousActivities w) (rateLimits w) (failedAttempts w) x (users w) (users_id_seq w)
    (permissions w) (permissions_id_seq w) (blockchain_transactions w)
    (blockchain_transactions_id_seq w) (security_logs w) (security_logs_id_seq w).

Definition set_users (x : list User) (w : World) : World :=
  mkWorld
    (clock_reads w) (random_draws w) (crypto_draws w) (currentBlockNumber w) (blockedIPs w)
    (suspiciousActivities w) (rateLimits w) (failedAttempts w) (secure_store w) x
    (users_id_seq w) (permissions w) (permissions_id_seq w) (blockchain_transactions w)
    (blockchain_transactions_id_seq w) (security_logs w) (security_logs_id_seq w).

Definition set_users_id_seq (x : Z) (w : World) : World :=
  mkWorld
    (clock_reads w) (random_draws w) (crypto_draws w) (currentBlockNumber w) (blockedIPs w)
    (suspiciousActivities w) (rateLimits w) (failedAttempts w) (secure_store w) (users w) x
    (permissions w) (permissions_id_seq w) (blockchain_transactions w)
    (blockchain_transactions_id_seq w) (security_logs w) (security_logs_id_seq w).

Definition set_permissions (x : list Permission) (w : World) : World :=
  mkWorld
    (clock_reads w) (random_draws w) (crypto_draws w) (currentBlockNumber w) (blockedIPs w)
    (suspiciousActivities w) (rateLimits w) (failedAttempts w) (secure_store w) (users w)
    (users_id_seq w) x (permissions_id_seq w) (blockchain_transactions w)
    (blockchain_transactions_id_seq w) (security_logs w) (security_logs_id_seq w).

Definition set_permissions_id_seq (x : Z) (w : World) : World :=
  mkWorld
    (clock_reads w) (random_draws w) (crypto_draws w) (currentBlockNumber w) (blockedIPs w)
    (suspiciousActivities w) (rateLimits w) (failedAttempts w) (secure_store w) (users w)
    (users_id_seq w) (permissions w) x (blockchain_transactions w)
    (blockchain_transactions_id_seq w) (security_logs w) (security_logs_id_seq w).

Definition set_blockchain_transactions (x : list BlockchainTransaction) (w : World) : World :=
  mkWorld
    (clock_reads w) (random_draws w) (crypto_draws w) (currentBlockNumber w) (blockedIPs w)
    (suspiciousActivities w) (rateLimits w) (failedAttempts w) (secure_store w) (users w)
    (users_id_seq w) (permissions w) (permissions_id_seq w) x
    (blockchain_transactions_id_seq w) (security_logs w) (security_logs_id_seq w).

Definition set_blockchain_transactions_id_seq (x : Z) (w : World) : World :=
  mkWorld
    (clock_reads w) (random_draws w) (crypto_draws w) (currentBlockNumber w) (blockedIPs w)
    (suspiciousActivities w) (rateLimits w) (failedAttempts w) (secure_store w) (users w)
    (users_id_seq w) (permissions w) (permissions_id_seq w) (blockchain_transactions w) x
    (security_logs w) (security_logs_id_seq w).

Definition set_security_logs (x : list SecurityLog) (w : World) : World :=
  mkWorld
    (clock_reads w) (random_draws w) (crypto_draws w) (currentBlockNumber w) (blockedIPs w)
    (suspiciousActivities w) (rateLimits w) (failedAttempts w) (secure_store w) (users w)
    (users_id_seq w) (permissions w) (permissions_id_seq w) (blockchain_transactions w)
    (blockchain_transactions_id_seq w) x (security_logs_id_seq w).

Definition set_security_logs_id_seq (x : Z) (w : World) : World :=
  mkWorld
    (clock_reads w) (random_draws w) (crypto_draws w) (currentBlockNumber w) (blockedIPs w)
    (suspiciousActivities w) (rateLimits w) (failedAttempts w) (secure_store w) (users w)
    (users_id_seq w) (permissions w) (permissions_id_seq w) (blockchain_transactions w)
    (blockchain_transactions_id_seq w) (security_logs w) x.
(** The state of a fresh process over empty tables; [initializeFirewall]
    has put its two addresses on the block list. *)
Definition initial_world : World :=
  mkWorld 0 0 0 0 ({[ "0.0.0.0" ]} ∪ {[ "192.168.1.1" ]}) ∅ ∅ ∅ ∅ [] 0 [] 0 [] 0 [] 0.

(** ** A state monad with exceptions

    A thrown error keeps the state reached when it was thrown: JavaScript
    does not roll back the assignments made before a [throw]. *)
Definition M (A : Type) : Type := World -> Result A * World.

Definition ret {A : Type} (a : A) : M A := λ w, (Ok a, w).

Definition throw {A : Type} (message : string) : M A := λ w, (Throw message, w).

Definition bind {A B : Type} (m : M A) (k : A -> M B) : M B :=
  λ w, match m w with
       | (Ok a, w') => k a w'
       | (Throw e, w') => (Throw e, w')
       end.

Definition try_catch {A : Type} (body : M A) (handler : string -> M A) : M A :=
  λ w, match body w with
       | (Ok a, w') => (Ok a, w')
       | (Throw e, w') => handler e w'
       end.

Definition lift {A : Type} (r : Result A) : M A := λ w, (r, w).

Definition gets {A : Type} (f : World -> A) : M A := λ w, (Ok (f w), w).

Definition modify (f : World -> World) : M unit := λ w, (Ok tt, f w).

Declare Scope js_scope.
Delimit Scope js_scope with js.
Notation "'do' x <- m ; k" := (bind m (λ x, k))
  (at level 10, x name, m at level 100, k at level 200) : js_scope.
Local Open Scope js_scope.

Section Services.

Context (platform : Platform).

(** [Date.now()], and the reading behind [new Date()]. *)
Definition Date_now : M Z :=
  λ w, (Ok (clock platform (clock_reads w)), set_clock_reads (S (clock_reads w)) w).

(** [Math.floor(Math.random() * 50000)]. *)
Definition Math_random_50000 : M Z :=
  λ w, (Ok (random_below_50000 platform (random_draws w)),
        set_random_draws (S (random_draws w)) w).

(** ** DatabaseStorage (server/storage.ts)

    The statements are sent with their values as parameters, and a
    statement is refused in one of two places. When the server binds the
    parameters and plans the statement it refuses an integer that is NaN or
    does not fit 32 bits and a text too long for its [varchar]; nothing has
    happened then. When it runs an insert, the row first takes its id from
    the sequence, and is then refused for a key that is already there or
    for a reference to a user that is not; the id is not given back. The
    sequence behind a [serial] column is an integer sequence: beyond 2^31-1
    it refuses to hand out an id and stays where it is. *)
Definition nextval (current : World -> Z) (set : Z -> World -> World) : M Z :=
  λ w, if int4 (current w + 1) then (Ok (current w + 1), set (current w + 1) w)
       else (Throw sequence_generator_limit_exceeded, w).

Definition storage_createSecurityLog (insertLog : InsertSecurityLog) : M SecurityLog :=
  do createdAt <- Date_now ;
  match ins_userId insertLog with
  | None => throw invalid_text_representation
  | Some userId =>
      if negb (int4 userId) then throw numeric_value_out_of_range
      else
        match varchar 50 (ins_eventType insertLog), varchar 20 (ins_riskLevel insertLog) with
        | Some eventType', Some riskLevel' =>
            do id <- nextval security_logs_id_seq set_security_logs_id_seq ;
            do rows <- gets security_logs ;
            do accounts <- gets users ;
            if bool_decide (id ∈ log_id <$> rows) then throw unique_violation
            else if negb (bool_decide (userId ∈ user_id <$> accounts)) then
              throw foreign_key_violation
            else
              let log :=
                mkLog id (Some userId) eventType' (ins_eventDescription insertLog)
                  riskLevel' (ins_blockchainHash insertLog)
                  (default false (ins_isAnomaly insertLog)) createdAt in
              do _ <- modify (set_security_logs (rows ++ [log])) ;
              ret log
        | _, _ => throw string_data_right_truncation
        end
  end.

Definition storage_createBlockchainTransaction (insertTx : InsertBlockchainTransaction)
  : M BlockchainTransaction :=
  do createdAt <- Date_now ;
  if negb (int4_or_null (ins_blockNumber insertTx) && int4_or_null (ins_gasUsed insertTx))
  then throw numeric_value_out_of_range
  else
    match varchar 50 (ins_txType insertTx) with
    | Some txType' =>
        do id <- nextval blockchain_transactions_id_seq set_blockchain_transactions_id_seq ;
        do rows <- gets blockchain_transactions ;
        if bool_decide (id ∈ tx_id <$> rows) ||
           bool_decide (ins_txHash insertTx ∈ txHash <$> rows) then
          throw unique_violation
        else
          let transaction :=
            mkTx id (ins_txHash insertTx) txType' (ins_relatedEntityId insertTx)
              (db_jsonb platform (ins_data insertTx)) (ins_blockNumber insertTx)
              (ins_gasUsed insertTx) (default false (ins_isConfirmed insertTx))
              createdAt in
          do _ <- modify (set_blockchain_transactions (rows ++ [transaction])) ;
          ret transaction
    | None => throw string_data_right_truncation
    end.

(** The first row whose [txHash] column equals the argument. *)
Definition storage_getBlockchainTransaction (h : string)
  : M (option BlockchainTransaction) :=
  do rows <- gets blockchain_transactions ;
  ret (head (filter (λ t, txHash t = h) rows)).

(** [ORDER BY created_at DESC]: newest first; rows created at the same
    instant come in the order the sort leaves them, which SQL leaves open. *)
Definition newer_first (a b : BlockchainTransaction) : Prop :=
  tx_createdAt b <= tx_createdAt a.

#[global] Instance newer_first_dec : RelDecision newer_first :=
  λ a b, decide (tx_createdAt b <= tx_createdAt a).

Definition storage_getAllBlockchainTransactions : M (list BlockchainTransaction) :=
  do rows <- gets blockchain_transactions ;
  ret (merge_sort newer_first rows).

Definition storage_getUser (id : Z) : M (option User) :=
  if negb (int4 id) then throw numeric_value_out_of_range
  else
    do rows <- gets users ;
    ret (head (filter (λ u, user_id u = id) rows)).

Definition storage_getUserByUsername (name : string) : M (option User) :=
  do rows <- gets users ;
  ret (head (filter (λ u, username u = name) rows)).

Definition storage_getUserByEmail (address : string) : M (option User) :=
  do rows <- gets users ;
  ret (head (filter (λ u, email u = address) rows)).

(** The insert names neither avatar nor keys, which stay NULL, and leaves
    last_active to its default. The log row is written for the row that
    came back. *)
Definition storage_createUser (insertUser : InsertUser) : M User :=
  do createdAt <- Date_now ;
  do updatedAt' <- Date_now ;
  if negb (int4_or_null (ins_securityScore insertUser)) then
    throw numeric_value_out_of_range
  else
    match varchar 50 (ins_username insertUser), varchar 100 (ins_email insertUser),
          varchar_or_null 100 (ins_displayName insertUser) with
    | Some username', Some email', Some displayName' =>
        do id <- nextval users_id_seq set_users_id_seq ;
        do lastActive' <- gets (λ w, database_now platform (clock_reads w)) ;
        do rows <- gets users ;
        if bool_decide (id ∈ user_id <$> rows) ||
           bool_decide (username' ∈ username <$> rows) ||
           bool_decide (email' ∈ email <$> rows) then
          throw unique_violation
        else
          let created :=
            mkUser id username' email' (ins_passwordHash insertUser) displayName' None
              (Some (default false (ins_isVerified insertUser))) None None
              (Some (default 100 (ins_securityScore insertUser))) (Some lastActive')
              createdAt updatedAt' in
          do _ <- modify (set_users (rows ++ [created])) ;
          do _ <- storage_createSecurityLog
               (mkInsertLog (Some (user_id created)) "user_registration"
                  ("User registered with username: " +:+ username created) "low"
                  None None) ;
          ret created
    | _, _, _ => throw string_data_right_truncation
    end.

(** [.set({...updates, updatedAt: new Date()})] on one row. *)
Definition apply_updates (updates : UserUpdates) (now : Z) (u : User) : User :=
  mkUser (user_id u) (username u) (email u) (passwordHash u) (displayName u) (avatar u)
    (isVerified u)
    (match upd_publicKey updates with Some k => Some k | None => publicKey u end)
    (match upd_privateKeyEncrypted updates with
     | Some k => Some k
     | None => privateKeyEncrypted u
     end)
    (securityScore u)
    (match upd_lastActive updates with Some t => Some t | None => lastActive u end)
    (user_createdAt u) now.

Definition storage_updateUser (id : Z) (updates : UserUpdates) : M (option User) :=
  do now <- Date_now ;
  if negb (int4 id) then throw numeric_value_out_of_range
  else
    do rows <- gets users ;
    let changed :=
      (λ u, if bool_decide (user_id u = id) then apply_updates updates now u else u)
        <$> rows in
    do _ <- modify (set_users changed) ;
    match head (filter (λ u, user_id u = id) changed) with
    | Some u =>
        do _ <- storage_createSecurityLog
             (mkInsertLog (Some id) "user_profile_update" "User profile updated" "low"
                None None) ;
        ret (Some u)
    | None => ret None
    end.

(** [isGranted ? new Date() : null]. *)
Definition Date_when (condition : bool) : M (option Z) :=
  if condition then
    do now <- Date_now ;
    ret (Some now)
  else ret None.

(** The row found for the user and the permission is updated in place;
    without one a row is inserted. What comes back is the first row that
    the statement returned. *)
Definition storage_updatePermission (userId : Z) (permissionType' : string)
    (isGranted' : bool) : M (option Permission) :=
  if negb (int4 userId) then throw numeric_value_out_of_range
  else
    do rows <- gets permissions ;
    match head (filter (λ p, permission_userId p = userId ∧
                             permissionType p = permissionType') rows) with
    | Some existing =>
        do grantedAt' <- Date_when isGranted' ;
        do revokedAt' <- Date_when (negb isGranted') ;
        do updatedAt' <- Date_now ;
        let changed :=
          (λ p, if bool_decide (permission_id p = permission_id existing)
                then mkPermission (permission_id p) (permission_userId p)
                       (permissionType p) isGranted' grantedAt' revokedAt' (autoRevoke p)
                       (securityContext p) (permission_createdAt p) updatedAt'
                else p) <$> rows in
        do _ <- modify (set_permissions changed) ;
        do _ <- storage_createSecurityLog
             (mkInsertLog (Some userId) "permission_updated"
                ("Permission " +:+ permissionType' +:+ " " +:+
                 (if isGranted' then "granted" else "revoked"))
                (if isGranted' then "low" else "medium") None None) ;
        ret (head (filter (λ p, permission_id p = permission_id existing) changed))
    | None =>
        do grantedAt' <- Date_when isGranted' ;
        do createdAt <- Date_now ;
        do updatedAt' <- Date_now ;
        match varchar 50 permissionType' with
        | Some stored =>
            do id <- nextval permissions_id_seq set_permissions_id_seq ;
            do accounts <- gets users ;
            if bool_decide (id ∈ permission_id <$> rows) then throw unique_violation
            else if negb (bool_decide (userId ∈ user_id <$> accounts)) then
              throw foreign_key_violation
            else
              let created :=
                mkPermission id userId stored isGranted' grantedAt' None (Some false)
                  None createdAt updatedAt' in
              do _ <- modify (set_permissions (rows ++ [created])) ;
              do _ <- storage_createSecurityLog
                   (mkInsertLog (Some userId) "permission_created"
                      ("Permission " +:+ permissionType' +:+ " " +:+
                       (if isGranted' then "granted" else "created as revoked"))
                      "low" None None) ;
              ret (Some created)
        | None => throw string_data_right_truncation
        end
    end.

(** ** BlockchainService (blockchainService.ts) *)

Record ChainValidation : Type := mkChainValidation {
  valid : bool;
  corruptedTransactions : list string }.

Definition transaction_payload (eventType : string) (data : JsValue) (userId : option Z)
    (timestamp blockNumber : Z) : JsValue :=
  JObject [ ("eventType", JString eventType);
            ("data", data);
            ("userId", from_option JNumber JUndefined userId);
            ("timestamp", JNumber timestamp);
            ("blockNumber", JNumber blockNumber) ].

Definition createSecurityTransaction (eventType : string) (data : JsValue)
    (userId : option Z) : M string :=
  do timestamp <- Date_now ;
  do current <- gets currentBlockNumber ;
  let transactionData := transaction_payload eventType data userId timestamp (current + 1) in
  do txHash <- lift (generateTransactionHash transactionData) ;
  do _ <- modify (λ w, set_currentBlockNumber (currentBlockNumber w + 1) w) ;
  do blockNumber <- gets currentBlockNumber ;
  do random <- Math_random_50000 ;
  do dbTransaction <- storage_createBlockchainTransaction
       (mkInsertTx txHash eventType (pretty <$> userId) transactionData
          (Some blockNumber) (Some (random + 21000)) (Some true)) ;
  do verificationHash <- lift (generateTransactionHash transactionData) ;
  if negb (String.eqb verificationHash txHash) then
    throw "Transaction hash verification failed - potential tampering detected"
  else ret txHash.

(** The pair is (publicKey, privateKey). *)
Definition generateKeyPair : M (string * string) :=
  λ w, let privateKey := WordArray_random platform (crypto_draws w) in
       (Ok (SHA256.hash_hex privateKey, privateKey),
        set_crypto_draws (S (crypto_draws w)) w).

Definition encryptPrivateKey (privateKey : string) : Result string :=
  let masterKey := process_env platform "MASTER_ENCRYPTION_KEY" in
  if string_falsy masterKey then
    Throw "MASTER_ENCRYPTION_KEY environment variable is required for secure operations"
  else Ok (AES_encrypt platform privateKey (default EmptyString masterKey)).

Definition decryptPrivateKey (encryptedKey : string) : Result string :=
  let masterKey := process_env platform "MASTER_ENCRYPTION_KEY" in
  if string_falsy masterKey then
    Throw "MASTER_ENCRYPTION_KEY environment variable is required for secure operations"
  else AES_decrypt_utf8 platform encryptedKey (default EmptyString masterKey).

Definition registration_payload (userId : Z) (publicKey' : string) (userData : JsValue)
    (timestamp : Z) : JsValue :=
  JObject [ ("userId", JNumber userId);
            ("publicKey", JString publicKey');
            ("registrationData", userData);
            ("timestamp", JNumber timestamp) ].

Definition registerUserOnChain (userId : Z) (userData : JsValue) : M string :=
  do keyPair <- generateKeyPair ;
  do timestamp <- Date_now ;
  do txHash' <- createSecurityTransaction "user_registration"
       (registration_payload userId keyPair.1 userData timestamp) (Some userId) ;
  do encrypted <- lift (encryptPrivateKey keyPair.2) ;
  do _ <- storage_updateUser userId (mkUserUpdates (Some keyPair.1) (Some encrypted) None) ;
  ret txHash'.

Definition message_payload (messageId : string) (senderId recipientId : Z)
    (messageHash : string) (timestamp : Z) : JsValue :=
  JObject [ ("messageId", JString messageId);
            ("senderId", JNumber senderId);
            ("recipientId", JNumber recipientId);
            ("messageHash", JString messageHash);
            ("timestamp", JNumber timestamp) ].

Definition recordMessageOnChain (messageId : string) (senderId recipientId : Z)
    (messageHash : string) : M string :=
  do timestamp <- Date_now ;
  createSecurityTransaction "message_sent"
    (message_payload messageId senderId recipientId messageHash timestamp)
    (Some senderId).

Definition verifyTransaction (txHash' : string) : M bool :=
  try_catch
    (do dbData <- storage_getBlockchainTransaction txHash' ;
     match dbData with
     | None => ret false
     | Some row =>
         if negb (isConfirmed row) then ret false
         else
           do regeneratedHash <- lift (generateTransactionHash (data row)) ;
           let hashMatches := String.eqb regeneratedHash txHash' in
           do _ <- (if negb hashMatches then
                      do _ <- storage_createSecurityLog
                           (mkInsertLog
                              (parseInt (default "0" (string_or (relatedEntityId row) None)))
                              "blockchain_tampering_detected"
                              ("Transaction hash verification failed for " +:+ txHash')
                              "critical" None (Some true)) ;
                      ret tt
                    else ret tt) ;
           ret hashMatches
     end)
    (λ _, ret false).

Definition getAllTransactions : M (list BlockchainTransaction) :=
  try_catch storage_getAllBlockchainTransactions (λ _, ret []).

(** The body of the [for ... of] loop of [validateChainIntegrity];
    [corrupted] is the array the loop pushes onto. *)
Fixpoint validate_transactions (transactions : list BlockchainTransaction)
    (corrupted : list string) : M (list string) :=
  match transactions with
  | [] => ret corrupted
  | transaction :: rest =>
      do regeneratedHash <- lift (generateTransactionHash (data transaction)) ;
      if negb (String.eqb regeneratedHash (txHash transaction)) then
        do _ <- storage_createSecurityLog
             (mkInsertLog
                (parseInt (default "0" (string_or (relatedEntityId transaction) None)))
                "blockchain_integrity_violation"
                ("Chain integrity violation: " +:+ txHash transaction)
                "critical" None (Some true)) ;
        validate_transactions rest (corrupted ++ [txHash transaction])
      else validate_transactions rest corrupted
  end.

Definition validateChainIntegrity : M ChainValidation :=
  try_catch
    (do allTransactions <- getAllTransactions ;
     do corrupted <- validate_transactions allTransactions [] ;
     ret (mkChainValidation (bool_decide (length corrupted = 0%nat)) corrupted))
    (λ _, ret (mkChainValidation false [])).

Definition audit_payload (userId : Z) (eventType' description riskLevel' : string)
    (timestamp : Z) : JsValue :=
  JObject [ ("userId", JNumber userId);
            ("eventType", JString eventType');
            ("description", JString description);
            ("riskLevel", JString riskLevel');
            ("timestamp", JNumber timestamp);
            ("ipAddress", JString "127.0.0.1") ].

Definition createAuditTrail (userId : Z) (eventType' description riskLevel' : string)
  : M string :=
  do timestamp <- Date_now ;
  let auditData := audit_payload userId eventType' description riskLevel' timestamp in
  do txHash <- createSecurityTransaction "security_audit" auditData (Some userId) ;
  do _ <- storage_createSecurityLog
       (mkInsertLog (Some userId) eventType' description riskLevel' (Some txHash)
          (Some (String.eqb riskLevel' "high" || String.eqb riskLevel' "critical"))) ;
  ret txHash.

(** ** SecurityService (securityService.ts) *)

Definition MAX_FAILED_ATTEMPTS : Z := 5.
Definition RATE_LIMIT_WINDOW : Z := 60000.
Definition MAX_REQUESTS_PER_MINUTE : Z := 100.
Definition SUSPICIOUS_THRESHOLD : Z := 10.

Record IntrusionVerdict : Type := mkVerdict {
  threat : bool;
  level : string;
  action : string }.

(** The key [`${a}:${b}`] of the three counter maps. *)
Definition map_key (a b : string) : string := a +:+ ":" +:+ b.

Definition isIPBlocked (ipAddress : string) : M bool :=
  gets (λ w, bool_decide (ipAddress ∈ blockedIPs w)).

Definition blockIP (ipAddress reason : string) (userId : option Z) : M unit :=
  do _ <- modify (λ w, set_blockedIPs ({[ ipAddress ]} ∪ blockedIPs w) w) ;
  do _ <- createAuditTrail (default 0 userId) "ip_blocked"
       ("IP " +:+ ipAddress +:+ " blocked: " +:+ reason) "high" ;
  ret tt.

(** [userId] is [string | number]; the audit record carries user 0 for a
    string. *)
Definition recordSuspiciousActivity (userId : string + Z)
    (activityType description ipAddress : string) : M unit :=
  let key := map_key (match userId with inl name => name | inr n => pretty n end)
               activityType in
  do count' <- gets (λ w, default 0 (suspiciousActivities w !! key)) ;
  let newCount := count' + 1 in
  do _ <- modify (λ w, set_suspiciousActivities (<[key := newCount]> (suspiciousActivities w)) w) ;
  let riskLevel' :=
    if SUSPICIOUS_THRESHOLD <? newCount then "critical"
    else if 5 <? newCount then "high" else "medium" in
  do _ <- createAuditTrail (match userId with inl _ => 0 | inr n => n end)
       "suspicious_activity"
       (activityType +:+ ": " +:+ description +:+ " (occurrence: " +:+ pretty newCount +:+ ")")
       riskLevel' ;
  if SUSPICIOUS_THRESHOLD <? newCount then
    blockIP ipAddress ("Suspicious activity threshold exceeded: " +:+ activityType) None
  else ret tt.

Definition checkRateLimit (identifier ipAddress : string) : M bool :=
  do now <- Date_now ;
  let key := map_key identifier ipAddress in
  do limit <- gets (λ w, rateLimits w !! key) ;
  let expired := match limit with
                 | None => true
                 | Some l => resetTime l <? now
                 end in
  if expired then
    do _ <- modify (λ w, set_rateLimits
                           (<[key := mkRateLimit 1 (now + RATE_LIMIT_WINDOW)]> (rateLimits w)) w) ;
    ret true
  else
    let l := default (mkRateLimit 0 0) limit in
    if MAX_REQUESTS_PER_MINUTE <=? count l then
      do _ <- recordSuspiciousActivity (inl identifier) "rate_limit_exceeded"
           ("Rate limit exceeded: " +:+ pretty (count l) +:+ " requests") ipAddress ;
      ret false
    else
      do _ <- modify (λ w, set_rateLimits
                             (<[key := mkRateLimit (count l + 1) (resetTime l)]> (rateLimits w)) w) ;
      ret true.

Definition recordFailedAttempt (identifier ipAddress : string) : M bool :=
  let key := map_key identifier ipAddress in
  do attempts <- gets (λ w, default 0 (failedAttempts w !! key)) ;
  let newAttempts := attempts + 1 in
  do _ <- modify (λ w, set_failedAttempts (<[key := newAttempts]> (failedAttempts w)) w) ;
  if MAX_FAILED_ATTEMPTS <=? newAttempts then
    do _ <- blockIP ipAddress
         (pretty MAX_FAILED_ATTEMPTS +:+ " failed login attempts for " +:+ identifier) None ;
    ret true
  else
    do _ <- createAuditTrail 0 "failed_login_attempt"
         ("Failed login attempt " +:+ pretty newAttempts +:+ "/" +:+
          pretty MAX_FAILED_ATTEMPTS +:+ " for " +:+ identifier)
         (if 2 <? newAttempts then "medium" else "low") ;
    ret false.

Definition clearFailedAttempts (identifier ipAddress : string) : M unit :=
  modify (λ w, set_failedAttempts (delete (map_key identifier ipAddress) (failedAttempts w)) w).

Definition encryptData (data' : string) (key : option string) : Result string :=
  let encryptionKey := string_or key (process_env platform "ENCRYPTION_KEY") in
  if string_falsy encryptionKey then
    Throw "ENCRYPTION_KEY environment variable is required for secure operations"
  else Ok (AES_encrypt platform data' (default EmptyString encryptionKey)).

(** The [try]/[catch] of [decryptData] turns every error into the empty
    string. *)
Definition decryptData (encryptedData : string) (key : option string) : string :=
  let encryptionKey := string_or key (process_env platform "ENCRYPTION_KEY") in
  if string_falsy encryptionKey then EmptyString
  else match AES_decrypt_utf8 platform encryptedData (default EmptyString encryptionKey) with
       | Ok plain => plain
       | Throw _ => EmptyString
       end.

(** [activity.includes(word) && metadata[flag]]: the flag is read only when
    the activity names the word. *)
Definition flagged (activity word : string) (metadata : JsValue) (flag : string)
  : Result bool :=
  if includes word activity then
    match js_member metadata flag with
    | Ok v => Ok (truthy v)
    | Throw e => Throw e
    end
  else Ok false.

Definition detectIntrusion (userId : Z) (activity : string) (metadata : JsValue)
  : M IntrusionVerdict :=
  let rapidActivityKey := map_key (pretty userId) "rapid_activity" in
  do rapidCount <- gets (λ w, default 0 (suspiciousActivities w !! rapidActivityKey)) ;
  let threats0 := if 20 <? rapidCount then ["rapid_activity"] else [] in
  do unusual <- lift (flagged activity "permission" metadata "unusual_pattern") ;
  let threats1 := if unusual then threats0 ++ ["unusual_permission_pattern"] else threats0 in
  do suspicious <- lift (flagged activity "file_access" metadata "suspicious_size") ;
  let threats := if suspicious then threats1 ++ ["file_access_anomaly"] else threats1 in
  if bool_decide (length threats = 0%nat) then ret (mkVerdict false "none" "continue")
  else
    let level' :=
      if bool_decide (2 < length threats)%nat then "critical"
      else if bool_decide (1 < length threats)%nat then "high" else "medium" in
    let action' :=
      if String.eqb level' "critical" then "block_user"
      else if String.eqb level' "high" then "require_verification" else "monitor" in
    do _ <- createAuditTrail userId "intrusion_detected"
         ("Intrusion detected: " +:+ Array_join ", " threats) level' ;
    ret (mkVerdict true level' action').

(** The two [for ... of] loops delete while they iterate; a [Map] iterator
    still visits every entry, so each loop keeps the entries its test
    rejects. The second loop reads the values of [failedAttempts], which
    [recordFailedAttempt] sets to attempt counts, under the name
    [timestamp]. *)
Definition cleanupSecurityData : M unit :=
  do now <- Date_now ;
  do _ <- modify (λ w, set_rateLimits
                         (filter (λ kv, ¬ (resetTime kv.2 < now)) (rateLimits w)) w) ;
  let oneHourAgo := now - 60 * 60 * 1000 in
  do _ <- modify (λ w, set_failedAttempts
                         (filter (λ kv, ¬ (kv.2 < oneHourAgo)) (failedAttempts w)) w) ;
  ret tt.

(** [SecurityService.emergencyLockdown]. *)
Definition emergencyLockdown (reason : string) : M unit :=
  do _ <- createAuditTrail 0 "emergency_lockdown"
       ("Emergency lockdown activated: " +:+ reason) "critical" ;
  ret tt.

Record PermissionDecision : Type := mkDecision {
  allowed : bool;
  reason : option string }.

(** [user.securityScore < 50] on a NULL score compares 0 with 50, and the
    template literal prints the NULL score as null. [context] is not read. *)
Definition checkPermissionSecurity (userId : Z) (permissionType : string)
    (context : JsValue) : M PermissionDecision :=
  try_catch
    (do found <- storage_getUser userId ;
     match found with
     | None => ret (mkDecision false (Some "User not found"))
     | Some u =>
         if default 0 (securityScore u) <? 50 then
           do _ <- createAuditTrail userId "permission_denied"
                ("Permission " +:+ permissionType +:+
                 " denied due to low security score: " +:+
                 from_option pretty "null" (securityScore u))
                "medium" ;
           ret (mkDecision false (Some "Security score too low"))
         else
           do suspiciousCount <- gets
                (λ w, default 0 (suspiciousActivities w
                                   !! map_key (pretty userId) "permission_request")) ;
           if 3 <? suspiciousCount then
             ret (mkDecision false (Some "Too many recent permission requests"))
           else
             do _ <- createAuditTrail userId "permission_granted"
                  ("Permission " +:+ permissionType +:+ " granted") "low" ;
             ret (mkDecision true None)
     end)
    (λ _, ret (mkDecision false (Some "Security check failed"))).

(** ** AuthService (authService.ts) *)

Record UserView : Type := mkUserView {
  view_id : Z;
  view_username : string;
  view_email : string;
  view_displayName : option string;
  view_securityScore : option Z }.

Record AuthResult : Type := mkAuthResult {
  success : bool;
  user : option UserView;
  token : option string;
  message : option string }.

(** [JSON.stringify(tokenData)], no replacer: the three members, in the
    order of the object literal. *)
Definition auth_token_text (userId timestamp : Z) (random : string) : string :=
  "{" +:+ join_comma
    [ QuoteJSONString "userId" +:+ ":" +:+ pretty userId;
      QuoteJSONString "timestamp" +:+ ":" +:+ pretty timestamp;
      QuoteJSONString "random" +:+ ":" +:+ QuoteJSONString random ] +:+ "}".

Definition generateAuthToken (userId : Z) : M string :=
  do timestamp <- Date_now ;
  do random <- (λ w, (Ok (Math_random_base36 platform (random_draws w)),
                      set_random_draws (S (random_draws w)) w)) ;
  lift (encryptData (auth_token_text userId timestamp random) None).

Definition SecureStore_setItemAsync (key value : string) : M unit :=
  modify (λ w, set_secure_store (<[key := value]> (secure_store w)) w).

Definition denied (text : string) : AuthResult :=
  mkAuthResult false None None (Some text).

Definition bcrypt_hash_12 (password : string) : M string :=
  λ w, (Ok (bcrypt_hash platform (crypto_draws w) password),
        set_crypto_draws (S (crypto_draws w)) w).

Definition account_view (u : User) : UserView :=
  mkUserView (user_id u) (username u) (email u) (displayName u) (securityScore u).

Definition register (username' email' password ipAddress : string) : M AuthResult :=
  try_catch
    (do rateLimitOk <- checkRateLimit "register" ipAddress ;
     if negb rateLimitOk then ret (denied "Rate limit exceeded. Please try again later.")
     else
       do existingUser <- storage_getUserByUsername username' ;
       match existingUser with
       | Some _ =>
           do _ <- recordSuspiciousActivity (inl username') "duplicate_registration"
                "Attempted to register existing username" ipAddress ;
           ret (denied "Username already exists")
       | None =>
           do existingEmail <- storage_getUserByEmail email' ;
           match existingEmail with
           | Some _ => ret (denied "Email already exists")
           | None =>
               do passwordHash' <- bcrypt_hash_12 password ;
               do newUser <- storage_createUser
                    (mkInsertUser username' email' passwordHash' (Some username')
                       (Some 100) (Some false)) ;
               do registrationTime <- Date_now ;
               do _ <- registerUserOnChain (user_id newUser)
                    (JObject [ ("username", JString username');
                               ("email", JString email');
                               ("registrationTime",
                                JString (Date_toISOString platform registrationTime)) ]) ;
               do _ <- storage_updatePermission (user_id newUser) "CAMERA" false ;
               do _ <- storage_updatePermission (user_id newUser) "MICROPHONE" false ;
               do _ <- storage_updatePermission (user_id newUser) "GALLERY" false ;
               do token' <- generateAuthToken (user_id newUser) ;
               do _ <- SecureStore_setItemAsync "auth_token" token' ;
               do _ <- SecureStore_setItemAsync "user_id" (pretty (user_id newUser)) ;
               ret (mkAuthResult true (Some (account_view newUser)) (Some token')
                      (Some "Registration successful"))
           end
       end)
    (λ _, ret (denied "Registration failed. Please try again.")).

Definition login (username' password ipAddress : string) : M AuthResult :=
  try_catch
    (do blocked <- isIPBlocked ipAddress ;
     if blocked then ret (denied "Access denied from this IP address")
     else
       do rateLimitOk <- checkRateLimit "login" ipAddress ;
       if negb rateLimitOk then
         ret (denied "Too many login attempts. Please try again later.")
       else
         do found <- storage_getUserByUsername username' ;
         match found with
         | None =>
             do _ <- recordFailedAttempt username' ipAddress ;
             ret (denied "Invalid username or password")
         | Some u =>
             if negb (bcrypt_compare platform password (passwordHash u)) then
               do wasBlocked <- recordFailedAttempt username' ipAddress ;
               if wasBlocked then
                 ret (denied "Account temporarily locked due to suspicious activity")
               else ret (denied "Invalid username or password")
             else
               do _ <- clearFailedAttempts username' ipAddress ;
               do timestamp <- Date_now ;
               do intrusionCheck <- detectIntrusion (user_id u) "login_attempt"
                    (JObject [ ("ipAddress", JString ipAddress);
                               ("timestamp", JNumber timestamp) ]) ;
               if threat intrusionCheck && String.eqb (action intrusionCheck) "block_user"
               then ret (denied "Account temporarily suspended for security reasons")
               else
                 do lastActive' <- Date_now ;
                 do _ <- storage_updateUser (user_id u)
                      (mkUserUpdates None None (Some lastActive')) ;
                 do token' <- generateAuthToken (user_id u) ;
                 do _ <- SecureStore_setItemAsync "auth_token" token' ;
                 do _ <- SecureStore_setItemAsync "user_id" (pretty (user_id u)) ;
                 do _ <- createAuditTrail (user_id u) "user_login"
                      ("User " +:+ username' +:+ " logged in successfully") "low" ;
                 ret (mkAuthResult true (Some (account_view u)) (Some token')
                        (Some "Login successful"))
         end)
    (λ _, ret (denied "Login failed. Please try again.")).

End Services.

(** ** Descriptions used in the statements *)

(** The digest of a payload on which hashing does not throw. *)
Definition payload_hash (data' : JsValue) : string :=
  match generateTransactionHash data' with
  | Ok h => h
  | Throw _ => EmptyString
  end.

(** A text that a [varchar(n)] column takes. *)
Definition fits (n : nat) (s : string) : bool :=
  match varchar n s with
  | Some _ => true
  | None => false
  end.

Definition stored (n : nat) (s : string) : string := default s (varchar n s).

(** The ledger table of [w] takes the row: its integers fit, its type is
    within 50 characters, and neither the id it would get nor its hash is in
    the table. *)
Definition ledger_takes (insertTx : InsertBlockchainTransaction) (w : World) : bool :=
  let id := blockchain_transactions_id_seq w + 1 in
  int4_or_null (ins_blockNumber insertTx) && int4_or_null (ins_gasUsed insertTx) &&
  fits 50 (ins_txType insertTx) && int4 id &&
  bool_decide (id ∉ tx_id <$> blockchain_transactions w) &&
  bool_decide (ins_txHash insertTx ∉ txHash <$> blockchain_transactions w).

(** The security log of [w] takes the row: it names a user by a number
    that fits and that is the id of a row of the users table, its event type
    and risk level are within 50 and 20 characters, and the id it would get
    is free. *)
Definition log_takes (insertLog : InsertSecurityLog) (w : World) : bool :=
  let id := security_logs_id_seq w + 1 in
  match ins_userId insertLog with
  | None => false
  | Some userId =>
      int4 userId && fits 50 (ins_eventType insertLog) &&
      fits 20 (ins_riskLevel insertLog) && int4 id &&
      bool_decide (id ∉ log_id <$> security_logs w) &&
      bool_decide (userId ∈ user_id <$> users w)
  end.

(** The row [createSecurityTransaction] hands to the ledger when called in
    [w], and the row the ledger then holds. *)
Definition append_insert (platform : Platform) (eventType' : string) (data' : JsValue)
    (userId : option Z) (w : World) : InsertBlockchainTransaction :=
  let payload :=
    transaction_payload eventType' data' userId
      (clock platform (clock_reads w)) (currentBlockNumber w + 1) in
  mkInsertTx (payload_hash payload) eventType' (pretty <$> userId) payload
    (Some (currentBlockNumber w + 1))
    (Some (random_below_50000 platform (random_draws w) + 21000)) (Some true).

Definition appended_transaction (platform : Platform) (eventType' : string)
    (data' : JsValue) (userId : option Z) (w : World) : BlockchainTransaction :=
  let insertTx := append_insert platform eventType' data' userId w in
  mkTx (blockchain_transactions_id_seq w + 1) (ins_txHash insertTx)
    (stored 50 eventType') (pretty <$> userId) (db_jsonb platform (ins_data insertTx))
    (ins_blockNumber insertTx) (ins_gasUsed insertTx) true
    (clock platform (S (clock_reads w))).

Definition append_taken (platform : Platform) (eventType' : string) (data' : JsValue)
    (userId : option Z) (w : World) : bool :=
  ledger_takes (append_insert platform eventType' data' userId w) w.

(** The world [createSecurityTransaction] leaves when the ledger takes its
    row. *)
Definition after_append (platform : Platform) (eventType' : string)
    (data' : JsValue) (userId : option Z) (w : World) : World :=
  set_blockchain_transactions
    (blockchain_transactions w ++ [appended_transaction platform eventType' data' userId w])
    (set_blockchain_transactions_id_seq (blockchain_transactions_id_seq w + 1)
       (set_random_draws (S (random_draws w))
          (set_currentBlockNumber (currentBlockNumber w + 1)
             (set_clock_reads (S (S (clock_reads w))) w)))).

(** The ledger row and the log row of [createAuditTrail] called in [w]. *)
Definition audit_transaction (platform : Platform) (userId : Z)
    (eventType' description riskLevel' : string) (w : World) : BlockchainTransaction :=
  appended_transaction platform "security_audit"
    (audit_payload userId eventType' description riskLevel' (clock platform (clock_reads w)))
    (Some userId) (set_clock_reads (S (clock_reads w)) w).

Definition audit_insert (platform : Platform) (userId : Z)
    (eventType' description riskLevel' : string) (w : World) : InsertSecurityLog :=
  mkInsertLog (Some userId) eventType' description riskLevel'
    (Some (txHash (audit_transaction platform userId eventType' description riskLevel' w)))
    (Some (String.eqb riskLevel' "high" || String.eqb riskLevel' "critical")).

Definition audit_log (platform : Platform) (userId : Z)
    (eventType' description riskLevel' : string) (w : World) : SecurityLog :=
  mkLog (security_logs_id_seq w + 1) (Some userId) (stored 50 eventType') description
    (stored 20 riskLevel')
    (Some (txHash (audit_transaction platform userId eventType' description riskLevel' w)))
    (String.eqb riskLevel' "high" || String.eqb riskLevel' "critical")
    (clock platform (S (S (S (clock_reads w))))).

(** Both tables take the rows of [createAuditTrail] called in [w]. *)
Definition audit_taken (platform : Platform) (userId : Z)
    (eventType' description riskLevel' : string) (w : World) : bool :=
  append_taken platform "security_audit"
    (audit_payload userId eventType' description riskLevel' (clock platform (clock_reads w)))
    (Some userId) (set_clock_reads (S (clock_reads w)) w) &&
  log_takes (audit_insert platform userId eventType' description riskLevel' w) w.

Definition after_audit (platform : Platform) (userId : Z)
    (eventType' description riskLevel' : string) (w : World) : World :=
  set_security_logs
    (security_logs w ++ [audit_log platform userId eventType' description riskLevel' w])
    (set_security_logs_id_seq (security_logs_id_seq w + 1)
       (set_clock_reads (S (S (S (S (clock_reads w)))))
          (after_append platform "security_audit"
             (audit_payload userId eventType' description riskLevel'
                (clock platform (clock_reads w)))
             (Some userId) (set_clock_reads (S (clock_reads w)) w)))).

(** [n] calls of a method, one after the other: a call that throws leaves
    the state it reached, and the next call goes on from there. *)
Fixpoint repeat_call {A : Type} (n : nat) (m : M A) (w : World)
  : list (Result A) * World :=
  match n with
  | O => ([], w)
  | S n' =>
      let '(r, w1) := m w in
      let '(rs, w2) := repeat_call n' m w1 in
      (r :: rs, w2)
  end.

Definition thrown {A : Type} (r : Result A) : Prop := ∃ e, r = Throw e.

(** A batch of appends, one call after the other, that stops at the first
    one that throws. *)
Fixpoint append_all (platform : Platform) (calls : list (string * JsValue * option Z))
  : M (list string) :=
  match calls with
  | [] => ret []
  | (eventType', data', userId) :: rest =>
      do h <- createSecurityTransaction platform eventType' data' userId ;
      do hs <- append_all platform rest ;
      ret (h :: hs)
  end.

(** A run of appends, one call after the other, in which a call that
    throws leaves the state it reached and the next call goes on from
    there. *)
Fixpoint append_each (platform : Platform) (calls : list (string * JsValue * option Z))
    (w : World) : list (Result string) * World :=
  match calls with
  | [] => ([], w)
  | (eventType', data', userId) :: rest =>
      let '(r, w1) := createSecurityTransaction platform eventType' data' userId w in
      let '(rs, w2) := append_each platform rest w1 in
      (r :: rs, w2)
  end.

Definition returned {A : Type} (r : Result A) : Prop := ∃ v, r = Ok v.

(** The block numbers in the rows that a run of appends from counter [k]
    leaves behind: the i-th call, when it returned, stored k+i, and a call
    that threw stored nothing. *)
Fixpoint assigned_numbers {A : Type} (k : Z) (outcomes : list (Result A))
  : list (option Z) :=
  match outcomes with
  | [] => []
  | Ok _ :: rest => Some (k + 1) :: assigned_numbers (k + 1) rest
  | Throw _ :: rest => assigned_numbers (k + 1) rest
  end.

(** An event type of 51 characters, one more than the column tx_type
    holds. *)
Definition long_event_type : string :=
  "security_event_with_a_name_of_fifty_one_characters_".







(** The text that is hashed for the ledger entry of an audit record: the
    five top-level members in sorted order, and of the nested audit data
    the three members whose names are also top-level keys. *)
Definition json_member (key value : string) : string :=
  QuoteJSONString key +:+ ":" +:+ value.

Definition hashed_audit_text (userId : Z) (eventType' : string)
    (timestamp txTimestamp blockNumber' : Z) : string :=
  "{" +:+ join_comma
    [ json_member "blockNumber" (pretty blockNumber');
      json_member "data"
        ("{" +:+ join_comma
           [ json_member "eventType" (QuoteJSONString eventType');
             json_member "timestamp" (pretty timestamp);
             json_member "userId" (pretty userId) ] +:+ "}");
      json_member "eventType" (QuoteJSONString "security_audit");
      json_member "timestamp" (pretty txTimestamp);
      json_member "userId" (pretty userId) ] +:+ "}".

(** A row whose recomputed digest is not the hash it is stored under. *)
Definition digest_mismatch (row : BlockchainTransaction) : bool :=
  negb (String.eqb (payload_hash (data row)) (txHash row)).

Definition object_payload (row : BlockchainTransaction) : Prop :=
  ∃ props, data row = JObject props.

(** Two values that are equal up to the order in which the keys of their
    objects were inserted, at any depth. The keys of an object are
    distinct. *)
#[warnings="-register-all"]
Inductive key_reorder : JsValue → JsValue → Prop :=
| reorder_undefined : key_reorder JUndefined JUndefined
| reorder_null : key_reorder JNull JNull
| reorder_bool (b : bool) : key_reorder (JBool b) (JBool b)
| reorder_number (n : Z) : key_reorder (JNumber n) (JNumber n)
| reorder_string (s : string) : key_reorder (JString s) (JString s)
| reorder_array (xs ys : list JsValue) :
    Forall2 key_reorder xs ys → key_reorder (JArray xs) (JArray ys)
| reorder_object (ps ps' qs : list (string * JsValue)) :
    NoDup (ps.*1) → ps ≡ₚ ps' →
    Forall2 (λ p q, p.1 = q.1 ∧ key_reorder p.2 q.2) ps' qs →
    key_reorder (JObject ps) (JObject qs).

(** A key that is not there: unset, or set to the empty string. *)
Definition key_absent (key : option string) : Prop :=
  key = None ∨ key = Some EmptyString.

Definition ENCRYPTION_KEY_required : string :=
  "ENCRYPTION_KEY environment variable is required for secure operations".

Definition MASTER_ENCRYPTION_KEY_required : string :=
  "MASTER_ENCRYPTION_KEY environment variable is required for secure operations".

Definition hash_verification_failed : string :=
  "Transaction hash verification failed - potential tampering detected".

(** What the database throws when it refuses a statement. *)
Definition store_refusals : list string :=
  [ numeric_value_out_of_range; invalid_text_representation;
    string_data_right_truncation; sequence_generator_limit_exceeded;
    unique_violation; foreign_key_violation ].

(** A write to the ledger table that goes around the service: the payload
    of every row stored under [h] is replaced. *)
Definition overwrite_payload (h : string) (data' : JsValue) (w : World) : World :=
  set_blockchain_transactions
    ((λ row, if String.eqb (txHash row) h
             then mkTx (tx_id row) (txHash row) (txType row) (relatedEntityId row) data'
                    (blockNumber row) (gasUsed row) (isConfirmed row) (tx_createdAt row)
             else row) <$> blockchain_transactions w)
    w.

(** A sample platform for concrete runs: a clock that advances by one
    millisecond per reading from 1700000000000, constant random sources, an
    empty environment, stand-ins for the AES routines that show which key
    they were given, a password hash that is the password itself, a date
    printed as its number of milliseconds, and a database that keeps the
    payload it is handed and whose clock agrees with the clock of the
    process. *)
Definition sample_platform : Platform :=
  mkPlatform (λ n, 1700000000000 + Z.of_nat n) (λ _, 4242) (λ _, "0.4fzyo82mvyr")
    (λ _, None)
    (λ plain key, "aes[" +:+ key +:+ "](" +:+ plain +:+ ")")
    (λ cipher key, Ok ("plain[" +:+ key +:+ "](" +:+ cipher +:+ ")"))
    (λ _, "5f4dcc3b5aa765d61d8327deb882cf99") (λ _ password, password) String.eqb
    pretty (λ v, v) (λ n, 1700000000000 + Z.of_nat n).

(** Two appends on a fresh service, the first with that event type. *)
Definition refused_then_taken : list (Result string) * World :=
  append_each sample_platform
    [(long_event_type, JObject [], None); ("user_login", JObject [], None)]
    initial_world.

Definition with_database (keeps : JsValue -> JsValue) (p : Platform) : Platform :=
  mkPlatform (clock p) (random_below_50000 p) (Math_random_base36 p) (process_env p)
    (AES_encrypt p) (AES_decrypt_utf8 p) (WordArray_random p) (bcrypt_hash p)
    (bcrypt_compare p) (Date_toISOString p) keeps (database_now p).

Definition with_environment (env : string -> option string) (p : Platform) : Platform :=
  mkPlatform (clock p) (random_below_50000 p) (Math_random_base36 p) env
    (AES_encrypt p) (AES_decrypt_utf8 p) (WordArray_random p) (bcrypt_hash p)
    (bcrypt_compare p) (Date_toISOString p) (db_jsonb p) (database_now p).

(** The sample platform over a database that loses the payload it is
    handed and keeps an empty object. *)
Definition lossy_platform : Platform := with_database (λ _, JObject []) sample_platform.

(** The sample platform with both keys configured. *)
Definition keyed_platform : Platform :=
  with_environment
    (λ name, if String.eqb name "ENCRYPTION_KEY" then Some "k-data"
             else if String.eqb name "MASTER_ENCRYPTION_KEY" then Some "k-master"
             else None)
    sample_platform.

(** The same with, for the AES routines, stand-ins that undo each other:
    the text is passed through unchanged. *)
Definition transparent_platform : Platform :=
  mkPlatform (clock sample_platform) (random_below_50000 sample_platform)
    (Math_random_base36 sample_platform) (process_env keyed_platform)
    (λ plain _, plain) (λ cipher _, Ok cipher) (WordArray_random sample_platform)
    (bcrypt_hash sample_platform) (bcrypt_compare sample_platform)
    (Date_toISOString sample_platform) (db_jsonb sample_platform)
    (database_now sample_platform).

(** A fresh process over a database in which one user has registered:
    alice, with id 7. *)
Definition alice : User :=
  mkUser 7 "alice" "alice@example.org" "correct horse" (Some "alice") None (Some false)
    None None (Some 100) None 1600000000000 1600000000000.

Definition sample_world : World := set_users_id_seq 7 (set_users [alice] initial_world).

(** One audited login on the sample platform, the hash it returned, and
    the stored payload with the nested description and risk level
    rewritten. *)
Definition audited_login : World :=
  snd (createAuditTrail sample_platform 7 "user_login" "User alice logged in" "low"
         sample_world).

Definition audited_login_hash : string :=
  txHash (audit_transaction sample_platform 7 "user_login" "User alice logged in" "low"
            sample_world).

Definition rewritten_login_payload : JsValue :=
  transaction_payload "security_audit"
    (audit_payload 7 "user_login" "User mallory logged in" "critical" 1700000000000)
    (Some 7) 1700000000001 1.


(** One request to the application, and a run of requests in which a
    request that throws leaves the state it reached and the next one goes
    on from there. *)
Inductive Request : Type :=
| CallCreateSecurityTransaction (eventType' : string) (data' : JsValue) (userId : option Z)
| CallRegisterUserOnChain (userId : Z) (userData : JsValue)
| CallRecordMessageOnChain (messageId : string) (senderId recipientId : Z)
    (messageHash : string)
| CallCreateAuditTrail (userId : Z) (eventType' description riskLevel' : string)
| CallVerifyTransaction (h : string)
| CallValidateChainIntegrity
| CallBlockIP (ipAddress reason : string) (userId : option Z)
| CallCheckRateLimit (identifier ipAddress : string)
| CallRecordFailedAttempt (identifier ipAddress : string)
| CallClearFailedAttempts (identifier ipAddress : string)
| CallRecordSuspiciousActivity (userId : string + Z)
    (activityType description ipAddress : string)
| CallCheckPermissionSecurity (userId : Z) (permissionType : string) (context : JsValue)
| CallDetectIntrusion (userId : Z) (activity : string) (metadata : JsValue)
| CallCleanupSecurityData
| CallEmergencyLockdown (reason : string)
| CallUpdatePermission (userId : Z) (permissionType' : string) (isGranted' : bool)
| CallRegister (username' email' password ipAddress : string)
| CallLogin (username' password ipAddress : string).

Definition after_request (platform : Platform) (request : Request) (w : World) : World :=
  match request with
  | CallCreateSecurityTransaction e d u => snd (createSecurityTransaction platform e d u w)
  | CallRegisterUserOnChain u d => snd (registerUserOnChain platform u d w)
  | CallRecordMessageOnChain m s r h => snd (recordMessageOnChain platform m s r h w)
  | CallCreateAuditTrail u e d r => snd (createAuditTrail platform u e d r w)
  | CallVerifyTransaction h => snd (verifyTransaction platform h w)
  | CallValidateChainIntegrity => snd (validateChainIntegrity platform w)
  | CallBlockIP ip reason u => snd (blockIP platform ip reason u w)
  | CallCheckRateLimit i ip => snd (checkRateLimit platform i ip w)
  | CallRecordFailedAttempt i ip => snd (recordFailedAttempt platform i ip w)
  | CallClearFailedAttempts i ip => snd (clearFailedAttempts i ip w)
  | CallRecordSuspiciousActivity u a d ip =>
      snd (recordSuspiciousActivity platform u a d ip w)
  | CallCheckPermissionSecurity u p c => snd (checkPermissionSecurity platform u p c w)
  | CallDetectIntrusion u a m => snd (detectIntrusion platform u a m w)
  | CallCleanupSecurityData => snd (cleanupSecurityData platform w)
  | CallEmergencyLockdown reason => snd (emergencyLockdown platform reason w)
  | CallUpdatePermission u p g => snd (storage_updatePermission platform u p g w)
  | CallRegister u e p ip => snd (register platform u e p ip w)
  | CallLogin u p ip => snd (login platform u p ip w)
  end.

Definition after_requests (platform : Platform) (requests : list Request) (w : World)
  : World :=
  fold_left (λ w' request, after_request platform request w') requests w.

(** What a request may do to the durable part of the state: the block list
    only gains addresses; the ledger only gains rows at its end, each
    confirmed and stored under the digest of the object that was handed to
    the database, their block numbers rising from above the counter the run
    started with up to at most the counter it ends with; the security log
    only gains rows at its end, each flagged an anomaly exactly when its
    risk level is high or critical, and each that names a ledger hash names
    one that is in the ledger; the users table only gains rows at its end,
    with ids the sequence has handed out since, and keeps of every row what
    identifies the account. *)
Definition sealed (platform : Platform) (row : BlockchainTransaction) : Prop :=
  isConfirmed row = true ∧
  ∃ props, data row = db_jsonb platform (JObject props) ∧
           txHash row = payload_hash (JObject props).

Definition anomaly_flag_matches (l : SecurityLog) : Prop :=
  isAnomaly l = (String.eqb (riskLevel l) "high" || String.eqb (riskLevel l) "critical").

Definition backlink_resolves (rows : list BlockchainTransaction) (l : SecurityLog) : Prop :=
  ∀ h, blockchainHash l = Some h → ∃ row, row ∈ rows ∧ txHash row = h.

Fixpoint rising (k : Z) (numbers : list (option Z)) (k' : Z) : Prop :=
  match numbers with
  | [] => k <= k'
  | n :: rest => ∃ m, n = Some m ∧ k < m ∧ rising m rest k'
  end.

(** What identifies an account and decides a login. *)
Record Account : Type := mkAccount {
  account_id : Z;
  account_username : string;
  account_email : string;
  account_passwordHash : string;
  account_securityScore : option Z }.

Definition account (u : User) : Account :=
  mkAccount (user_id u) (username u) (email u) (passwordHash u) (securityScore u).

Record grows (platform : Platform) (w w' : World) : Prop := mkGrows {
  grows_blocked : blockedIPs w ⊆ blockedIPs w';
  grows_ledger : ∃ rows,
    blockchain_transactions w' = blockchain_transactions w ++ rows ∧
    rising (currentBlockNumber w) (blockNumber <$> rows) (currentBlockNumber w') ∧
    Forall (sealed platform) rows;
  grows_logs : ∃ logs,
    security_logs w' = security_logs w ++ logs ∧
    Forall anomaly_flag_matches logs ∧
    Forall (backlink_resolves (blockchain_transactions w')) logs;
  grows_users : ∃ added,
    account <$> users w' = (account <$> users w) ++ added ∧
    users_id_seq w <= users_id_seq w' ∧
    Forall (λ a, users_id_seq w < account_id a <= users_id_seq w') added }.

(** What an audit leaves alone: the firewall, the device store, the draws
    from the cryptographic random source, and the users and permissions
    tables. *)
Record quiet (w w' : World) : Prop := mkQuiet {
  quiet_blockedIPs : blockedIPs w' = blockedIPs w;
  quiet_suspiciousActivities : suspiciousActivities w' = suspiciousActivities w;
  quiet_rateLimits : rateLimits w' = rateLimits w;
  quiet_failedAttempts : failedAttempts w' = failedAttempts w;
  quiet_secure_store : secure_store w' = secure_store w;
  quiet_crypto_draws : crypto_draws w' = crypto_draws w;
  quiet_users : users w' = users w;
  quiet_users_id_seq : users_id_seq w' = users_id_seq w;
  quiet_permissions : permissions w' = permissions w;
  quiet_permissions_id_seq : permissions_id_seq w' = permissions_id_seq w }.

(** A method that keeps [grows] from every state. *)
Definition preserving {A : Type} (platform : Platform) (m : M A) : Prop :=
  ∀ w, grows platform w (snd (m w)).

(** [n] calls of [checkRateLimit], one after the other, up to the first
    that throws. *)
Fixpoint check_rate_limits (platform : Platform) (n : nat)
    (identifier ipAddress : string) : M (list bool) :=
  match n with
  | O => ret []
  | S n' =>
      do b <- checkRateLimit platform identifier ipAddress ;
      do bs <- check_rate_limits platform n' identifier ipAddress ;
      ret (b :: bs)
  end.

(** No row of the users table has id 0: an id comes from the sequence,
    which starts at 1. *)
Definition no_user_zero (w : World) : Prop := 0 ∉ user_id <$> users w.

(** A method that does not look at what [F] changes: run after [F] it
    gives the result it gives without, and leaves the state with [F]
    applied. *)
Definition commutes {A : Type} (F : World -> World) (m : M A) : Prop :=
  ∀ w, m (F w) = (fst (m w), F (snd (m w))).

(** The state with the two maps that the sweep touches replaced. *)
Definition with_maps (limits : gmap string RateLimit) (attempts : gmap string Z)
    (w : World) : World :=
  set_failedAttempts attempts (set_rateLimits limits w).

(** A method that keeps a relation between the state it starts from and
    the state it leaves, returning or throwing; and the relation of leaving
    a part of the state as it was. *)
Definition keeping {A : Type} (R : World -> World -> Prop) (m : M A) : Prop :=
  ∀ w, R w (snd (m w)).

Definition unchanged {B : Type} (part : World -> B) (w w' : World) : Prop :=
  part w' = part w.

(** The text that is hashed for the ledger entry of a message: of the
    nested message data only the time stamp is left, the one member whose
    name is also a top-level key. *)
Definition hashed_message_text (senderId timestamp txTimestamp blockNumber' : Z) : string :=
  "{" +:+ join_comma
    [ json_member "blockNumber" (pretty blockNumber');
      json_member "data" ("{" +:+ json_member "timestamp" (pretty timestamp) +:+ "}");
      json_member "eventType" (QuoteJSONString "message_sent");
      json_member "timestamp" (pretty txTimestamp);
      json_member "userId" (pretty senderId) ] +:+ "}".

(** A payload on which [Object.keys] throws. *)
Definition unreadable_payload (row : BlockchainTransaction) : bool :=
  match data row with
  | JUndefined | JNull => true
  | _ => false
  end.

(** A payload that is an object, as a test. *)
Definition has_object_payload (row : BlockchainTransaction) : bool :=
  match data row with
  | JObject _ => true
  | _ => false
  end.

(** The text that is hashed for the ledger entry of a registration: of the
    nested registration data the user id and the time stamp are left, the
    two members whose names are also top-level keys. *)
Definition hashed_registration_text (userId timestamp txTimestamp blockNumber' : Z)
  : string :=
  "{" +:+ join_comma
    [ json_member "blockNumber" (pretty blockNumber');
      json_member "data"
        ("{" +:+ join_comma [ json_member "timestamp" (pretty timestamp);
                              json_member "userId" (pretty userId) ] +:+ "}");
      json_member "eventType" (QuoteJSONString "user_registration");
      json_member "timestamp" (pretty txTimestamp);
      json_member "userId" (pretty userId) ] +:+ "}".

(** A value with every member removed, at any depth, whose name is not in
    [keys]. *)
Fixpoint prune (keys : list string) (v : JsValue) : JsValue :=
  match v with
  | JArray xs =>
      JArray ((fix elems (l : list JsValue) : list JsValue :=
                 match l with
                 | [] => []
                 | x :: l' => prune keys x :: elems l'
                 end) xs)
  | JObject props =>
      JObject ((fix each (l : list (string * JsValue)) : list (string * JsValue) :=
                  match l with
                  | [] => []
                  | (k, x) :: l' =>
                      if bool_decide (k ∈ keys) then (k, prune keys x) :: each l'
                      else each l'
                  end) props)
  | _ => v
  end.

(** The same below the top level only: the members of the value itself
    are all kept. *)
Definition prune_nested (v : JsValue) : JsValue :=
  match Object_keys v with
  | Ok keys => prune keys v
  | Throw _ => v
  end.

(** The log rows that [verifyTransaction] and [validateChainIntegrity]
    hand to the store for a row whose digest does not match. The user is
    read off the row's related entity, user 0 when it has none. *)
Definition tampering_log (h : string) (row : BlockchainTransaction) : InsertSecurityLog :=
  mkInsertLog (parseInt (default "0" (string_or (relatedEntityId row) None)))
    "blockchain_tampering_detected" ("Transaction hash verification failed for " +:+ h)
    "critical" None (Some true).

Definition violation_log (row : BlockchainTransaction) : InsertSecurityLog :=
  mkInsertLog (parseInt (default "0" (string_or (relatedEntityId row) None)))
    "blockchain_integrity_violation" ("Chain integrity violation: " +:+ txHash row)
    "critical" None (Some true).

(** The row the security log holds for an insert it has taken in [w]. *)
Definition logged (platform : Platform) (insertLog : InsertSecurityLog) (w : World)
  : SecurityLog :=
  mkLog (security_logs_id_seq w + 1) (ins_userId insertLog)
    (stored 50 (ins_eventType insertLog)) (ins_eventDescription insertLog)
    (stored 20 (ins_riskLevel insertLog)) (ins_blockchainHash insertLog)
    (default false (ins_isAnomaly insertLog)) (clock platform (clock_reads w)).

Definition after_log (platform : Platform) (insertLog : InsertSecurityLog) (w : World)
  : World :=
  set_security_logs (security_logs w ++ [logged platform insertLog w])
    (set_security_logs_id_seq (security_logs_id_seq w + 1)
       (set_clock_reads (S (clock_reads w)) w)).

(** The store takes every log row that the loop of
    [validateChainIntegrity] hands to it on its way through [rows], starting
    in [w]. *)
Fixpoint violations_taken (platform : Platform) (rows : list BlockchainTransaction)
    (w : World) : bool :=
  match rows with
  | [] => true
  | row :: rest =>
      if digest_mismatch row then
        log_takes (violation_log row) w &&
        violations_taken platform rest (after_log platform (violation_log row) w)
      else violations_taken platform rest w
  end.

(** A ledger written around the services, for concrete runs: an object
    payload stored under a hash that is not its digest, for alice or for a
    user the users table does not hold, and an older row whose payload is
    null. *)
Definition forged_row : BlockchainTransaction :=
  mkTx 2 "not-a-digest" "security_audit" (Some "7") (JObject [("userId", JNumber 7)])
    (Some 2) (Some 21000) true 1700000000020.

Definition orphan_row : BlockchainTransaction :=
  mkTx 3 "not-a-digest-either" "security_audit" None (JObject [("userId", JNumber 8)])
    (Some 3) (Some 21000) true 1700000000030.

Definition emptied_row : BlockchainTransaction :=
  mkTx 1 "emptied" "security_audit" (Some "7") JNull (Some 1) (Some 21000) true
    1700000000010.

Definition forged_ledger : World :=
  set_blockchain_transactions [forged_row] sample_world.

Definition orphan_ledger : World :=
  set_blockchain_transactions [forged_row; orphan_row] sample_world.

Definition emptied_ledger : World :=
  set_blockchain_transactions [emptied_row; forged_row] sample_world.

(** A fresh process in which the window of login from 9.9.9.9 has run out
    long ago, and the window of register from the same address is full and
    has not. *)
Definition stale_windows : World :=
  set_rateLimits
    (<[map_key "login" "9.9.9.9" := mkRateLimit 3 5]>
       {[ map_key "register" "9.9.9.9" := mkRateLimit 100 1700000060000 ]})
    initial_world.

(** A run of calls, one after the other, in which a call that throws
    leaves the state it reached and the next call goes on from there. *)
Fixpoint run_each {A : Type} (calls : list (M A)) (w : World)
  : list (Result A) * World :=
  match calls with
  | [] => ([], w)
  | call :: rest =>
      let '(r, w1) := call w in
      let '(rs, w2) := run_each rest w1 in
      (r :: rs, w2)
  end.

(** How many of the attempts, pairs of an identifier and an address, fall
    under a key of the counter map. *)
Definition attempts_under (key : string) (attempts : list (string * string)) : Z :=
  Z.of_nat (length (filter (λ a, map_key a.1 a.2 = key) attempts)).



(** * Properties *)

Example round_constants_from_primes : SHA256.K = SHA256.cube_root_bits <$> SHA256.primes.
Proof. vm_compute. reflexivity. Qed.

(** The digest on the test vectors of FIPS 180-4: the empty message, one
    block, two blocks. *)
Example sha256_test_vectors :
  SHA256.hash_hex EmptyString =
    "e3b0c44298fc1c149afbf4c8996fb92427ae41e4649b934ca495991b7852b855" ∧
  SHA256.hash_hex "abc" =
    "ba7816bf8f01cfea414140de5dae2223b00361a396177a9cb410ff61f20015ad" ∧
  SHA256.hash_hex "abcdbcdecdefdefgefghfghighijhijkijkljklmklmnlmnomnopnopq" =
    "248d6a61d20638b8e5c026930c3e6039a33ce45964ff2167f6ecedd419db06c1".
Proof. vm_compute. repeat split. Qed.

(** [JSON.stringify] with the sorted top-level keys as replacer, on an
    object with a nested object and an array: members come in the order of
    the sorted list at both depths, the nested key [z] is dropped, the
    [undefined] array element becomes [null]. *)
Example canonical_string_sample :
  canonical_string
    (JObject [ ("b", JNumber 1);
               ("a", JObject [("z", JNumber 3); ("b", JString "q"); ("a", JNumber (-5))]);
               ("c", JArray [JUndefined; JObject [("d", JNull); ("a", JBool true)]]) ]) =
  Ok ("{" +:+ join_comma
        [ json_member "a" ("{" +:+ join_comma [json_member "a" "-5";
                                              json_member "b" (QuoteJSONString "q")] +:+ "}");
          json_member "b" "1";
          json_member "c" ("[null,{" +:+ json_member "a" "true" +:+ "}]") ] +:+ "}").
Proof. vm_compute. reflexivity. Qed.

Section KeyOrder.

(** Induction on a value with the hypothesis for every element of an array
    and every property value of an object. *)
Lemma JsValue_nested_ind (P : JsValue → Prop) :
  P JUndefined → P JNull → (∀ b, P (JBool b)) → (∀ n, P (JNumber n)) →
  (∀ s, P (JString s)) →
  (∀ xs, Forall P xs → P (JArray xs)) →
  (∀ props, Forall (λ kv, P kv.2) props → P (JObject props)) →
  ∀ v, P v.
Proof.
  intros Hu Hn Hb Hz Hs Ha Ho. fix IH 1.
  intros [| |b|n|s|xs|props];
    [exact Hu | exact Hn | apply Hb | apply Hz | apply Hs | |].
  - apply Ha. induction xs as [|x xs IHxs]; constructor; [apply IH | exact IHxs].
  - apply Ho. induction props as [|[k x] props IHps]; constructor; [apply IH | exact IHps].
Qed.

Lemma ascii_compare_lt (a b : ascii) :
  Ascii.compare a b = Lt ↔ (N_of_ascii a < N_of_ascii b)%N.
Proof. unfold Ascii.compare. apply N.compare_lt_iff. Qed.

Lemma ascii_compare_gt (a b : ascii) :
  Ascii.compare a b = Gt ↔ (N_of_ascii b < N_of_ascii a)%N.
Proof. unfold Ascii.compare. apply N.compare_gt_iff. Qed.

Lemma string_compare_not_gt_trans (s1 s2 s3 : string) :
  String.compare s1 s2 ≠ Gt → String.compare s2 s3 ≠ Gt → String.compare s1 s3 ≠ Gt.
Proof.
  revert s2 s3. induction s1 as [|c1 s1 IH]; intros [|c2 s2] [|c3 s3]; cbn;
    try congruence.
  destruct (Ascii.compare c1 c2) eqn:H12; [| |congruence];
    destruct (Ascii.compare c2 c3) eqn:H23; try congruence.
  - apply Ascii.compare_eq_iff in H12. apply Ascii.compare_eq_iff in H23. subst.
    assert (Ascii.compare c3 c3 = Eq) as -> by (unfold Ascii.compare; apply N.compare_refl).
    apply IH.
  - apply Ascii.compare_eq_iff in H12. subst. rewrite H23. congruence.
  - apply Ascii.compare_eq_iff in H23. subst. rewrite H12. congruence.
  - pose proof (proj1 (ascii_compare_lt _ _) H12).
    pose proof (proj1 (ascii_compare_lt _ _) H23).
    assert (Ascii.compare c1 c3 = Lt) as -> by (apply ascii_compare_lt; lia).
    congruence.
Qed.

Lemma string_le_not_gt (s1 s2 : string) :
  string_le s1 s2 ↔ String.compare s1 s2 ≠ Gt.
Proof.
  unfold string_le, String.leb. destruct (String.compare s1 s2); split; congruence.
Qed.

#[local] Instance string_le_trans : Transitive string_le.
Proof.
  intros s1 s2 s3. rewrite !string_le_not_gt. apply string_compare_not_gt_trans.
Qed.

#[local] Instance string_le_antisym : AntiSymm (=) string_le.
Proof. intros s1 s2. apply String.leb_antisym. Qed.

#[local] Instance string_le_total : Total string_le.
Proof. intros s1 s2. apply String.leb_total. Qed.

(** [sort()] returns the same array for every arrangement of the same
    keys. *)
Lemma Array_sort_permutation (l1 l2 : list string) :
  l1 ≡ₚ l2 → Array_sort l1 = Array_sort l2.
Proof.
  intros Hperm. unfold Array_sort.
  apply (Sorted_unique string_le); try apply Sorted_merge_sort; try apply _.
  rewrite !merge_sort_Permutation. exact Hperm.
Qed.

Lemma assoc_get_list_to_map {A : Type} (k : string) (ps : list (string * A)) :
  assoc_get k ps = (list_to_map ps : gmap string A) !! k.
Proof.
  induction ps as [|[k' v] ps IH]; [reflexivity|].
  cbn [assoc_get]. rewrite list_to_map_cons.
  destruct (String.eqb_spec k k') as [->|Hne].
  - rewrite lookup_insert_eq. reflexivity.
  - rewrite lookup_insert_ne by congruence. exact IH.
Qed.

Lemma assoc_get_permutation {A : Type} (k : string) (ps ps' : list (string * A)) :
  NoDup (ps.*1) → ps ≡ₚ ps' → assoc_get k ps = assoc_get k ps'.
Proof.
  intros Hnodup Hperm. rewrite !assoc_get_list_to_map.
  rewrite (list_to_map_proper ps ps' Hnodup Hperm). reflexivity.
Qed.

Lemma SerializeJSONProperty_array (plist : list string) (xs : list JsValue) :
  SerializeJSONProperty plist (JArray xs) =
  Some ("[" +:+ join_comma
          ((λ x, default "null" (SerializeJSONProperty plist x)) <$> xs) +:+ "]").
Proof.
  reflexivity.
Qed.

Lemma SerializeJSONProperty_object (plist : list string) (props : list (string * JsValue)) :
  SerializeJSONProperty plist (JObject props) =
  Some ("{" +:+ join_comma
          (object_members plist
             ((λ kv, (kv.1, SerializeJSONProperty plist kv.2)) <$> props)) +:+ "}").
Proof.
  cbn [SerializeJSONProperty].
  match goal with
  | |- Some (_ +:+ join_comma (object_members _ ?l) +:+ _) = _ =>
      assert (l = (λ kv, (kv.1, SerializeJSONProperty plist kv.2)) <$> props) as ->;
        [|reflexivity]
  end.
  induction props as [|[k x] props IH]; [reflexivity|].
  cbn [fmap list_fmap fst snd]. rewrite IH. reflexivity.
Qed.

(** The members written for an object depend on its properties only
    through the lookups made for the keys of the property list. *)
Lemma object_members_lookup (plist : list string)
    (sprops sprops' : list (string * option string)) :
  (∀ k, assoc_get k sprops = assoc_get k sprops') →
  object_members plist sprops = object_members plist sprops'.
Proof.
  intros Hget. induction plist as [|P plist IH]; [reflexivity|].
  cbn [object_members]. rewrite Hget, IH. reflexivity.
Qed.

Lemma SerializeJSONProperty_key_reorder (plist : list string) (a : JsValue) :
  ∀ b, key_reorder a b → SerializeJSONProperty plist a = SerializeJSONProperty plist b.
Proof.
  induction a as [| |b0|n|s|xs IHxs|ps IHps] using JsValue_nested_ind;
    intros b Hab; inversion Hab; subst; try reflexivity.
  - match goal with H : Forall2 key_reorder xs ?ys |- _ =>
      rename H into Hall;
      rewrite (SerializeJSONProperty_array plist xs), (SerializeJSONProperty_array plist ys);
      assert ((λ x, default "null" (SerializeJSONProperty plist x)) <$> xs =
              (λ x, default "null" (SerializeJSONProperty plist x)) <$> ys) as ->;
        [|reflexivity]
    end.
    clear Hab. induction Hall as [|x y xs ys Hxy Hrest IH]; [reflexivity|].
    apply Forall_cons in IHxs as [Hx Hxs].
    cbn [fmap list_fmap]. rewrite (Hx y Hxy), (IH Hxs). reflexivity.
  - match goal with |- _ = SerializeJSONProperty plist (JObject ?qs) =>
      rewrite (SerializeJSONProperty_object plist ps), (SerializeJSONProperty_object plist qs)
    end.
    f_equal. f_equal. f_equal. f_equal.
    apply object_members_lookup. intros k.
    match goal with
    | Hn : NoDup (ps.*1), Hp : ps ≡ₚ ?ps', Hf : Forall2 _ ?ps' ?qs |- _ =>
        rename Hn into Hnodup; rename Hp into Hperm; rename Hf into Hall
    end.
    transitivity (assoc_get k ((λ kv, (kv.1, SerializeJSONProperty plist kv.2)) <$> ps')).
    + apply assoc_get_permutation.
      * rewrite <- list_fmap_compose.
        replace (fst ∘ (λ kv : string * JsValue, (kv.1, SerializeJSONProperty plist kv.2)))
          with (@fst string JsValue) by reflexivity.
        exact Hnodup.
      * apply fmap_Permutation. exact Hperm.
    + rewrite Hperm in IHps. clear Hperm Hnodup Hab.
      induction Hall as [|[k1 v1] [k2 v2] ps1 qs1 [Hk Hv] Hrest IH]; [reflexivity|].
      cbn [fst snd] in Hk, Hv. subst k2.
      apply Forall_cons in IHps as [Hhead Htail]. cbn [snd] in Hhead.
      cbn [fmap list_fmap assoc_get fst snd].
      rewrite (Hhead v2 Hv), (IH Htail). reflexivity.
Qed.

(** Independence of key order. Payloads that are equal up to the order of
    their keys, at any depth, have the same canonical text and the same
    hash; and the hash is a function of the payload, so repeated calls
    agree. *)
Lemma hash_key_order_independent (a b : JsValue) :
  key_reorder a b →
  canonical_string a = canonical_string b ∧
  generateTransactionHash a = generateTransactionHash b.
Proof.
  intros Hab.
  assert (Hcanon : canonical_string a = canonical_string b).
  { unfold canonical_string, JSON_stringify.
    assert (Hkeys : match Object_keys a, Object_keys b with
                    | Ok ka, Ok kb => Array_sort ka = Array_sort kb
                    | Throw ea, Throw eb => ea = eb
                    | _, _ => False
                    end).
    { inversion Hab; subst; cbn [Object_keys]; try reflexivity.
      - match goal with H : Forall2 key_reorder _ _ |- _ =>
          rewrite (Forall2_length _ _ _ H) end. reflexivity.
      - apply Array_sort_permutation.
        match goal with
        | Hp : _ ≡ₚ ?ps', Hf : Forall2 _ ?ps' ?qs |- _ =>
            transitivity (ps'.*1); [apply fmap_Permutation; exact Hp|];
            assert (ps'.*1 = qs.*1) as ->; [|reflexivity];
            clear -Hf; induction Hf as [|p q ? ? [Hk _] _ IH];
            [reflexivity | cbn [fmap list_fmap]; rewrite Hk, IH; reflexivity]
        end. }
    destruct (Object_keys a) as [ka|ea], (Object_keys b) as [kb|eb];
      try contradiction; [|congruence].
    rewrite Hkeys, (SerializeJSONProperty_key_reorder _ a b Hab). reflexivity. }
  split; [exact Hcanon|]. unfold generateTransactionHash. rewrite Hcanon. reflexivity.
Qed.

End KeyOrder.

(** Projections of an updated state. *)
Ltac simpl_world :=
  cbn [clock_reads random_draws crypto_draws currentBlockNumber blockedIPs
       suspiciousActivities rateLimits failedAttempts secure_store users users_id_seq
       permissions permissions_id_seq blockchain_transactions
       blockchain_transactions_id_seq security_logs security_logs_id_seq
       set_clock_reads set_random_draws set_crypto_draws set_currentBlockNumber
       set_blockedIPs set_suspiciousActivities set_rateLimits set_failedAttempts
       set_secure_store set_users set_users_id_seq set_permissions
       set_permissions_id_seq set_blockchain_transactions
       set_blockchain_transactions_id_seq set_security_logs set_security_logs_id_seq].

Ltac simpl_world_in H :=
  cbn [clock_reads random_draws crypto_draws currentBlockNumber blockedIPs
       suspiciousActivities rateLimits failedAttempts secure_store users users_id_seq
       permissions permissions_id_seq blockchain_transactions
       blockchain_transactions_id_seq security_logs security_logs_id_seq
       set_clock_reads set_random_draws set_crypto_draws set_currentBlockNumber
       set_blockedIPs set_suspiciousActivities set_rateLimits set_failedAttempts
       set_secure_store set_users set_users_id_seq set_permissions
       set_permissions_id_seq set_blockchain_transactions
       set_blockchain_transactions_id_seq set_security_logs set_security_logs_id_seq] in H.

Section Store.

Context (platform : Platform).

Lemma fits_stored (n : nat) (s : string) : fits n s = true → varchar n s = Some (stored n s).
Proof. unfold fits, stored. destruct (varchar n s); [reflexivity | discriminate]. Qed.

Lemma fits_false (n : nat) (s : string) : fits n s = false → varchar n s = None.
Proof. unfold fits. destruct (varchar n s); [discriminate | reflexivity]. Qed.

(** The ledger insert, taken and refused. *)
Lemma storage_createBlockchainTransaction_taken (insertTx : InsertBlockchainTransaction)
    (w : World) :
  ledger_takes insertTx w = true →
  storage_createBlockchainTransaction platform insertTx w =
  let row :=
    mkTx (blockchain_transactions_id_seq w + 1) (ins_txHash insertTx)
      (stored 50 (ins_txType insertTx)) (ins_relatedEntityId insertTx)
      (db_jsonb platform (ins_data insertTx)) (ins_blockNumber insertTx)
      (ins_gasUsed insertTx) (default false (ins_isConfirmed insertTx))
      (clock platform (clock_reads w)) in
  (Ok row,
   set_blockchain_transactions (blockchain_transactions w ++ [row])
     (set_blockchain_transactions_id_seq (blockchain_transactions_id_seq w + 1)
        (set_clock_reads (S (clock_reads w)) w))).
Proof.
  unfold ledger_takes. intros H.
  apply andb_prop in H as [H Hhash]. apply andb_prop in H as [H Hid].
  apply andb_prop in H as [H Hint]. apply andb_prop in H as [Hparams Hfit].
  apply bool_decide_eq_true in Hhash, Hid.
  cbv beta iota zeta delta
    [storage_createBlockchainTransaction bind Date_now nextval gets modify ret throw].
  rewrite Hparams. cbn [negb]. rewrite (fits_stored _ _ Hfit). simpl_world.
  rewrite Hint. simpl_world.
  rewrite (bool_decide_eq_false_2 _ Hid), (bool_decide_eq_false_2 _ Hhash).
  reflexivity.
Qed.

Lemma storage_createBlockchainTransaction_refused (insertTx : InsertBlockchainTransaction)
    (w : World) :
  ledger_takes insertTx w = false →
  ∃ e seq',
    storage_createBlockchainTransaction platform insertTx w =
    (Throw e, set_blockchain_transactions_id_seq seq' (set_clock_reads (S (clock_reads w)) w)) ∧
    e ∈ store_refusals.
Proof.
  unfold ledger_takes. intros H.
  cbv beta iota zeta delta
    [storage_createBlockchainTransaction bind Date_now nextval gets modify ret throw].
  destruct (int4_or_null (ins_blockNumber insertTx) && int4_or_null (ins_gasUsed insertTx));
    cbn [negb andb] in H |- *.
  2:{ exists numeric_value_out_of_range, (blockchain_transactions_id_seq w).
      split; [reflexivity | unfold store_refusals; repeat constructor]. }
  destruct (fits 50 (ins_txType insertTx)) eqn:Hfit; cbn [andb] in H.
  2:{ rewrite (fits_false _ _ Hfit).
      exists string_data_right_truncation, (blockchain_transactions_id_seq w).
      split; [reflexivity | unfold store_refusals; repeat constructor]. }
  rewrite (fits_stored _ _ Hfit). simpl_world.
  destruct (int4 (blockchain_transactions_id_seq w + 1)); cbn [negb andb] in H |- *.
  2:{ exists sequence_generator_limit_exceeded, (blockchain_transactions_id_seq w).
      split; [reflexivity | unfold store_refusals; repeat constructor]. }
  simpl_world.
  exists unique_violation, (blockchain_transactions_id_seq w + 1).
  split; [|unfold store_refusals; repeat constructor].
  destruct (decide (blockchain_transactions_id_seq w + 1 ∈ tx_id <$> blockchain_transactions w))
    as [Hid|Hid].
  - rewrite (bool_decide_eq_true_2 _ Hid). reflexivity.
  - rewrite (bool_decide_eq_false_2 _ Hid).
    rewrite (bool_decide_eq_true_2 _ Hid) in H. cbn [andb] in H.
    apply bool_decide_eq_false in H.
    destruct (decide (ins_txHash insertTx ∈ txHash <$> blockchain_transactions w))
      as [Hh|Hh]; [|contradiction].
    rewrite (bool_decide_eq_true_2 _ Hh). reflexivity.
Qed.

(** The log insert, taken and refused. *)
Lemma storage_createSecurityLog_taken (insertLog : InsertSecurityLog) (w : World) :
  log_takes insertLog w = true →
  storage_createSecurityLog platform insertLog w =
  let log :=
    mkLog (security_logs_id_seq w + 1) (ins_userId insertLog)
      (stored 50 (ins_eventType insertLog)) (ins_eventDescription insertLog)
      (stored 20 (ins_riskLevel insertLog)) (ins_blockchainHash insertLog)
      (default false (ins_isAnomaly insertLog)) (clock platform (clock_reads w)) in
  (Ok log,
   set_security_logs (security_logs w ++ [log])
     (set_security_logs_id_seq (security_logs_id_seq w + 1)
        (set_clock_reads (S (clock_reads w)) w))).
Proof.
  unfold log_takes. intros H.
  cbv beta iota zeta delta
    [storage_createSecurityLog bind Date_now nextval gets modify ret throw].
  destruct (ins_userId insertLog) as [userId|]; [|discriminate].
  apply andb_prop in H as [H Huser]. apply andb_prop in H as [H Hid].
  apply andb_prop in H as [H Hint]. apply andb_prop in H as [H Hrisk].
  apply andb_prop in H as [Hparam Hevent].
  apply bool_decide_eq_true in Hid.
  rewrite Hparam. cbn [negb].
  rewrite (fits_stored _ _ Hevent), (fits_stored _ _ Hrisk). simpl_world.
  rewrite Hint. simpl_world.
  rewrite (bool_decide_eq_false_2 _ Hid), Huser. reflexivity.
Qed.

Lemma storage_createSecurityLog_refused (insertLog : InsertSecurityLog) (w : World) :
  log_takes insertLog w = false →
  ∃ e seq',
    storage_createSecurityLog platform insertLog w =
    (Throw e, set_security_logs_id_seq seq' (set_clock_reads (S (clock_reads w)) w)) ∧
    e ∈ store_refusals.
Proof.
  unfold log_takes. intros H.
  cbv beta iota zeta delta
    [storage_createSecurityLog bind Date_now nextval gets modify ret throw].
  destruct (ins_userId insertLog) as [userId|].
  2:{ exists invalid_text_representation, (security_logs_id_seq w).
      split; [reflexivity | unfold store_refusals; repeat constructor]. }
  destruct (int4 userId); cbn [negb andb] in H |- *.
  2:{ exists numeric_value_out_of_range, (security_logs_id_seq w).
      split; [reflexivity | unfold store_refusals; repeat constructor]. }
  destruct (fits 50 (ins_eventType insertLog)) eqn:Hevent; cbn [andb] in H.
  2:{ rewrite (fits_false _ _ Hevent).
      exists string_data_right_truncation, (security_logs_id_seq w).
      split; [reflexivity | unfold store_refusals; repeat constructor]. }
  rewrite (fits_stored _ _ Hevent).
  destruct (fits 20 (ins_riskLevel insertLog)) eqn:Hrisk; cbn [andb] in H.
  2:{ rewrite (fits_false _ _ Hrisk).
      exists string_data_right_truncation, (security_logs_id_seq w).
      split; [reflexivity | unfold store_refusals; repeat constructor]. }
  rewrite (fits_stored _ _ Hrisk). simpl_world.
  destruct (int4 (security_logs_id_seq w + 1)); cbn [negb andb] in H |- *.
  2:{ exists sequence_generator_limit_exceeded, (security_logs_id_seq w).
      split; [reflexivity | unfold store_refusals; repeat constructor]. }
  simpl_world.
  destruct (decide (security_logs_id_seq w + 1 ∈ log_id <$> security_logs w)) as [Hid|Hid].
  { rewrite (bool_decide_eq_true_2 _ Hid).
    exists unique_violation, (security_logs_id_seq w + 1).
    split; [reflexivity | unfold store_refusals; repeat constructor]. }
  rewrite (bool_decide_eq_false_2 _ Hid).
  rewrite (bool_decide_eq_true_2 _ Hid) in H. cbn [andb] in H. rewrite H. cbn [negb].
  exists foreign_key_violation, (security_logs_id_seq w + 1).
  split; [reflexivity | unfold store_refusals; repeat constructor].
Qed.

(** A log row for a user that is not in the users table is refused. *)
Lemma log_takes_user (insertLog : InsertSecurityLog) (w : World) :
  log_takes insertLog w = true →
  ∃ userId, ins_userId insertLog = Some userId ∧ userId ∈ user_id <$> users w.
Proof.
  unfold log_takes. destruct (ins_userId insertLog) as [userId|]; [|discriminate].
  intros H. apply andb_prop in H as [_ H]. apply bool_decide_eq_true in H. eauto.
Qed.

Lemma canonical_string_object (props : list (string * JsValue)) :
  ∃ dataString, canonical_string (JObject props) = Ok dataString.
Proof.
  unfold canonical_string, JSON_stringify. cbn [Object_keys SerializeJSONProperty].
  eexists. reflexivity.
Qed.

Lemma generateTransactionHash_object (props : list (string * JsValue)) :
  generateTransactionHash (JObject props) = Ok (payload_hash (JObject props)).
Proof.
  unfold payload_hash, generateTransactionHash.
  destruct (canonical_string_object props) as [s ->]. reflexivity.
Qed.

Lemma generateTransactionHash_payload (eventType' : string) (data' : JsValue)
    (userId : option Z) (timestamp blockNumber' : Z) :
  generateTransactionHash (transaction_payload eventType' data' userId timestamp blockNumber')
  = Ok (payload_hash (transaction_payload eventType' data' userId timestamp blockNumber')).
Proof. apply generateTransactionHash_object. Qed.

(** [createSecurityTransaction] up to the insert: the time stamp is read,
    the digest taken, the counter raised and the gas drawn; what the call
    returns is what the insert makes of it, the second digest being the
    first. *)
Lemma createSecurityTransaction_insert (eventType' : string) (data' : JsValue)
    (userId : option Z) (w : World) :
  createSecurityTransaction platform eventType' data' userId w =
  match storage_createBlockchainTransaction platform
          (append_insert platform eventType' data' userId w)
          (set_random_draws (S (random_draws w))
             (set_currentBlockNumber (currentBlockNumber w + 1)
                (set_clock_reads (S (clock_reads w)) w))) with
  | (Ok _, w') => (Ok (ins_txHash (append_insert platform eventType' data' userId w)), w')
  | (Throw e, w') => (Throw e, w')
  end.
Proof.
  unfold createSecurityTransaction.
  unfold bind at 1. unfold Date_now at 1.
  unfold bind at 1. unfold gets at 1. simpl_world.
  unfold bind at 1. rewrite generateTransactionHash_payload. unfold lift at 1.
  unfold bind at 1. unfold modify at 1.
  unfold bind at 1. unfold gets at 1. simpl_world.
  unfold bind at 1. unfold Math_random_50000 at 1. simpl_world.
  unfold bind at 1. unfold append_insert. cbn [ins_txHash].
  match goal with
  | |- context [storage_createBlockchainTransaction platform ?row ?st] =>
      destruct (storage_createBlockchainTransaction platform row st) as [[row'|e] w']
  end; [|reflexivity].
  unfold bind at 1. unfold lift at 1. rewrite String.eqb_refl. reflexivity.
Qed.

Lemma createSecurityTransaction_taken (eventType' : string) (data' : JsValue)
    (userId : option Z) (w : World) :
  append_taken platform eventType' data' userId w = true →
  createSecurityTransaction platform eventType' data' userId w =
  (Ok (txHash (appended_transaction platform eventType' data' userId w)),
   after_append platform eventType' data' userId w).
Proof.
  intros H. rewrite createSecurityTransaction_insert.
  rewrite storage_createBlockchainTransaction_taken by exact H.
  reflexivity.
Qed.

Lemma createSecurityTransaction_refused (eventType' : string) (data' : JsValue)
    (userId : option Z) (w : World) :
  append_taken platform eventType' data' userId w = false →
  ∃ e seq',
    createSecurityTransaction platform eventType' data' userId w =
    (Throw e,
     set_blockchain_transactions_id_seq seq'
       (set_random_draws (S (random_draws w))
          (set_currentBlockNumber (currentBlockNumber w + 1)
             (set_clock_reads (S (S (clock_reads w))) w)))) ∧
    e ∈ store_refusals.
Proof.
  intros H. rewrite createSecurityTransaction_insert.
  destruct (storage_createBlockchainTransaction_refused
              (append_insert platform eventType' data' userId w)
              (set_random_draws (S (random_draws w))
                 (set_currentBlockNumber (currentBlockNumber w + 1)
                    (set_clock_reads (S (clock_reads w)) w))))
    as (e & seq' & -> & He); [exact H|].
  exists e, seq'. split; [reflexivity | exact He].
Qed.

End Store.

Section Audit.

Context (platform : Platform).

Lemma quiet_refl (w : World) : quiet w w.
Proof. split; reflexivity. Qed.

Lemma quiet_trans (w1 w2 w3 : World) : quiet w1 w2 → quiet w2 w3 → quiet w1 w3.
Proof. intros [] []. split; congruence. Qed.

(** The log insert of an audit looks at the users table and at the log,
    which the append before it has not touched. *)
Lemma log_takes_after_append (insertLog : InsertSecurityLog) (eventType' : string)
    (data' : JsValue) (userId : option Z) (n : nat) (w : World) :
  log_takes insertLog (after_append platform eventType' data' userId (set_clock_reads n w)) =
  log_takes insertLog w.
Proof. reflexivity. Qed.

Lemma createAuditTrail_taken (userId : Z) (eventType' description riskLevel' : string)
    (w : World) :
  audit_taken platform userId eventType' description riskLevel' w = true →
  createAuditTrail platform userId eventType' description riskLevel' w =
  (Ok (txHash (audit_transaction platform userId eventType' description riskLevel' w)),
   after_audit platform userId eventType' description riskLevel' w).
Proof.
  unfold audit_taken. intros H. apply andb_prop in H as [Happend Hlog].
  unfold createAuditTrail. unfold bind at 1. unfold Date_now at 1.
  unfold bind at 1. rewrite createSecurityTransaction_taken by exact Happend.
  unfold bind at 1.
  rewrite storage_createSecurityLog_taken
    by (rewrite log_takes_after_append; exact Hlog).
  reflexivity.
Qed.

(** A refused audit: the call throws what the store threw. Nothing but
    the clock, the random source, the block counter and the id sequences has
    moved, except that the ledger holds the row when it was the log that
    refused. *)
Lemma createAuditTrail_refused (userId : Z) (eventType' description riskLevel' : string)
    (w : World) :
  audit_taken platform userId eventType' description riskLevel' w = false →
  ∃ e w',
    createAuditTrail platform userId eventType' description riskLevel' w = (Throw e, w') ∧
    e ∈ store_refusals ∧
    quiet w w' ∧
    security_logs w' = security_logs w ∧
    currentBlockNumber w' = currentBlockNumber w + 1 ∧
    (blockchain_transactions w' = blockchain_transactions w ∨
     blockchain_transactions w' =
       blockchain_transactions w ++
       [audit_transaction platform userId eventType' description riskLevel' w]).
Proof.
  unfold audit_taken. intros H.
  unfold createAuditTrail. unfold bind at 1. unfold Date_now at 1. unfold bind at 1.
  destruct (append_taken platform "security_audit"
              (audit_payload userId eventType' description riskLevel'
                 (clock platform (clock_reads w)))
              (Some userId) (set_clock_reads (S (clock_reads w)) w)) eqn:Happend.
  - cbn [andb] in H.
    rewrite createSecurityTransaction_taken by exact Happend.
    unfold bind at 1.
    destruct (storage_createSecurityLog_refused platform
                (audit_insert platform userId eventType' description riskLevel' w)
                (after_append platform "security_audit"
                   (audit_payload userId eventType' description riskLevel'
                      (clock platform (clock_reads w)))
                   (Some userId) (set_clock_reads (S (clock_reads w)) w)))
      as (e & seq' & Hrun & He).
    { rewrite log_takes_after_append. exact H. }
    unfold audit_insert, audit_transaction in Hrun. rewrite Hrun.
    exists e. eexists. split; [reflexivity|]. split; [exact He|].
    split; [split; reflexivity|]. split; [reflexivity|]. split; [reflexivity|].
    right. reflexivity.
  - destruct (createSecurityTransaction_refused platform "security_audit"
                (audit_payload userId eventType' description riskLevel'
                   (clock platform (clock_reads w)))
                (Some userId) (set_clock_reads (S (clock_reads w)) w) Happend)
      as (e & seq' & -> & He).
    exists e. eexists. split; [reflexivity|]. split; [exact He|].
    split; [split; reflexivity|]. split; [reflexivity|]. split; [reflexivity|].
    left. reflexivity.
Qed.

(** An audit for a user that has no row in the users table throws. *)
Lemma audit_taken_user (userId : Z) (eventType' description riskLevel' : string)
    (w : World) :
  audit_taken platform userId eventType' description riskLevel' w = true →
  userId ∈ user_id <$> users w.
Proof.
  unfold audit_taken. intros H. apply andb_prop in H as [_ H].
  apply log_takes_user in H as (u & Hu & Hin). cbn [audit_insert ins_userId] in Hu.
  injection Hu as <-. exact Hin.
Qed.

Lemma audit_refused_unknown_user (userId : Z) (eventType' description riskLevel' : string)
    (w : World) :
  userId ∉ user_id <$> users w →
  audit_taken platform userId eventType' description riskLevel' w = false.
Proof.
  intros Hno. destruct (audit_taken platform userId eventType' description riskLevel' w)
    eqn:H; [|reflexivity].
  apply audit_taken_user in H. contradiction.
Qed.

End Audit.

Section Firewall.

Context (platform : Platform).

(** [blockIP] without a user id audits user 0: with no such user the
    address is blocked and the call throws. *)
Lemma blockIP_unaudited (ipAddress reason : string) (w : World) :
  no_user_zero w →
  ∃ e w',
    blockIP platform ipAddress reason None w = (Throw e, w') ∧
    e ∈ store_refusals ∧
    blockedIPs w' = {[ ipAddress ]} ∪ blockedIPs w ∧
    suspiciousActivities w' = suspiciousActivities w ∧
    rateLimits w' = rateLimits w ∧
    failedAttempts w' = failedAttempts w ∧
    users w' = users w ∧
    security_logs w' = security_logs w.
Proof.
  intros Hno. unfold blockIP. unfold bind at 1. unfold modify at 1. unfold bind at 1.
  cbn [default from_option id].
  destruct (createAuditTrail_refused platform 0 "ip_blocked"
              ("IP " +:+ ipAddress +:+ " blocked: " +:+ reason) "high"
              (set_blockedIPs ({[ ipAddress ]} ∪ blockedIPs w) w))
    as (e & w' & -> & He & [] & Hlogs & _).
  { apply audit_refused_unknown_user. exact Hno. }
  exists e, w'. split; [reflexivity|]. split; [exact He|].
  repeat split; assumption.
Qed.

(** [recordSuspiciousActivity] for a user given by name audits user 0
    before it looks at the threshold: with no such user the occurrence is
    counted and the call throws, whatever the count. *)
Lemma recordSuspiciousActivity_unaudited (name activityType description ipAddress : string)
    (w : World) :
  no_user_zero w →
  ∃ e w',
    recordSuspiciousActivity platform (inl name) activityType description ipAddress w =
      (Throw e, w') ∧
    e ∈ store_refusals ∧
    suspiciousActivities w' =
      <[map_key name activityType :=
          default 0 (suspiciousActivities w !! map_key name activityType) + 1]>
        (suspiciousActivities w) ∧
    blockedIPs w' = blockedIPs w ∧
    rateLimits w' = rateLimits w ∧
    failedAttempts w' = failedAttempts w ∧
    users w' = users w ∧
    security_logs w' = security_logs w.
Proof.
  intros Hno. unfold recordSuspiciousActivity.
  unfold bind at 1. unfold gets at 1. unfold bind at 1. unfold modify at 1.
  unfold bind at 1.
  match goal with
  | |- context [createAuditTrail platform 0 ?ev ?d ?r ?st] =>
      destruct (createAuditTrail_refused platform 0 ev d r st)
        as (e & w' & -> & He & [] & Hlogs & _)
  end.
  { apply audit_refused_unknown_user. exact Hno. }
  exists e, w'. split; [reflexivity|]. split; [exact He|].
  repeat split; assumption.
Qed.

(** [recordFailedAttempt] audits user 0 on both of its paths: with no
    such user the attempt is counted, the address is blocked when the count
    has reached the threshold, and the call throws. *)
Lemma recordFailedAttempt_unaudited (identifier ipAddress : string) (w : World) :
  no_user_zero w →
  let key := map_key identifier ipAddress in
  let newAttempts := default 0 (failedAttempts w !! key) + 1 in
  ∃ e w',
    recordFailedAttempt platform identifier ipAddress w = (Throw e, w') ∧
    e ∈ store_refusals ∧
    failedAttempts w' = <[key := newAttempts]> (failedAttempts w) ∧
    blockedIPs w' =
      (if MAX_FAILED_ATTEMPTS <=? newAttempts then {[ ipAddress ]} ∪ blockedIPs w
       else blockedIPs w) ∧
    suspiciousActivities w' = suspiciousActivities w ∧
    rateLimits w' = rateLimits w ∧
    users w' = users w ∧
    security_logs w' = security_logs w.
Proof.
  intros Hno key newAttempts. unfold recordFailedAttempt. fold key.
  unfold bind at 1. unfold gets at 1. fold newAttempts.
  unfold bind at 1. unfold modify at 1.
  destruct (MAX_FAILED_ATTEMPTS <=? newAttempts).
  - unfold bind at 1.
    match goal with
    | |- context [blockIP platform ipAddress ?reason None ?st] =>
        destruct (blockIP_unaudited ipAddress reason st Hno)
          as (e & w' & -> & He & Hb & Hs & Hr & Hf & Hu & Hl)
    end.
    exists e, w'. split; [reflexivity|]. split; [exact He|].
    repeat split; assumption.
  - unfold bind at 1.
    match goal with
    | |- context [createAuditTrail platform 0 ?ev ?d ?r ?st] =>
        destruct (createAuditTrail_refused platform 0 ev d r st)
          as (e & w' & -> & He & [] & Hlogs & _)
    end.
    { apply audit_refused_unknown_user. exact Hno. }
    exists e, w'. split; [reflexivity|]. split; [exact He|].
    repeat split; assumption.
Qed.

End Firewall.

Section FirewallClaims.

Context (platform : Platform).

Lemma repeat_call_succ {A : Type} (n : nat) (m : M A) (w : World) :
  repeat_call (S n) m w =
  (fst (m w) :: fst (repeat_call n m (snd (m w))), snd (repeat_call n m (snd (m w)))).
Proof.
  cbn [repeat_call]. destruct (m w) as [r w1]. cbn [fst snd].
  destruct (repeat_call n m w1) as [rs w2]. reflexivity.
Qed.

(** What an audit leaves alone, whether it is taken or refused. *)
Lemma createAuditTrail_quiet (userId : Z) (eventType' description riskLevel' : string)
    (w : World) :
  quiet w (snd (createAuditTrail platform userId eventType' description riskLevel' w)).
Proof.
  destruct (audit_taken platform userId eventType' description riskLevel' w) eqn:H.
  - rewrite createAuditTrail_taken by exact H. split; reflexivity.
  - destruct (createAuditTrail_refused platform userId eventType' description riskLevel' w H)
      as (e & w' & -> & _ & Hquiet & _).
    exact Hquiet.
Qed.

(** In every state a call counts the attempt under its own key and
    leaves the other counters as they were. *)
Lemma recordFailedAttempt_counts (identifier ipAddress : string) (w : World) :
  failedAttempts (snd (recordFailedAttempt platform identifier ipAddress w)) =
  <[map_key identifier ipAddress :=
      default 0 (failedAttempts w !! map_key identifier ipAddress) + 1]> (failedAttempts w).
Proof.
  unfold recordFailedAttempt.
  unfold bind at 1. unfold gets at 1. unfold bind at 1. unfold modify at 1.
  destruct (MAX_FAILED_ATTEMPTS <=? _).
  - unfold bind at 1. unfold blockIP. unfold bind at 1. unfold modify at 1.
    unfold bind at 1. cbn [default from_option id].
    match goal with
    | |- context [createAuditTrail platform 0 ?ev ?d ?r ?st] =>
        pose proof (createAuditTrail_quiet 0 ev d r st) as [_ _ _ Hf _ _ _ _ _ _];
        destruct (createAuditTrail platform 0 ev d r st) as [[h|e] w']
    end; cbn [snd] in Hf |- *; exact Hf.
  - unfold bind at 1.
    match goal with
    | |- context [createAuditTrail platform 0 ?ev ?d ?r ?st] =>
        pose proof (createAuditTrail_quiet 0 ev d r st) as [_ _ _ Hf _ _ _ _ _ _];
        destruct (createAuditTrail platform 0 ev d r st) as [[h|e] w']
    end; cbn [snd] in Hf |- *; exact Hf.
Qed.

(** [clearFailedAttempts] returns and removes the counter of its key. *)
Lemma clearFailedAttempts_resets (identifier ipAddress : string) (w : World) :
  ∃ w',
    clearFailedAttempts identifier ipAddress w = (Ok tt, w') ∧
    failedAttempts w' !! map_key identifier ipAddress = None ∧
    default 0 (failedAttempts w' !! map_key identifier ipAddress) = 0 ∧
    (∀ other, other ≠ map_key identifier ipAddress →
       failedAttempts w' !! other = failedAttempts w !! other) ∧
    blockedIPs w' = blockedIPs w.
Proof.
  eexists. split; [reflexivity|]. simpl_world.
  rewrite lookup_delete_eq. repeat split.
  intros other Hother. apply lookup_delete_ne. congruence.
Qed.

(** A run of calls for one key over a users table without user 0: every
    call throws, the counter follows the calls, the address is on the block
    list from the call that brings the counter to the threshold, and no
    record reaches the security log. *)
Lemma record_failed_attempts_unaudited (n : nat) (identifier ipAddress : string)
    (w : World) (c : Z) :
  no_user_zero w →
  default 0 (failedAttempts w !! map_key identifier ipAddress) = c →
  ∃ outcomes w',
    repeat_call n (recordFailedAttempt platform identifier ipAddress) w = (outcomes, w') ∧
    length outcomes = n ∧
    Forall thrown outcomes ∧
    default 0 (failedAttempts w' !! map_key identifier ipAddress) = c + Z.of_nat n ∧
    ((0 < n)%nat →
       failedAttempts w' !! map_key identifier ipAddress = Some (c + Z.of_nat n)) ∧
    blockedIPs w' =
      (if bool_decide (0 < n)%nat && (MAX_FAILED_ATTEMPTS <=? c + Z.of_nat n)
       then {[ ipAddress ]} ∪ blockedIPs w else blockedIPs w) ∧
    security_logs w' = security_logs w ∧
    users w' = users w.
Proof.
  revert w c. induction n as [|n IH]; intros w c Hno Hc.
  - exists [], w. cbn [repeat_call length]. rewrite Z.add_0_r.
    repeat split; try assumption; try constructor. intros H. lia.
  - destruct (recordFailedAttempt_unaudited platform identifier ipAddress w Hno)
      as (e & w1 & Hrun & _ & Hf & Hb & _ & _ & Hu & Hl).
    rewrite Hc in Hf, Hb.
    assert (Hc1 : default 0 (failedAttempts w1 !! map_key identifier ipAddress) = c + 1)
      by (rewrite Hf, lookup_insert_eq; reflexivity).
    assert (Hno1 : no_user_zero w1) by (unfold no_user_zero; rewrite Hu; exact Hno).
    destruct (IH w1 (c + 1) Hno1 Hc1)
      as (outcomes & w' & Hrest & Hlen & Hall & Hcount & Hsome & Hblocked & Hlogs & Husers).
    exists (Throw e :: outcomes), w'.
    split; [rewrite repeat_call_succ, Hrun; cbn [fst snd]; rewrite Hrest; reflexivity|].
    split; [cbn [length]; lia|].
    split; [constructor; [eexists; reflexivity | exact Hall]|].
    split; [rewrite Hcount; lia|].
    split.
    { intros _. destruct n as [|n'].
      - cbn [repeat_call] in Hrest. injection Hrest as _ <-.
        rewrite Hf, lookup_insert_eq. f_equal; lia.
      - rewrite Hsome by lia. f_equal; lia. }
    split; [|split; [congruence | congruence]].
    rewrite Hblocked, Hb.
    rewrite (bool_decide_eq_true_2 (0 < S n)%nat) by lia. cbn [andb].
    replace (c + 1 + Z.of_nat n) with (c + Z.of_nat (S n)) by lia.
    destruct (Z.leb_spec MAX_FAILED_ATTEMPTS (c + Z.of_nat (S n))) as [Hge|Hlt].
    + destruct (Z.leb_spec MAX_FAILED_ATTEMPTS (c + 1)) as [Hge1|Hlt1].
      * rewrite andb_true_r. destruct (bool_decide (0 < n)%nat); [|reflexivity].
        rewrite (assoc_L (∪)), (idemp_L (∪)). reflexivity.
      * rewrite andb_true_r.
        destruct (bool_decide_reflect (0 < n)%nat) as [Hpos|Hzero]; [reflexivity|].
        exfalso. assert (n = 0%nat) by lia. subst n. lia.
    + destruct (Z.leb_spec MAX_FAILED_ATTEMPTS (c + 1)) as [Hge1|Hlt1]; [lia|].
      rewrite andb_false_r. reflexivity.
Qed.

(** C5. Failed-attempt lockout against the claim. Over a users table
    without a row of id 0 (ids come from a sequence that starts at 1) no
    call of recordFailedAttempt returns: each counts the attempt and throws
    the refusal of the security log, which holds a foreign key to the users
    table and is handed user 0. From a key without attempts, any number of
    consecutive calls all throw and leave the security log without a new
    record, at any severity; the block list is as it was below five calls,
    and from the fifth on the address is on it, isIPBlocked answering true.
    clearFailedAttempts returns and resets the counter of the key. *)
Theorem failed_attempts_throw_unaudited (identifier ipAddress : string) (w : World) :
  no_user_zero w →
  failedAttempts w !! map_key identifier ipAddress = None →
  ∀ n : nat,
    ∃ outcomes w',
      repeat_call n (recordFailedAttempt platform identifier ipAddress) w = (outcomes, w') ∧
      length outcomes = n ∧
      Forall thrown outcomes ∧
      default 0 (failedAttempts w' !! map_key identifier ipAddress) = Z.of_nat n ∧
      security_logs w' = security_logs w ∧
      ((n < 5)%nat → blockedIPs w' = blockedIPs w) ∧
      ((5 <= n)%nat → isIPBlocked ipAddress w' = (Ok true, w')) ∧
      ∃ wc,
        clearFailedAttempts identifier ipAddress w' = (Ok tt, wc) ∧
        failedAttempts wc !! map_key identifier ipAddress = None ∧
        default 0 (failedAttempts wc !! map_key identifier ipAddress) = 0.
Proof.
  intros Hno Hfresh n.
  destruct (record_failed_attempts_unaudited n identifier ipAddress w 0 Hno)
    as (outcomes & w' & Hrun & Hlen & Hall & Hcount & _ & Hblocked & Hlogs & _).
  { rewrite Hfresh. reflexivity. }
  exists outcomes, w'. split; [exact Hrun|]. split; [exact Hlen|]. split; [exact Hall|].
  split; [rewrite Hcount; lia|]. split; [exact Hlogs|].
  split.
  { intros Hn. rewrite Hblocked.
    destruct (Z.leb_spec MAX_FAILED_ATTEMPTS (0 + Z.of_nat n)) as [Hge|_].
    - unfold MAX_FAILED_ATTEMPTS in Hge. lia.
    - rewrite andb_false_r. reflexivity. }
  split.
  { intros Hn. unfold isIPBlocked, gets. f_equal. f_equal. apply bool_decide_eq_true.
    rewrite Hblocked, bool_decide_eq_true_2 by lia.
    destruct (Z.leb_spec MAX_FAILED_ATTEMPTS (0 + Z.of_nat n)) as [_|Hlt].
    - cbn [andb]. apply elem_of_union. left. apply elem_of_singleton. reflexivity.
    - unfold MAX_FAILED_ATTEMPTS in Hlt. lia. }
  destruct (clearFailedAttempts_resets identifier ipAddress w')
    as (wc & Hclear & Hnone & Hzero & _).
  exists wc. auto.
Qed.

(** C10. Repeated blocking after the threshold, against the claim. Over a
    users table without a row of id 0, once the counter of (identifier, ip)
    holds five or more, every further recordFailedAttempt throws: it raises
    the counter by one and calls blockIP, which puts the address on the
    block list again and throws when the security log refuses its audit
    record for user 0, so no call returns true and no ip_blocked record is
    written. In every state a call raises the counter of its own key by
    exactly one and leaves the other counters as they were, so
    recordFailedAttempt never lowers a counter. *)
Theorem blocked_attempts_keep_throwing (identifier ipAddress : string) (w : World) :
  (no_user_zero w →
   ∀ (n : Z) (m : nat),
     failedAttempts w !! map_key identifier ipAddress = Some n →
     MAX_FAILED_ATTEMPTS <= n →
     ∃ outcomes w',
       repeat_call m (recordFailedAttempt platform identifier ipAddress) w =
         (outcomes, w') ∧
       length outcomes = m ∧
       Forall thrown outcomes ∧
       default 0 (failedAttempts w' !! map_key identifier ipAddress) = n + Z.of_nat m ∧
       ((0 < m)%nat → ipAddress ∈ blockedIPs w') ∧
       security_logs w' = security_logs w) ∧
  (let w1 := snd (recordFailedAttempt platform identifier ipAddress w) in
   failedAttempts w1 !! map_key identifier ipAddress =
     Some (default 0 (failedAttempts w !! map_key identifier ipAddress) + 1) ∧
   ∀ other, other ≠ map_key identifier ipAddress →
     failedAttempts w1 !! other = failedAttempts w !! other).
Proof.
  split.
  - intros Hno n m Hn Hge.
    destruct (record_failed_attempts_unaudited m identifier ipAddress w n Hno)
      as (outcomes & w' & Hrun & Hlen & Hall & Hcount & _ & Hblocked & Hlogs & _).
    { rewrite Hn. reflexivity. }
    exists outcomes, w'. split; [exact Hrun|]. split; [exact Hlen|]. split; [exact Hall|].
    split; [exact Hcount|]. split; [|exact Hlogs].
    intros Hm. rewrite Hblocked, bool_decide_eq_true_2 by exact Hm.
    destruct (Z.leb_spec MAX_FAILED_ATTEMPTS (n + Z.of_nat m)) as [_|Hlt]; [|lia].
    cbn [andb]. apply elem_of_union. left. apply elem_of_singleton. reflexivity.
  - cbv zeta. rewrite recordFailedAttempt_counts. split.
    + apply lookup_insert_eq.
    + intros other Hother. apply lookup_insert_ne. congruence.
Qed.

(** The paths of [checkRateLimit]. *)
Lemma checkRateLimit_new_window (identifier ipAddress : string) (w : World) :
  let key := map_key identifier ipAddress in
  let now := clock platform (clock_reads w) in
  (rateLimits w !! key = None ∨
   ∃ l, rateLimits w !! key = Some l ∧ resetTime l < now) →
  checkRateLimit platform identifier ipAddress w =
  (Ok true,
   set_rateLimits (<[key := mkRateLimit 1 (now + RATE_LIMIT_WINDOW)]> (rateLimits w))
     (set_clock_reads (S (clock_reads w)) w)).
Proof.
  intros key now H. unfold checkRateLimit.
  unfold bind at 1. unfold Date_now at 1. unfold bind at 1. unfold gets at 1.
  simpl_world. fold key. fold now.
  destruct H as [-> | (l & -> & Hlt)].
  - reflexivity.
  - apply Z.ltb_lt in Hlt. rewrite Hlt. reflexivity.
Qed.

Lemma checkRateLimit_within (identifier ipAddress : string) (w : World) (l : RateLimit) :
  let key := map_key identifier ipAddress in
  rateLimits w !! key = Some l →
  clock platform (clock_reads w) <= resetTime l →
  count l < MAX_REQUESTS_PER_MINUTE →
  checkRateLimit platform identifier ipAddress w =
  (Ok true,
   set_rateLimits (<[key := mkRateLimit (count l + 1) (resetTime l)]> (rateLimits w))
     (set_clock_reads (S (clock_reads w)) w)).
Proof.
  intros key Hl Hnow Hcount. unfold checkRateLimit.
  unfold bind at 1. unfold Date_now at 1. unfold bind at 1. unfold gets at 1.
  simpl_world. fold key. rewrite Hl.
  destruct (Z.ltb_spec (resetTime l) (clock platform (clock_reads w))) as [?|_]; [lia|].
  cbn [default from_option id].
  destruct (Z.leb_spec MAX_REQUESTS_PER_MINUTE (count l)) as [?|_]; [lia|].
  reflexivity.
Qed.

(** A call beyond the limit records a suspicious activity for the
    identifier, a name: over a users table without user 0 it throws, with
    the occurrence counted and nothing else of the firewall changed. *)
Lemma checkRateLimit_exceeded (identifier ipAddress : string) (w : World) (l : RateLimit) :
  no_user_zero w →
  rateLimits w !! map_key identifier ipAddress = Some l →
  clock platform (clock_reads w) <= resetTime l →
  MAX_REQUESTS_PER_MINUTE <= count l →
  ∃ e w',
    checkRateLimit platform identifier ipAddress w = (Throw e, w') ∧
    e ∈ store_refusals ∧
    rateLimits w' = rateLimits w ∧
    suspiciousActivities w' =
      <[map_key identifier "rate_limit_exceeded" :=
          default 0 (suspiciousActivities w !! map_key identifier "rate_limit_exceeded") + 1]>
        (suspiciousActivities w) ∧
    blockedIPs w' = blockedIPs w ∧
    failedAttempts w' = failedAttempts w ∧
    users w' = users w ∧
    security_logs w' = security_logs w.
Proof.
  intros Hno Hl Hnow Hcount. unfold checkRateLimit.
  unfold bind at 1. unfold Date_now at 1. unfold bind at 1. unfold gets at 1.
  simpl_world. rewrite Hl.
  destruct (Z.ltb_spec (resetTime l) (clock platform (clock_reads w))) as [?|_]; [lia|].
  cbn [default from_option id].
  destruct (Z.leb_spec MAX_REQUESTS_PER_MINUTE (count l)) as [_|?]; [|lia].
  unfold bind at 1.
  match goal with
  | |- context [recordSuspiciousActivity platform (inl identifier) ?a ?d ipAddress ?st] =>
      destruct (recordSuspiciousActivity_unaudited platform identifier a d ipAddress st Hno)
        as (e & w' & -> & He & Hs & Hb & Hr & Hf & Hu & Hlogs)
  end.
  exists e, w'. split; [reflexivity|]. split; [exact He|].
  repeat split; assumption.
Qed.

Lemma check_rate_limits_succ (n : nat) (identifier ipAddress : string) (w : World) :
  check_rate_limits platform (S n) identifier ipAddress w =
  match checkRateLimit platform identifier ipAddress w with
  | (Ok b, w1) =>
      match check_rate_limits platform n identifier ipAddress w1 with
      | (Ok bs, w2) => (Ok (b :: bs), w2)
      | (Throw e, w2) => (Throw e, w2)
      end
  | (Throw e, w1) => (Throw e, w1)
  end.
Proof.
  cbn [check_rate_limits]. unfold bind, ret.
  destruct (checkRateLimit platform identifier ipAddress w) as [[b|e] w1]; [|reflexivity].
  destruct (check_rate_limits platform n identifier ipAddress w1) as [[bs|e] w2]; reflexivity.
Qed.

(** Calls inside an open window that stay within the limit. *)
Lemma check_rate_limits_within (j : nat) (identifier ipAddress : string)
    (w : World) (c R : Z) :
  rateLimits w !! map_key identifier ipAddress = Some (mkRateLimit c R) →
  (∀ i : nat, (i < j)%nat → clock platform (clock_reads w + i) <= R) →
  c + Z.of_nat j <= MAX_REQUESTS_PER_MINUTE →
  ∃ w',
    check_rate_limits platform j identifier ipAddress w = (Ok (replicate j true), w') ∧
    rateLimits w' !! map_key identifier ipAddress = Some (mkRateLimit (c + Z.of_nat j) R) ∧
    clock_reads w' = (clock_reads w + j)%nat ∧
    suspiciousActivities w' = suspiciousActivities w ∧
    security_logs w' = security_logs w ∧
    blockedIPs w' = blockedIPs w ∧
    users w' = users w.
Proof.
  revert w c. induction j as [|j IH]; intros w c Hl Hclock Hle.
  - exists w. cbn [check_rate_limits replicate]. rewrite Z.add_0_r, Nat.add_0_r.
    repeat split; try reflexivity. exact Hl.
  - pose proof (checkRateLimit_within identifier ipAddress w _ Hl) as Hstep.
    cbn [count resetTime] in Hstep. cbv zeta in Hstep.
    specialize (Hclock 0%nat ltac:(lia)) as Hnow. rewrite Nat.add_0_r in Hnow.
    specialize (Hstep Hnow ltac:(lia)).
    set (w1 := set_rateLimits _ _) in Hstep.
    destruct (IH w1 (c + 1)) as (w' & Hrun & Hlim & Hreads & Hsusp & Hlogs & Hblk & Husers).
    { subst w1. simpl_world. apply lookup_insert_eq. }
    { intros i Hi. subst w1. simpl_world.
      replace (S (clock_reads w) + i)%nat with (clock_reads w + S i)%nat by lia.
      apply Hclock. lia. }
    { lia. }
    exists w'. split.
    { rewrite check_rate_limits_succ, Hstep, Hrun. reflexivity. }
    split; [rewrite Hlim; do 2 f_equal; lia|].
    split; [rewrite Hreads; subst w1; simpl_world; lia|].
    repeat split; [rewrite Hsusp|rewrite Hlogs|rewrite Hblk|rewrite Husers]; reflexivity.
Qed.

(** C6. Rate-limit boundary with reset-on-expiry windows, against the
    claim. For a key without an entry, when the readings of the clock taken
    by the first L+1 calls do not pass the reset time set by the first call,
    the first L = MAX_REQUESTS_PER_MINUTE calls of checkRateLimit return
    true. Over a users table without a row of id 0 the next call does not
    return false: it counts the suspicious activity of the identifier and
    throws when the security log refuses the audit record for user 0; the
    window keeps its count of L, and neither the security log nor the block
    list has changed. Whenever the clock has passed the reset time of the
    entry, a call returns true and replaces the entry by a count of 1 and a
    reset time one window after the reading. *)
Theorem rate_limit_rejection_throws (identifier ipAddress : string) (w : World) :
  let key := map_key identifier ipAddress in
  let L := Z.to_nat MAX_REQUESTS_PER_MINUTE in
  let now := clock platform (clock_reads w) in
  (no_user_zero w →
   rateLimits w !! key = None →
   (∀ i : nat, (i <= L)%nat → clock platform (clock_reads w + i) <= now + RATE_LIMIT_WINDOW) →
   ∃ w1 e w2,
     check_rate_limits platform L identifier ipAddress w = (Ok (replicate L true), w1) ∧
     checkRateLimit platform identifier ipAddress w1 = (Throw e, w2) ∧
     e ∈ store_refusals ∧
     rateLimits w2 !! key =
       Some (mkRateLimit MAX_REQUESTS_PER_MINUTE (now + RATE_LIMIT_WINDOW)) ∧
     suspiciousActivities w2 !! map_key identifier "rate_limit_exceeded" =
       Some (default 0 (suspiciousActivities w !! map_key identifier "rate_limit_exceeded") + 1) ∧
     security_logs w2 = security_logs w ∧
     blockedIPs w2 = blockedIPs w) ∧
  (∀ l, rateLimits w !! key = Some l → resetTime l < now →
     ∃ w', checkRateLimit platform identifier ipAddress w = (Ok true, w') ∧
       rateLimits w' !! key = Some (mkRateLimit 1 (now + RATE_LIMIT_WINDOW))).
Proof.
  intros key L now. split.
  - intros Hno Hfresh Hclock.
    pose proof (checkRateLimit_new_window identifier ipAddress w (or_introl Hfresh)) as Hfirst.
    cbv zeta in Hfirst. fold key now in Hfirst.
    set (w0 := set_rateLimits _ _) in Hfirst.
    destruct (check_rate_limits_within 99 identifier ipAddress w0 1 (now + RATE_LIMIT_WINDOW))
      as (w1 & Hrun & Hlim & Hreads & Hsusp & Hlogs & Hblk & Husers).
    { subst w0. simpl_world. apply lookup_insert_eq. }
    { intros i Hi. subst w0. simpl_world.
      replace (S (clock_reads w) + i)%nat with (clock_reads w + S i)%nat by lia.
      apply Hclock. subst L. unfold MAX_REQUESTS_PER_MINUTE. lia. }
    { unfold MAX_REQUESTS_PER_MINUTE. lia. }
    change (1 + Z.of_nat 99) with MAX_REQUESTS_PER_MINUTE in Hlim.
    assert (Hnow1 : clock platform (clock_reads w1) <= now + RATE_LIMIT_WINDOW).
    { rewrite Hreads. subst w0. simpl_world.
      replace (S (clock_reads w) + 99)%nat with (clock_reads w + 100)%nat by lia.
      apply Hclock. subst L. unfold MAX_REQUESTS_PER_MINUTE. lia. }
    assert (Hno1 : no_user_zero w1).
    { unfold no_user_zero. rewrite Husers. subst w0. simpl_world. exact Hno. }
    destruct (checkRateLimit_exceeded identifier ipAddress w1
                (mkRateLimit MAX_REQUESTS_PER_MINUTE (now + RATE_LIMIT_WINDOW))
                Hno1 Hlim Hnow1)
      as (e & w2 & Hlast & He & Hrl & Hsa & Hb & _ & _ & Hlg); [cbn [count]; lia|].
    exists w1, e, w2. split.
    { change L with (S 99). rewrite check_rate_limits_succ, Hfirst, Hrun. reflexivity. }
    split; [exact Hlast|]. split; [exact He|].
    split; [rewrite Hrl; exact Hlim|].
    split; [rewrite Hsa, lookup_insert_eq, Hsusp; subst w0; reflexivity|].
    split; [rewrite Hlg, Hlogs; subst w0; reflexivity|].
    rewrite Hb, Hblk. subst w0. reflexivity.
  - intros l Hl Hlt.
    pose proof (checkRateLimit_new_window identifier ipAddress w
                  (or_intror (ex_intro _ l (conj Hl Hlt)))) as Hreset.
    cbv zeta in Hreset. eexists. split; [exact Hreset|].
    simpl_world. apply lookup_insert_eq.
Qed.

End FirewallClaims.

Section Intrusion.

Context (platform : Platform).



(** Outside the hypothesis of C7: with metadata undefined or null, an
    activity that names a permission makes the read of the flag throw, and
    no verdict is returned. *)
Lemma detectIntrusion_nullish_metadata (userId : Z) (activity : string)
    (metadata : JsValue) (w : World) :
  metadata = JUndefined ∨ metadata = JNull →
  includes "permission" activity = true →
  detectIntrusion platform userId activity metadata w =
  (Throw "TypeError: Cannot read properties of undefined", w).
Proof.
  intros Hnull Hperm. unfold detectIntrusion.
  unfold bind at 1. unfold gets at 1. unfold bind at 1. unfold lift at 1.
  unfold flagged at 1. rewrite Hperm.
  destruct Hnull as [-> | ->]; reflexivity.
Qed.

End Intrusion.

Section KeyMaterial.

Context (platform : Platform).

Lemma string_falsy_absent (key : option string) :
  string_falsy key = true ↔ key_absent key.
Proof.
  unfold string_falsy, key_absent. destruct key as [k|].
  - rewrite String.eqb_eq. split.
    + intros ->. right. reflexivity.
    + intros [H|H]; [discriminate H|]. injection H as ->. reflexivity.
  - split; [intros _; left; reflexivity | reflexivity].
Qed.

Lemma string_falsy_present (key : option string) :
  string_falsy key = false → ∃ k, key = Some k ∧ k ≠ EmptyString.
Proof.
  unfold string_falsy. destruct key as [k|]; [|discriminate].
  intros H. exists k. split; [reflexivity|]. apply String.eqb_neq. exact H.
Qed.

Lemma string_or_absent (key env : option string) :
  key_absent key → string_or key env = env.
Proof. intros [->| ->]; reflexivity. Qed.

Lemma string_or_present (key env : option string) (k : string) :
  key = Some k → k ≠ EmptyString → string_or key env = Some k.
Proof.
  intros -> Hk. unfold string_or. apply String.eqb_neq in Hk. rewrite Hk. reflexivity.
Qed.

(** C8. Required key material. encryptData throws the configuration error
    exactly when it is given no key argument and ENCRYPTION_KEY is unset
    or empty; given a non-empty key argument it encrypts under that key,
    whatever the environment holds. encryptPrivateKey and decryptPrivateKey
    throw theirs exactly when MASTER_ENCRYPTION_KEY is unset or empty. No
    default key exists: every ciphertext encryptData returns is the AES
    encryption under a non-empty key that is the key argument or, when none
    was given, ENCRYPTION_KEY; every ciphertext of encryptPrivateKey is the
    AES encryption under the non-empty MASTER_ENCRYPTION_KEY;
    decryptPrivateKey either throws the configuration error or is the AES
    decryption under that key. decryptData never fails: with no key
    argument and no ENCRYPTION_KEY it returns the empty string, and
    otherwise the AES decryption under the key argument or, when none was
    given, ENCRYPTION_KEY, with the empty string in place of an error. *)
Theorem required_key_material :
  (∀ data' key,
     encryptData platform data' key = Throw ENCRYPTION_KEY_required ↔
     key_absent key ∧ key_absent (process_env platform "ENCRYPTION_KEY")) ∧
  (∀ data' k,
     k ≠ EmptyString →
     encryptData platform data' (Some k) = Ok (AES_encrypt platform data' k)) ∧
  (∀ text,
     (encryptPrivateKey platform text = Throw MASTER_ENCRYPTION_KEY_required ↔
      key_absent (process_env platform "MASTER_ENCRYPTION_KEY")) ∧
     (key_absent (process_env platform "MASTER_ENCRYPTION_KEY") →
      decryptPrivateKey platform text = Throw MASTER_ENCRYPTION_KEY_required)) ∧
  (∀ data' key cipher,
     encryptData platform data' key = Ok cipher →
     ∃ k, k ≠ EmptyString ∧
       (key = Some k ∨
        (key_absent key ∧ process_env platform "ENCRYPTION_KEY" = Some k)) ∧
       cipher = AES_encrypt platform data' k) ∧
  (∀ text cipher,
     encryptPrivateKey platform text = Ok cipher →
     ∃ k, k ≠ EmptyString ∧
       process_env platform "MASTER_ENCRYPTION_KEY" = Some k ∧
       cipher = AES_encrypt platform text k) ∧
  (∀ text,
     decryptPrivateKey platform text = Throw MASTER_ENCRYPTION_KEY_required ∨
     ∃ k, k ≠ EmptyString ∧
       process_env platform "MASTER_ENCRYPTION_KEY" = Some k ∧
       decryptPrivateKey platform text = AES_decrypt_utf8 platform text k) ∧
  (∀ encryptedData key,
     (key_absent key ∧ key_absent (process_env platform "ENCRYPTION_KEY") ∧
      decryptData platform encryptedData key = EmptyString) ∨
     ∃ k, k ≠ EmptyString ∧
       (key = Some k ∨
        (key_absent key ∧ process_env platform "ENCRYPTION_KEY" = Some k)) ∧
       decryptData platform encryptedData key =
         match AES_decrypt_utf8 platform encryptedData k with
         | Ok plain => plain
         | Throw _ => EmptyString
         end).
Proof.
  assert (Hchoice : ∀ key : option string,
    (key_absent key ∧ key_absent (process_env platform "ENCRYPTION_KEY") ∧
     string_falsy (string_or key (process_env platform "ENCRYPTION_KEY")) = true) ∨
    ∃ k, k ≠ EmptyString ∧
      (key = Some k ∨ (key_absent key ∧ process_env platform "ENCRYPTION_KEY" = Some k)) ∧
      string_or key (process_env platform "ENCRYPTION_KEY") = Some k ∧
      string_falsy (string_or key (process_env platform "ENCRYPTION_KEY")) = false).
  { intros key. destruct (string_falsy key) eqn:Hkey.
    - apply string_falsy_absent in Hkey. rewrite (string_or_absent _ _ Hkey).
      destruct (string_falsy (process_env platform "ENCRYPTION_KEY")) eqn:Henv.
      + left. apply string_falsy_absent in Henv. auto.
      + right. apply string_falsy_present in Henv as (k & Hk & Hne).
        exists k. rewrite Hk. split; [exact Hne|]. split; [right; auto|].
        split; reflexivity.
    - right. apply string_falsy_present in Hkey as (k & -> & Hne).
      exists k. rewrite (string_or_present _ _ k eq_refl Hne).
      split; [exact Hne|]. split; [left; reflexivity|].
      split; [reflexivity|]. unfold string_falsy. apply String.eqb_neq. exact Hne. }
  split; [|split; [|split; [|split; [|split; [|split]]]]].
  - intros data' key. unfold encryptData.
    destruct (Hchoice key) as [(Hkey & Henv & ->) | (k & Hne & Hk & _ & ->)].
    + split; [auto | reflexivity].
    + split; [discriminate|]. intros [Hkey Henv].
      destruct Hk as [-> | [_ Hk]].
      * destruct Hkey as [Hkey|Hkey]; [discriminate|]. congruence.
      * rewrite Hk in Henv. destruct Henv as [Henv|Henv]; [discriminate|]. congruence.
  - intros data' k Hne. unfold encryptData.
    rewrite (string_or_present _ _ k eq_refl Hne).
    apply String.eqb_neq in Hne. unfold string_falsy. rewrite Hne. reflexivity.
  - intros text. unfold encryptPrivateKey, decryptPrivateKey.
    destruct (string_falsy _) eqn:Hf.
    + apply string_falsy_absent in Hf. split; [split; auto | reflexivity].
    + split; [split; [discriminate|] | ].
      * intros Habsent. apply string_falsy_absent in Habsent. congruence.
      * intros Habsent. apply string_falsy_absent in Habsent. congruence.
  - intros data' key cipher. unfold encryptData.
    destruct (Hchoice key) as [(_ & _ & ->) | (k & Hne & Hk & -> & ->)]; [discriminate|].
    intros [= <-]. exists k. auto.
  - intros text cipher. unfold encryptPrivateKey.
    destruct (string_falsy _) eqn:Hf; [discriminate|].
    intros [= <-]. apply string_falsy_present in Hf as (k & Hk & Hne).
    exists k. rewrite Hk. auto.
  - intros text. unfold decryptPrivateKey.
    destruct (string_falsy _) eqn:Hf; [left; reflexivity|].
    apply string_falsy_present in Hf as (k & Hk & Hne).
    right. exists k. rewrite Hk. auto.
  - intros encryptedData key. unfold decryptData.
    destruct (Hchoice key) as [(Hkey & Henv & ->) | (k & Hne & Hk & -> & ->)].
    + left. auto.
    + right. exists k. auto.
Qed.

End KeyMaterial.

(** C8 as written fails on a key argument: with ENCRYPTION_KEY unset,
    encryptData returns a ciphertext under the key it is handed, and
    decryptData without any key returns the empty string where the claim
    has a fatal configuration error. *)
Lemma key_argument_needs_no_configuration :
  process_env sample_platform "ENCRYPTION_KEY" = None ∧
  encryptData sample_platform "secret" (Some "k") = Ok "aes[k](secret)" ∧
  encryptData sample_platform "secret" (Some "k") ≠ Throw ENCRYPTION_KEY_required ∧
  decryptData sample_platform "aes[k](secret)" None = EmptyString.
Proof. repeat split. discriminate. Qed.

Section Cleanup.

Context (platform : Platform).

Lemma cleanupSecurityData_run (w : World) :
  let now := clock platform (clock_reads w) in
  cleanupSecurityData platform w =
  (Ok tt,
   set_failedAttempts
     (filter (λ kv, ¬ (kv.2 < now - 60 * 60 * 1000)) (failedAttempts w))
     (set_rateLimits (filter (λ kv, ¬ (resetTime kv.2 < now)) (rateLimits w))
        (set_clock_reads (S (clock_reads w)) w))).
Proof. reflexivity. Qed.

(** The sweep of [rateLimits] keeps exactly the windows that have not
    expired. *)
Lemma cleanup_rate_limits (w : World) (key : string) (l : RateLimit) :
  let now := clock platform (clock_reads w) in
  rateLimits (snd (cleanupSecurityData platform w)) !! key = Some l ↔
  rateLimits w !! key = Some l ∧ ¬ (resetTime l < now).
Proof.
  cbv zeta. rewrite cleanupSecurityData_run.
  cbn [snd rateLimits set_failedAttempts set_rateLimits set_clock_reads].
  rewrite map_lookup_filter_Some. reflexivity.
Qed.

(** The sweep of [failedAttempts] compares the stored attempt count with
    the time one hour before the sweep: an entry stays exactly when its
    count is at least that time in milliseconds. No time of recording is
    kept or consulted. *)
Lemma cleanup_failed_attempts (w : World) (key : string) (attempts : Z) :
  let now := clock platform (clock_reads w) in
  failedAttempts (snd (cleanupSecurityData platform w)) !! key = Some attempts ↔
  failedAttempts w !! key = Some attempts ∧ ¬ (attempts < now - 60 * 60 * 1000).
Proof.
  cbv zeta. rewrite cleanupSecurityData_run.
  cbn [snd failedAttempts set_failedAttempts set_rateLimits set_clock_reads].
  rewrite map_lookup_filter_Some. reflexivity.
Qed.

End Cleanup.

(** C9. The sweep against the claim, on the sample platform: one failed
    attempt for (bob, 9.9.9.9) is recorded and the sweep runs at once, four
    clock readings (4 ms) later. The entry, far younger than an hour, is
    removed: its value 1 is an attempt count, and the sweep reads it as a
    time stamp older than one hour. *)
Theorem cleanup_removes_fresh_failed_attempt :
  let recorded := snd (recordFailedAttempt sample_platform "bob" "9.9.9.9" initial_world) in
  let swept := snd (cleanupSecurityData sample_platform recorded) in
  failedAttempts recorded !! map_key "bob" "9.9.9.9" = Some 1 ∧
  clock sample_platform (clock_reads recorded) - clock sample_platform 0 = 4 ∧
  failedAttempts swept !! map_key "bob" "9.9.9.9" = None.
Proof. vm_compute. repeat split. Qed.

Section Ledger.

Context (platform : Platform).

Lemma rising_from_below (k0 k k' : Z) (numbers : list (option Z)) :
  k0 <= k → rising k numbers k' → rising k0 numbers k'.
Proof.
  intros Hle. destruct numbers as [|n rest]; cbn [rising].
  - lia.
  - intros (m & -> & Hlt & Hrest). exists m. split; [reflexivity|]. split; [lia | exact Hrest].
Qed.

Lemma assigned_numbers_rising {A : Type} (outcomes : list (Result A)) (k : Z) :
  rising k (assigned_numbers k outcomes) (k + Z.of_nat (length outcomes)).
Proof.
  revert k. induction outcomes as [|[v|e] rest IH]; intros k; cbn [assigned_numbers length].
  - cbn [rising]. lia.
  - exists (k + 1). split; [reflexivity|]. split; [lia|].
    replace (k + Z.of_nat (S (length rest))) with (k + 1 + Z.of_nat (length rest)) by lia.
    apply IH.
  - apply (rising_from_below k (k + 1)); [lia|].
    replace (k + Z.of_nat (S (length rest))) with (k + 1 + Z.of_nat (length rest)) by lia.
    apply IH.
Qed.

Lemma assigned_numbers_returned {A : Type} (outcomes : list (Result A)) (k : Z) :
  Forall returned outcomes →
  assigned_numbers k outcomes = (λ i : nat, Some (k + Z.of_nat i)) <$> seq 1 (length outcomes).
Proof.
  intros Hall. revert k. induction Hall as [|r rest [v ->] _ IH]; intros k; [reflexivity|].
  cbn [assigned_numbers length seq fmap list_fmap]. rewrite IH.
  replace (Z.of_nat 1) with 1 by reflexivity. apply (f_equal (cons _)).
  rewrite <- (fmap_S_seq 1 (length rest)), <- list_fmap_compose.
  apply list_fmap_ext. intros i x _. cbn [compose]. f_equal. lia.
Qed.

(** C3. Block numbers. A fresh service starts from counter 0, so its first
    block is number 1. In a run of N appends from counter k, one call after
    the other, every call either returns a hash or throws a refusal of the
    store; the call in position i that returns has added one row with block
    number k+i, a call that throws has added none, and the counter ends at
    k+N whatever the calls did. So the block numbers of the rows added are
    strictly increasing, without duplicates, within k+1, ..., k+N, and they
    are exactly k+1, ..., k+N in order when every call returned; a call the
    store refused leaves its number unused. *)
Theorem append_block_numbers (calls : list (string * JsValue * option Z)) (w : World) :
  currentBlockNumber initial_world = 0 ∧
  ∃ outcomes new w',
    append_each platform calls w = (outcomes, w') ∧
    length outcomes = length calls ∧
    Forall (λ r, returned r ∨ ∃ e, r = Throw e ∧ e ∈ store_refusals) outcomes ∧
    blockchain_transactions w' = blockchain_transactions w ++ new ∧
    blockNumber <$> new = assigned_numbers (currentBlockNumber w) outcomes ∧
    rising (currentBlockNumber w) (blockNumber <$> new) (currentBlockNumber w') ∧
    currentBlockNumber w' = currentBlockNumber w + Z.of_nat (length calls) ∧
    (Forall returned outcomes →
     blockNumber <$> new =
       (λ i : nat, Some (currentBlockNumber w + Z.of_nat i)) <$> seq 1 (length calls)).
Proof.
  split; [reflexivity|].
  enough (H : ∃ outcomes new w',
    append_each platform calls w = (outcomes, w') ∧
    length outcomes = length calls ∧
    Forall (λ r, returned r ∨ ∃ e, r = Throw e ∧ e ∈ store_refusals) outcomes ∧
    blockchain_transactions w' = blockchain_transactions w ++ new ∧
    blockNumber <$> new = assigned_numbers (currentBlockNumber w) outcomes ∧
    currentBlockNumber w' = currentBlockNumber w + Z.of_nat (length calls)).
  { destruct H as (outcomes & new & w' & Hrun & Hlen & Hall & Hrows & Hnums & Hcur).
    exists outcomes, new, w'. repeat (split; [assumption|]).
    split; [|split; [exact Hcur|]].
    - rewrite Hnums, Hcur, <- Hlen. apply assigned_numbers_rising.
    - intros Hreturned. rewrite Hnums, <- Hlen. apply assigned_numbers_returned, Hreturned. }
  revert w. induction calls as [|[[eventType' data'] userId] rest IH]; intros w.
  - exists [], [], w. cbn. rewrite app_nil_r. repeat split; [constructor | lia].
  - cbn [append_each].
    destruct (append_taken platform eventType' data' userId w) eqn:Htaken.
    + rewrite (createSecurityTransaction_taken platform _ _ _ _ Htaken).
      destruct (IH (after_append platform eventType' data' userId w))
        as (outcomes & new & w' & Hrun & Hlen & Hall & Hrows & Hnums & Hcur).
      rewrite Hrun.
      exists (Ok (txHash (appended_transaction platform eventType' data' userId w))
                :: outcomes),
        (appended_transaction platform eventType' data' userId w :: new), w'.
      split; [reflexivity|]. split; [cbn [length]; lia|].
      split; [constructor; [left; eexists; reflexivity | exact Hall]|].
      split.
      { rewrite Hrows. unfold after_append. simpl_world.
        rewrite <- app_assoc. reflexivity. }
      split.
      { cbn [fmap list_fmap assigned_numbers]. rewrite Hnums.
        unfold after_append. simpl_world. reflexivity. }
      rewrite Hcur. unfold after_append. simpl_world. cbn [length]. lia.
    + destruct (createSecurityTransaction_refused platform _ _ _ _ Htaken)
        as (e & seq' & Hthrow & He).
      rewrite Hthrow.
      match goal with
      | |- context [append_each platform rest ?w1] =>
          destruct (IH w1)
            as (outcomes & new & w' & Hrun & Hlen & Hall & Hrows & Hnums & Hcur)
      end.
      rewrite Hrun. exists (Throw e :: outcomes), new, w'.
      split; [reflexivity|]. split; [cbn [length]; lia|].
      split; [constructor; [right; eauto | exact Hall]|].
      simpl_world_in Hrows. simpl_world_in Hnums. simpl_world_in Hcur.
      split; [exact Hrows|]. split; [exact Hnums|].
      rewrite Hcur. cbn [length]. lia.
Qed.

End Ledger.

(** C3 as written fails when the store refuses a row: on a fresh service,
    an append whose event type is one character longer than the column
    tx_type holds throws after the counter was raised, and the next append
    stores block number 2. Two calls from counter 0 leave one row, numbered
    2, and no row numbered 1. *)
Lemma refused_append_leaves_a_gap :
  String.length long_event_type = 51%nat ∧
  currentBlockNumber initial_world = 0 ∧
  blockNumber <$> blockchain_transactions (snd refused_then_taken) = [Some 2] ∧
  blockNumber <$> blockchain_transactions (snd refused_then_taken) ≠ [Some 1; Some 2] ∧
  currentBlockNumber (snd refused_then_taken) = 2 ∧
  (∃ h, fst refused_then_taken = [Throw string_data_right_truncation; Ok h]).
Proof.
  vm_compute. repeat split; try discriminate. eexists. reflexivity.
Qed.

(** C4. The check after persistence against the claim. On every platform,
    in every state and for every argument, createSecurityTransaction either
    returns the digest it computed, when the ledger takes the row, or throws
    what the database threw when it refused the row: it never throws the
    integrity error, because the second digest is taken of the object the
    first was taken of, not of the row that came back from the database. On
    the lossy platform, whose database keeps an empty object in place of the
    payload, an append returns its hash without an error although the digest
    of the row stored under that hash is a different one, and
    verifyTransaction of the hash just returned answers false. (Payloads
    are values here: a store or a caller that changed the in-memory object
    during the await would be noticed, and neither the storage module nor a
    caller in the repository does.) *)
Theorem append_check_never_fails :
  (∀ platform eventType' data' userId w,
     (append_taken platform eventType' data' userId w = true ∧
      createSecurityTransaction platform eventType' data' userId w =
        (Ok (payload_hash
               (transaction_payload eventType' data' userId
                  (clock platform (clock_reads w)) (currentBlockNumber w + 1))),
         after_append platform eventType' data' userId w)) ∨
     (append_taken platform eventType' data' userId w = false ∧
      ∃ e w',
        createSecurityTransaction platform eventType' data' userId w = (Throw e, w') ∧
        e ∈ store_refusals ∧ e ≠ hash_verification_failed ∧
        blockchain_transactions w' = blockchain_transactions w)) ∧
  ∃ h row stored,
    createSecurityTransaction lossy_platform "user_registration"
      (JObject [("userId", JNumber 1); ("publicKey", JString "04ab")]) (Some 1)
      initial_world = (Ok h, stored) ∧
    blockchain_transactions stored = [row] ∧
    txHash row = h ∧
    String.eqb (payload_hash (data row)) h = false ∧
    fst (verifyTransaction lossy_platform h stored) = Ok false.
Proof.
  split.
  - intros platform eventType' data' userId w.
    destruct (append_taken platform eventType' data' userId w) eqn:Htaken.
    + left. split; [reflexivity|].
      apply (createSecurityTransaction_taken platform _ _ _ _ Htaken).
    + right. split; [reflexivity|].
      destruct (createSecurityTransaction_refused platform _ _ _ _ Htaken)
        as (e & seq' & Hthrow & He).
      eexists e, _. split; [exact Hthrow|]. split; [exact He|].
      split; [|reflexivity].
      intros ->. unfold store_refusals in He.
      repeat (apply elem_of_cons in He as [He|He]; [discriminate He|]).
      inversion He.
  - eexists _, _, _.
    split; [apply createSecurityTransaction_taken; reflexivity|].
    split; [reflexivity|]. split; [reflexivity|].
    split; vm_compute; reflexivity.
Qed.

(** C2. The digest against the claim: the hash of a ledger payload does not
    depend on the description, the risk level or the address field of the
    audit data nested in it. Payloads that differ in those fields receive
    the same hash; the fields are lost before hashing, because the sorted
    top-level keys, passed as the replacer of JSON.stringify, filter the
    keys of every nested object as well. *)
Theorem hash_ignores_nested_fields (userId : Z) (eventType' : string)
    (description1 description2 riskLevel1 riskLevel2 : string)
    (timestamp txTimestamp blockNumber' : Z) :
  canonical_string
    (transaction_payload "security_audit"
       (audit_payload userId eventType' description1 riskLevel1 timestamp)
       (Some userId) txTimestamp blockNumber') =
  Ok (hashed_audit_text userId eventType' timestamp txTimestamp blockNumber') ∧
  generateTransactionHash
    (transaction_payload "security_audit"
       (audit_payload userId eventType' description1 riskLevel1 timestamp)
       (Some userId) txTimestamp blockNumber') =
  generateTransactionHash
    (transaction_payload "security_audit"
       (audit_payload userId eventType' description2 riskLevel2 timestamp)
       (Some userId) txTimestamp blockNumber').
Proof.
  assert (Hcanon : ∀ description riskLevel',
    canonical_string
      (transaction_payload "security_audit"
         (audit_payload userId eventType' description riskLevel' timestamp)
         (Some userId) txTimestamp blockNumber') =
    Ok (hashed_audit_text userId eventType' timestamp txTimestamp blockNumber')).
  { intros description riskLevel'.
    unfold canonical_string, transaction_payload, audit_payload, JSON_stringify.
    cbn [Object_keys fmap list_fmap fst].
    replace (Array_sort ["eventType"; "data"; "userId"; "timestamp"; "blockNumber"])
      with ["blockNumber"; "data"; "eventType"; "timestamp"; "userId"]
      by (vm_compute; reflexivity).
    replace (property_list ["blockNumber"; "data"; "eventType"; "timestamp"; "userId"] [])
      with ["blockNumber"; "data"; "eventType"; "timestamp"; "userId"]
      by (vm_compute; reflexivity).
    cbn [SerializeJSONProperty object_members assoc_get String.eqb Ascii.eqb Bool.eqb
         from_option].
    reflexivity. }
  split; [apply Hcanon|].
  unfold generateTransactionHash. rewrite !Hcanon. reflexivity.
Qed.

(** The same on the stored login record: the payload kept in the ledger
    and the rewritten one are different values with one digest. *)
Lemma rewritten_login_same_hash :
  blockchain_transactions audited_login ≠ [] ∧
  Forall (λ row, data row ≠ rewritten_login_payload) (blockchain_transactions audited_login) ∧
  generateTransactionHash rewritten_login_payload = Ok audited_login_hash.
Proof.
  vm_compute. split; [discriminate|]. split; [|reflexivity].
  constructor; [|constructor]. intros H. discriminate H.
Qed.

(** C1. Tamper detection against the claim, on the sample platform: one
    login of alice, who has a row in the users table, is audited, then the
    description and the risk level inside the stored payload are rewritten
    in the table. The stored payload has
    changed, yet verifyTransaction of the hash returns true and writes no
    log row, and validateChainIntegrity returns valid with no corrupted
    hash: the world is left as the rewrite made it. *)
Theorem nested_tampering_passes_verification :
  let tampered := overwrite_payload audited_login_hash rewritten_login_payload audited_login in
  fst (createAuditTrail sample_platform 7 "user_login" "User alice logged in" "low"
         sample_world) = Ok audited_login_hash ∧
  data <$> blockchain_transactions tampered = [rewritten_login_payload] ∧
  data <$> blockchain_transactions audited_login ≠ [rewritten_login_payload] ∧
  verifyTransaction sample_platform audited_login_hash tampered = (Ok true, tampered) ∧
  validateChainIntegrity sample_platform tampered =
    (Ok (mkChainValidation true []), tampered).
Proof.
  vm_compute. split; [reflexivity|]. split; [reflexivity|].
  split; [intros H; discriminate H|]. split; reflexivity.
Qed.

(** Rewriting a top-level field is caught: with the transaction time
    stamp changed, verifyTransaction returns false and writes the critical
    log row, and validateChainIntegrity lists the hash. *)
Lemma top_level_tampering_detected :
  let forged := transaction_payload "security_audit"
                  (audit_payload 7 "user_login" "User alice logged in" "low" 1700000000000)
                  (Some 7) 1699999999999 1 in
  let tampered := overwrite_payload audited_login_hash forged audited_login in
  let verified := verifyTransaction sample_platform audited_login_hash tampered in
  fst verified = Ok false ∧
  (eventType <$> security_logs (snd verified), riskLevel <$> security_logs (snd verified))
    = (["user_login"; "blockchain_tampering_detected"], ["low"; "critical"]) ∧
  fst (validateChainIntegrity sample_platform tampered) =
    Ok (mkChainValidation false [audited_login_hash]) ∧
  fst (verifyTransaction sample_platform audited_login_hash audited_login) = Ok true ∧
  fst (validateChainIntegrity sample_platform audited_login) = Ok (mkChainValidation true []).
Proof.
  vm_compute. split; [reflexivity|]. split; [reflexivity|].
  split; [reflexivity|]. split; reflexivity.
Qed.



(** * The theorems at concrete inputs *)

Lemma failed_attempts_throw_unaudited_sample :
  no_user_zero initial_world ∧
  failedAttempts initial_world !! map_key "bob" "9.9.9.9" = None ∧
  ∃ outcomes w5,
    repeat_call 5 (recordFailedAttempt sample_platform "bob" "9.9.9.9") initial_world =
      (outcomes, w5) ∧
    length outcomes = 5%nat ∧
    Forall thrown outcomes ∧
    default 0 (failedAttempts w5 !! map_key "bob" "9.9.9.9") = 5 ∧
    security_logs w5 = [] ∧
    isIPBlocked "9.9.9.9" w5 = (Ok true, w5).
Proof.
  assert (Hno : no_user_zero initial_world) by (intros H; inversion H).
  assert (Hfresh : failedAttempts initial_world !! map_key "bob" "9.9.9.9" = None)
    by (vm_compute; reflexivity).
  split; [exact Hno|]. split; [exact Hfresh|].
  destruct (failed_attempts_throw_unaudited sample_platform "bob" "9.9.9.9" initial_world
              Hno Hfresh 5)
    as (outcomes & w5 & Hrun & Hlen & Hall & Hcount & Hlogs & _ & Hblocked & _).
  exists outcomes, w5. split; [exact Hrun|]. split; [exact Hlen|]. split; [exact Hall|].
  split; [exact Hcount|]. split; [exact Hlogs|]. apply Hblocked. lia.
Defined.

Lemma rate_limit_rejection_throws_sample :
  (no_user_zero initial_world ∧
   rateLimits initial_world !! map_key "a" "1.2.3.4" = None ∧
   ∃ w1 e w2,
     check_rate_limits sample_platform 100 "a" "1.2.3.4" initial_world =
       (Ok (replicate 100 true), w1) ∧
     checkRateLimit sample_platform "a" "1.2.3.4" w1 = (Throw e, w2) ∧
     e ∈ store_refusals ∧
     security_logs w2 = []) ∧
  (let expired := set_rateLimits {[ map_key "a" "1.2.3.4" := mkRateLimit 100 5 ]}
                    initial_world in
   ∃ w', checkRateLimit sample_platform "a" "1.2.3.4" expired = (Ok true, w') ∧
         rateLimits w' !! map_key "a" "1.2.3.4" =
           Some (mkRateLimit 1 (1700000000000 + RATE_LIMIT_WINDOW))).
Proof.
  assert (Hno : no_user_zero initial_world) by (intros H; inversion H).
  split.
  - split; [exact Hno|]. split; [vm_compute; reflexivity|].
    destruct (rate_limit_rejection_throws sample_platform "a" "1.2.3.4" initial_world)
      as [Hfirst _].
    destruct Hfirst as (w1 & e & w2 & Hrun & Hlast & He & _ & _ & Hlogs & _).
    + exact Hno.
    + vm_compute; reflexivity.
    + intros i Hi. unfold MAX_REQUESTS_PER_MINUTE in Hi.
      cbv beta iota delta [sample_platform clock RATE_LIMIT_WINDOW initial_world clock_reads].
      lia.
    + exists w1, e, w2. auto.
  - cbv zeta.
    destruct (rate_limit_rejection_throws sample_platform "a" "1.2.3.4"
                (set_rateLimits {[ map_key "a" "1.2.3.4" := mkRateLimit 100 5 ]}
                   initial_world)) as [_ Hreset].
    apply (Hreset (mkRateLimit 100 5)).
    + vm_compute; reflexivity.
    + vm_compute; reflexivity.
Defined.

Lemma blocked_attempts_keep_throwing_sample :
  let locked := set_failedAttempts {[ map_key "bob" "9.9.9.9" := 5 ]} initial_world in
  no_user_zero locked ∧
  failedAttempts locked !! map_key "bob" "9.9.9.9" = Some 5 ∧
  ∃ outcomes w',
    repeat_call 3 (recordFailedAttempt sample_platform "bob" "9.9.9.9") locked =
      (outcomes, w') ∧
    length outcomes = 3%nat ∧
    Forall thrown outcomes ∧
    default 0 (failedAttempts w' !! map_key "bob" "9.9.9.9") = 8 ∧
    "9.9.9.9" ∈ blockedIPs w' ∧
    security_logs w' = [].
Proof.
  cbv zeta.
  assert (Hno : no_user_zero
                  (set_failedAttempts {[ map_key "bob" "9.9.9.9" := 5 ]} initial_world))
    by (intros H; inversion H).
  split; [exact Hno|]. split; [vm_compute; reflexivity|].
  destruct (blocked_attempts_keep_throwing sample_platform "bob" "9.9.9.9"
              (set_failedAttempts {[ map_key "bob" "9.9.9.9" := 5 ]} initial_world))
    as [Hlocked _].
  destruct (Hlocked Hno 5 3%nat) as (outcomes & w' & Hrun & Hlen & Hall & Hcount & Hblk & Hlogs).
  - vm_compute; reflexivity.
  - vm_compute; discriminate.
  - exists outcomes, w'. split; [exact Hrun|]. split; [exact Hlen|]. split; [exact Hall|].
    split; [exact Hcount|]. split; [apply Hblk; lia | exact Hlogs].
Defined.

Lemma required_key_material_sample :
  encryptData sample_platform "token" None = Throw ENCRYPTION_KEY_required ∧
  encryptData sample_platform "token" (Some "k") = Ok (AES_encrypt sample_platform "token" "k") ∧
  encryptPrivateKey sample_platform "d1e5" = Throw MASTER_ENCRYPTION_KEY_required ∧
  decryptPrivateKey sample_platform "U2Fs" = Throw MASTER_ENCRYPTION_KEY_required ∧
  ∃ k, k ≠ EmptyString ∧
    process_env keyed_platform "MASTER_ENCRYPTION_KEY" = Some k ∧
    AES_encrypt keyed_platform "d1e5" "k-master" = AES_encrypt keyed_platform "d1e5" k.
Proof.
  destruct (required_key_material sample_platform) as (Hdata & Hkey & Hmaster & _).
  destruct (required_key_material keyed_platform) as (_ & _ & _ & _ & Hcipher & _).
  split; [apply Hdata; split; left; reflexivity|].
  split; [apply Hkey; discriminate|].
  split; [apply Hmaster; left; reflexivity|].
  split; [apply Hmaster; left; reflexivity|].
  apply (Hcipher "d1e5"). reflexivity.
Defined.

(** * What the services keep *)

Section Columns.

(** A [varchar] column keeps a text that fits, up to blanks at its end,
    so a comparison with a shorter text without blanks is not affected. *)
Lemma utf8_take_short (n : nat) (r c : string) :
  forallb (λ a, negb (continuation_byte a)) (list_ascii_of_string c) = true →
  (String.length c < n)%nat →
  utf8_take n r = c → r = c.
Proof.
  revert n c. induction r as [|a r IH]; intros n c Hplain Hlen; cbn [utf8_take].
  - auto.
  - destruct (continuation_byte a) eqn:Ha.
    + intros <-. cbn [list_ascii_of_string forallb] in Hplain.
      rewrite Ha in Hplain. discriminate.
    + destruct n as [|n]; [lia|].
      destruct c as [|b c]; [discriminate|].
      intros [= -> Htake]. f_equal.
      cbn [list_ascii_of_string forallb] in Hplain.
      apply andb_prop in Hplain as [_ Hplain]. cbn [String.length] in Hlen.
      apply (IH n c Hplain); [lia | exact Htake].
Qed.

Lemma utf8_take_all (n : nat) (c : string) :
  forallb (λ a, negb (continuation_byte a)) (list_ascii_of_string c) = true →
  (String.length c <= n)%nat →
  utf8_take n c = c.
Proof.
  revert n. induction c as [|a c IH]; intros n Hplain Hlen; [reflexivity|].
  cbn [list_ascii_of_string forallb] in Hplain. apply andb_prop in Hplain as [Ha Hplain].
  apply negb_true_iff in Ha. cbn [utf8_take]. rewrite Ha.
  cbn [String.length] in Hlen. destruct n as [|n]; [lia|].
  f_equal. apply IH; [exact Hplain | lia].
Qed.

Lemma stored_eqb (n : nat) (r c : string) :
  forallb (λ a, negb (continuation_byte a)) (list_ascii_of_string c) = true →
  (String.length c < n)%nat →
  fits n r = true →
  String.eqb (stored n r) c = String.eqb r c.
Proof.
  intros Hplain Hlen Hfit. unfold fits, stored, varchar in *.
  destruct (all_blank (utf8_drop n r)); [|discriminate]. cbn [default from_option id].
  destruct (String.eqb_spec r c) as [->|Hne].
  - rewrite utf8_take_all by (auto; lia). apply String.eqb_refl.
  - apply String.eqb_neq. intros Htake. apply Hne.
    apply (utf8_take_short n r c Hplain Hlen Htake).
Qed.

End Columns.

Section Growth.

Context (platform : Platform).

Lemma rising_app (k k1 k2 : Z) (l1 l2 : list (option Z)) :
  rising k l1 k1 → rising k1 l2 k2 → rising k (l1 ++ l2) k2.
Proof.
  revert k. induction l1 as [|n l1 IH]; intros k; cbn [rising app].
  - intros Hle H2. apply (rising_from_below k k1); assumption.
  - intros (m & -> & Hlt & H1) H2. exists m. split; [reflexivity|].
    split; [exact Hlt | apply IH; assumption].
Qed.

Lemma grows_refl (w : World) : grows platform w w.
Proof.
  split.
  - reflexivity.
  - exists []. rewrite app_nil_r. cbn. repeat split; [lia | constructor].
  - exists []. rewrite app_nil_r. repeat split; constructor.
  - exists []. rewrite app_nil_r. repeat split; [lia | constructor].
Qed.

Lemma backlink_resolves_app (rows more : list BlockchainTransaction) (l : SecurityLog) :
  backlink_resolves rows l → backlink_resolves (rows ++ more) l.
Proof.
  intros H h Hh. destruct (H h Hh) as (row & Hin & Heq).
  exists row. split; [apply elem_of_app; left; exact Hin | exact Heq].
Qed.

Lemma grows_trans (w1 w2 w3 : World) :
  grows platform w1 w2 → grows platform w2 w3 → grows platform w1 w3.
Proof.
  intros [Hb1 (rows1 & Hl1 & Hn1 & Hf1) (logs1 & Hs1 & Ha1 & Hk1) (new1 & Hu1 & Hq1 & Hi1)]
         [Hb2 (rows2 & Hl2 & Hn2 & Hf2) (logs2 & Hs2 & Ha2 & Hk2) (new2 & Hu2 & Hq2 & Hi2)].
  split.
  - etransitivity; eassumption.
  - exists (rows1 ++ rows2). rewrite Hl2, Hl1, <- app_assoc. split; [reflexivity|].
    split; [rewrite fmap_app; apply (rising_app _ (currentBlockNumber w2)); assumption|].
    apply Forall_app. split; assumption.
  - exists (logs1 ++ logs2). rewrite Hs2, Hs1, <- app_assoc. split; [reflexivity|].
    split; [apply Forall_app; split; assumption|].
    apply Forall_app. split; [|exact Hk2].
    rewrite Hl2. eapply Forall_impl; [exact Hk1|].
    intros l Hl. apply backlink_resolves_app. exact Hl.
  - exists (new1 ++ new2). rewrite Hu2, Hu1, <- app_assoc. split; [reflexivity|].
    split; [lia|]. apply Forall_app. split.
    + eapply Forall_impl; [exact Hi1|]. cbn beta. intros a Ha. lia.
    + eapply Forall_impl; [exact Hi2|]. cbn beta. intros a Ha. lia.
Qed.

(** A step that touches neither table, lowers neither the block counter
    nor the sequence of the users table and removes no blocked address. *)
Lemma grows_volatile (w w' : World) :
  blockedIPs w ⊆ blockedIPs w' →
  blockchain_transactions w' = blockchain_transactions w →
  currentBlockNumber w <= currentBlockNumber w' →
  security_logs w' = security_logs w →
  users w' = users w →
  users_id_seq w <= users_id_seq w' →
  grows platform w w'.
Proof.
  intros Hb Hl Hc Hs Hu Hq. split.
  - exact Hb.
  - exists []. rewrite app_nil_r, Hl. cbn. repeat split; [exact Hc | constructor].
  - exists []. rewrite app_nil_r, Hs. repeat split; constructor.
  - exists []. rewrite app_nil_r, Hu. repeat split; [exact Hq | constructor].
Qed.

Lemma grows_quiet (w w' : World) :
  quiet w w' →
  (∃ rows,
     blockchain_transactions w' = blockchain_transactions w ++ rows ∧
     rising (currentBlockNumber w) (blockNumber <$> rows) (currentBlockNumber w') ∧
     Forall (sealed platform) rows) →
  security_logs w' = security_logs w →
  grows platform w w'.
Proof.
  intros [Hblocked _ _ _ _ _ Husers Hseq _ _] Hledger Hlogs. split.
  - rewrite Hblocked. reflexivity.
  - exact Hledger.
  - exists []. rewrite app_nil_r, Hlogs. repeat split; constructor.
  - exists []. rewrite app_nil_r, Husers, Hseq.
    repeat split; [lia | constructor].
Qed.

(** ** The monad *)

Lemma preserving_ret {A : Type} (a : A) : preserving platform (ret a).
Proof. intros w. apply grows_refl. Qed.

Lemma preserving_throw {A : Type} (e : string) : preserving platform (@throw A e).
Proof. intros w. apply grows_refl. Qed.

Lemma preserving_lift {A : Type} (r : Result A) : preserving platform (lift r).
Proof. intros w. apply grows_refl. Qed.

Lemma preserving_gets {A : Type} (f : World → A) : preserving platform (gets f).
Proof. intros w. apply grows_refl. Qed.

Lemma preserving_bind {A B : Type} (m : M A) (k : A → M B) :
  preserving platform m → (∀ a, preserving platform (k a)) →
  preserving platform (bind m k).
Proof.
  intros Hm Hk w. unfold bind. specialize (Hm w).
  destruct (m w) as [[a|e] w1]; cbn [snd] in *.
  - eapply grows_trans; [exact Hm | apply Hk].
  - exact Hm.
Qed.

Lemma preserving_try_catch {A : Type} (body : M A) (handler : string → M A) :
  preserving platform body → (∀ e, preserving platform (handler e)) →
  preserving platform (try_catch body handler).
Proof.
  intros Hbody Hhandler w. unfold try_catch. specialize (Hbody w).
  destruct (body w) as [[a|e] w1]; cbn [snd] in *.
  - exact Hbody.
  - eapply grows_trans; [exact Hbody | apply Hhandler].
Qed.

Lemma preserving_modify (f : World → World) :
  (∀ w, grows platform w (f w)) → preserving platform (modify f).
Proof. intros Hf w. apply Hf. Qed.

Lemma preserving_Date_now : preserving platform (Date_now platform).
Proof. intros w. apply grows_volatile; simpl_world; reflexivity. Qed.

Lemma preserving_if {A : Type} (b : bool) (m1 m2 : M A) :
  preserving platform m1 → preserving platform m2 →
  preserving platform (if b then m1 else m2).
Proof. destruct b; auto. Qed.

End Growth.

Section Kept.

Context (platform : Platform).

Lemma grows_then {A : Type} (m : M A) (w w1 : World) :
  grows platform w w1 → preserving platform m → grows platform w (snd (m w1)).
Proof. intros Hfirst Hm. eapply grows_trans; [exact Hfirst | apply Hm]. Qed.

Lemma sealed_appended (eventType' : string) (data' : JsValue) (userId : option Z)
    (w : World) :
  sealed platform (appended_transaction platform eventType' data' userId w).
Proof.
  split; [reflexivity|]. unfold appended_transaction, append_insert, transaction_payload.
  cbn [data txHash ins_data ins_txHash]. eexists. split; reflexivity.
Qed.

Lemma grows_append (eventType' : string) (data' : JsValue) (userId : option Z) (w : World) :
  grows platform w (after_append platform eventType' data' userId w).
Proof.
  split; unfold after_append; simpl_world.
  - reflexivity.
  - exists [appended_transaction platform eventType' data' userId w].
    split; [reflexivity|]. split.
    + cbn [fmap list_fmap rising]. eexists. split; [reflexivity|]. lia.
    + constructor; [apply sealed_appended | constructor].
  - exists []. rewrite app_nil_r. repeat split; constructor.
  - exists []. rewrite app_nil_r. repeat split; [lia | constructor].
Qed.

Lemma preserving_createSecurityTransaction (eventType' : string) (data' : JsValue)
    (userId : option Z) :
  preserving platform (createSecurityTransaction platform eventType' data' userId).
Proof.
  intros w. destruct (append_taken platform eventType' data' userId w) eqn:Htaken.
  - rewrite (createSecurityTransaction_taken platform _ _ _ _ Htaken). cbn [snd].
    apply grows_append.
  - destruct (createSecurityTransaction_refused platform _ _ _ _ Htaken)
      as (e & seq' & -> & _).
    cbn [snd]. apply grows_volatile; simpl_world; try reflexivity; lia.
Qed.

(** A log row without a ledger hash whose anomaly flag goes with its risk
    level. *)
Lemma preserving_createSecurityLog (insertLog : InsertSecurityLog) :
  ins_blockchainHash insertLog = None →
  default false (ins_isAnomaly insertLog) =
    (String.eqb (stored 20 (ins_riskLevel insertLog)) "high" ||
     String.eqb (stored 20 (ins_riskLevel insertLog)) "critical") →
  preserving platform (storage_createSecurityLog platform insertLog).
Proof.
  intros Hnone Hflag w. destruct (log_takes insertLog w) eqn:Htaken.
  - rewrite (storage_createSecurityLog_taken platform _ _ Htaken). cbv zeta. cbn [snd].
    split; simpl_world.
    + reflexivity.
    + exists []. rewrite app_nil_r. cbn. repeat split; [lia | constructor].
    + eexists [_]. split; [reflexivity|]. split.
      * constructor; [|constructor]. unfold anomaly_flag_matches.
        cbn [isAnomaly riskLevel]. exact Hflag.
      * constructor; [|constructor]. intros h Hh. cbn [blockchainHash] in Hh. congruence.
    + exists []. rewrite app_nil_r. repeat split; [lia | constructor].
  - destruct (storage_createSecurityLog_refused platform _ _ Htaken) as (e & seq' & -> & _).
    cbn [snd]. apply grows_volatile; simpl_world; try reflexivity; lia.
Qed.

Lemma audit_taken_fits (userId : Z) (eventType' description riskLevel' : string)
    (w : World) :
  audit_taken platform userId eventType' description riskLevel' w = true →
  fits 20 riskLevel' = true.
Proof.
  unfold audit_taken, log_takes. cbn [audit_insert ins_userId ins_riskLevel ins_eventType].
  intros H. apply andb_prop in H as [_ H].
  do 3 (apply andb_prop in H as [H _]). apply andb_prop in H as [_ H]. exact H.
Qed.

Lemma grows_audit (userId : Z) (eventType' description riskLevel' : string) (w : World) :
  fits 20 riskLevel' = true →
  grows platform w (after_audit platform userId eventType' description riskLevel' w).
Proof.
  intros Hfit. split; unfold after_audit, after_append; simpl_world.
  - reflexivity.
  - exists [audit_transaction platform userId eventType' description riskLevel' w].
    split; [reflexivity|]. split.
    + cbn [fmap list_fmap rising]. eexists. split; [reflexivity|]. simpl_world. lia.
    + constructor; [apply sealed_appended | constructor].
  - exists [audit_log platform userId eventType' description riskLevel' w].
    split; [reflexivity|]. split.
    + constructor; [|constructor]. unfold anomaly_flag_matches, audit_log.
      cbn [isAnomaly riskLevel].
      rewrite !stored_eqb by (reflexivity || cbn; lia || exact Hfit). reflexivity.
    + constructor; [|constructor]. intros h Hh. cbn [audit_log blockchainHash] in Hh.
      injection Hh as <-.
      exists (audit_transaction platform userId eventType' description riskLevel' w).
      split; [apply elem_of_app; right; constructor | reflexivity].
  - exists []. rewrite app_nil_r. repeat split; [lia | constructor].
Qed.

Lemma preserving_createAuditTrail (userId : Z) (eventType' description riskLevel' : string) :
  preserving platform (createAuditTrail platform userId eventType' description riskLevel').
Proof.
  intros w.
  destruct (audit_taken platform userId eventType' description riskLevel' w) eqn:Htaken.
  - rewrite (createAuditTrail_taken platform _ _ _ _ _ Htaken). cbn [snd].
    apply grows_audit. apply (audit_taken_fits _ _ _ _ _ Htaken).
  - destruct (createAuditTrail_refused platform _ _ _ _ _ Htaken)
      as (e & w' & -> & _ & Hquiet & Hlogs & Hcount & Hledger).
    cbn [snd]. apply grows_quiet; [exact Hquiet | | exact Hlogs].
    destruct Hledger as [Hsame|Hrow].
    + exists []. rewrite app_nil_r. split; [exact Hsame|]. cbn. split; [lia | constructor].
    + eexists [_]. split; [exact Hrow|]. split.
      * cbn [fmap list_fmap rising]. eexists. split; [reflexivity|].
        unfold audit_transaction. simpl_world. lia.
      * constructor; [apply sealed_appended | constructor].
Qed.

End Kept.

(** Preservation through the monad: binds, handlers, branches and the
    steps that are known to preserve. *)
Ltac preserve_step lemmas :=
  lazymatch goal with
  | |- preserving _ ?m =>
      lazymatch m with
      | bind _ _ => apply preserving_bind; [|intros ?]
      | try_catch _ _ => apply preserving_try_catch; [|intros ?]
      | ret _ => apply preserving_ret
      | throw _ => apply preserving_throw
      | lift _ => apply preserving_lift
      | gets _ => apply preserving_gets
      | Date_now _ => apply preserving_Date_now
      | createSecurityTransaction _ _ _ _ => apply preserving_createSecurityTransaction
      | createAuditTrail _ _ _ _ _ => apply preserving_createAuditTrail
      | (if ?b then _ else _) => destruct b
      | (match ?x with _ => _ end) => destruct x
      | _ => lemmas
      end
  end.

Ltac preserve := repeat preserve_step fail.
Ltac preserve_with lemmas := repeat preserve_step lemmas.

Section FirewallKept.

Context (platform : Platform).

Lemma preserving_volatile (f : World → World) :
  (∀ w, blockedIPs w ⊆ blockedIPs (f w)) →
  (∀ w, blockchain_transactions (f w) = blockchain_transactions w) →
  (∀ w, currentBlockNumber (f w) = currentBlockNumber w) →
  (∀ w, security_logs (f w) = security_logs w) →
  (∀ w, users (f w) = users w) →
  (∀ w, users_id_seq (f w) = users_id_seq w) →
  preserving platform (modify f).
Proof.
  intros Hb Hl Hc Hs Hu Hq w. cbn [modify snd].
  apply grows_volatile; auto. - rewrite Hc. lia. - rewrite Hq. lia.
Qed.

Lemma preserving_blockIP (ipAddress reason : string) (userId : option Z) :
  preserving platform (blockIP platform ipAddress reason userId).
Proof.
  unfold blockIP. preserve.
  apply preserving_volatile; intros w; simpl_world; try reflexivity.
  apply union_subseteq_r.
Qed.

Lemma preserving_recordSuspiciousActivity (userId : string + Z)
    (activityType description ipAddress : string) :
  preserving platform
    (recordSuspiciousActivity platform userId activityType description ipAddress).
Proof.
  unfold recordSuspiciousActivity.
  preserve_with ltac:(first [ apply preserving_blockIP
                            | apply preserving_volatile; intros w; reflexivity ]).
Qed.

Lemma preserving_checkRateLimit (identifier ipAddress : string) :
  preserving platform (checkRateLimit platform identifier ipAddress).
Proof.
  unfold checkRateLimit.
  preserve_with ltac:(first [ apply preserving_recordSuspiciousActivity
                            | apply preserving_volatile; intros w; reflexivity ]).
Qed.

Lemma preserving_recordFailedAttempt (identifier ipAddress : string) :
  preserving platform (recordFailedAttempt platform identifier ipAddress).
Proof.
  unfold recordFailedAttempt.
  preserve_with ltac:(first [ apply preserving_blockIP
                            | apply preserving_volatile; intros w; reflexivity ]).
Qed.

Lemma preserving_clearFailedAttempts (identifier ipAddress : string) :
  preserving platform (clearFailedAttempts identifier ipAddress).
Proof.
  unfold clearFailedAttempts. apply preserving_volatile; intros w; reflexivity.
Qed.

Lemma preserving_detectIntrusion (userId : Z) (activity : string) (metadata : JsValue) :
  preserving platform (detectIntrusion platform userId activity metadata).
Proof. unfold detectIntrusion. preserve. Qed.

Lemma preserving_cleanupSecurityData : preserving platform (cleanupSecurityData platform).
Proof.
  unfold cleanupSecurityData.
  preserve_with ltac:(apply preserving_volatile; intros w; reflexivity).
Qed.

Lemma preserving_emergencyLockdown (reason : string) :
  preserving platform (emergencyLockdown platform reason).
Proof. unfold emergencyLockdown. preserve. Qed.

Lemma preserving_isIPBlocked (ipAddress : string) : preserving platform (isIPBlocked ipAddress).
Proof. apply preserving_gets. Qed.

End FirewallKept.

Section Callers.

Context (platform : Platform).

Lemma preserving_getUser (id : Z) : preserving platform (storage_getUser id).
Proof. unfold storage_getUser. preserve. Qed.

Lemma preserving_getUserByUsername (name : string) :
  preserving platform (storage_getUserByUsername name).
Proof. unfold storage_getUserByUsername. preserve. Qed.

Lemma preserving_getUserByEmail (address : string) :
  preserving platform (storage_getUserByEmail address).
Proof. unfold storage_getUserByEmail. preserve. Qed.

Lemma preserving_verifyTransaction (h : string) :
  preserving platform (verifyTransaction platform h).
Proof.
  unfold verifyTransaction, storage_getBlockchainTransaction.
  preserve_with ltac:(apply preserving_createSecurityLog; reflexivity).
Qed.

Lemma preserving_validate_transactions (txs : list BlockchainTransaction)
    (corrupted : list string) :
  preserving platform (validate_transactions platform txs corrupted).
Proof.
  revert corrupted. induction txs as [|row txs IH]; intros corrupted;
    cbn [validate_transactions].
  - apply preserving_ret.
  - preserve_with ltac:(first [ apply IH
                              | apply preserving_createSecurityLog; reflexivity ]).
Qed.

Lemma preserving_validateChainIntegrity :
  preserving platform (validateChainIntegrity platform).
Proof.
  unfold validateChainIntegrity, getAllTransactions, storage_getAllBlockchainTransactions.
  preserve_with ltac:(apply preserving_validate_transactions).
Qed.

Lemma preserving_recordMessageOnChain (messageId : string) (senderId recipientId : Z)
    (messageHash : string) :
  preserving platform
    (recordMessageOnChain platform messageId senderId recipientId messageHash).
Proof. unfold recordMessageOnChain. preserve. Qed.

Lemma account_apply_updates (updates : UserUpdates) (now : Z) (u : User) :
  account (apply_updates updates now u) = account u.
Proof. reflexivity. Qed.

Lemma preserving_updateUser (id : Z) (updates : UserUpdates) :
  preserving platform (storage_updateUser platform id updates).
Proof.
  intros w. unfold storage_updateUser. unfold bind at 1. unfold Date_now at 1.
  destruct (negb (int4 id)).
  { cbn [throw snd]. apply grows_volatile; simpl_world; reflexivity. }
  unfold bind at 1. unfold gets at 1. unfold bind at 1. unfold modify at 1.
  simpl_world.
  match goal with
  | |- grows platform w (snd (?k ?w1)) => apply (grows_then platform k w w1)
  end.
  - split; simpl_world.
    + reflexivity.
    + exists []. rewrite app_nil_r. cbn. repeat split; [lia | constructor].
    + exists []. rewrite app_nil_r. repeat split; constructor.
    + exists []. rewrite app_nil_r. split; [|split; [lia | constructor]].
      rewrite <- list_fmap_compose. apply list_fmap_ext. intros i u _. cbn [compose].
      destruct (bool_decide (user_id u = id)); reflexivity.
  - preserve_with ltac:(apply preserving_createSecurityLog; reflexivity).
Qed.

Lemma preserving_generateKeyPair : preserving platform (generateKeyPair platform).
Proof. intros w. cbn [generateKeyPair snd]. apply grows_volatile; simpl_world; reflexivity. Qed.

Lemma preserving_registerUserOnChain (userId : Z) (userData : JsValue) :
  preserving platform (registerUserOnChain platform userId userData).
Proof.
  unfold registerUserOnChain.
  preserve_with ltac:(first [ apply preserving_generateKeyPair
                            | apply preserving_updateUser ]).
Qed.

Lemma preserving_nextval_users :
  preserving platform (nextval users_id_seq set_users_id_seq).
Proof.
  intros w. unfold nextval. destruct (int4 (users_id_seq w + 1)); cbn [snd].
  - apply grows_volatile; simpl_world; try reflexivity. lia.
  - apply grows_refl.
Qed.

Lemma preserving_createUser (insertUser : InsertUser) :
  preserving platform (storage_createUser platform insertUser).
Proof.
  intros w. unfold storage_createUser.
  unfold bind at 1. unfold Date_now at 1. unfold bind at 1. unfold Date_now at 1.
  simpl_world.
  assert (Hclock : ∀ n, grows platform w (set_clock_reads n w))
    by (intros n; apply grows_volatile; simpl_world; reflexivity).
  destruct (negb (int4_or_null (ins_securityScore insertUser))); [apply Hclock|].
  destruct (varchar 50 (ins_username insertUser)) as [username'|]; [|apply Hclock].
  destruct (varchar 100 (ins_email insertUser)) as [email'|]; [|apply Hclock].
  destruct (varchar_or_null 100 (ins_displayName insertUser)) as [displayName'|];
    [|apply Hclock].
  unfold bind at 1. unfold nextval at 1. simpl_world.
  destruct (int4 (users_id_seq w + 1)); [|apply Hclock].
  unfold bind at 1. unfold gets at 1. simpl_world.
  unfold bind at 1. unfold gets at 1. simpl_world.
  destruct (_ || _).
  { cbn [throw snd]. apply grows_volatile; simpl_world; try reflexivity. lia. }
  unfold bind at 1. unfold modify at 1. simpl_world.
  match goal with
  | |- grows platform w (snd (?k ?w1)) => apply (grows_then platform k w w1)
  end.
  - split; simpl_world.
    + reflexivity.
    + exists []. rewrite app_nil_r. cbn. repeat split; [lia | constructor].
    + exists []. rewrite app_nil_r. repeat split; constructor.
    + eexists [_]. rewrite fmap_app. split; [reflexivity|]. split; [lia|].
      constructor; [|constructor]. cbn [account account_id user_id]. lia.
  - preserve_with ltac:(apply preserving_createSecurityLog; reflexivity).
Qed.

Lemma preserving_Date_when (condition : bool) :
  preserving platform (Date_when platform condition).
Proof. unfold Date_when. preserve. Qed.

Lemma preserving_permissions (f : World → list Permission) :
  preserving platform (modify (λ w, set_permissions (f w) w)).
Proof. apply preserving_volatile; intros w; reflexivity. Qed.

Lemma preserving_nextval_permissions :
  preserving platform (nextval permissions_id_seq set_permissions_id_seq).
Proof.
  intros w. unfold nextval. destruct (int4 (permissions_id_seq w + 1)); cbn [snd].
  - apply grows_volatile; simpl_world; reflexivity.
  - apply grows_refl.
Qed.

Lemma preserving_updatePermission (userId : Z) (permissionType' : string) (isGranted' : bool) :
  preserving platform (storage_updatePermission platform userId permissionType' isGranted').
Proof.
  unfold storage_updatePermission.
  preserve_with ltac:(first
    [ apply preserving_Date_when
    | apply preserving_nextval_permissions
    | apply (preserving_permissions (λ _, _))
    | apply preserving_createSecurityLog; [reflexivity | destruct isGranted'; reflexivity]
    | apply preserving_createSecurityLog; reflexivity ]).
Qed.

Lemma preserving_checkPermissionSecurity (userId : Z) (permissionType : string)
    (context : JsValue) :
  preserving platform (checkPermissionSecurity platform userId permissionType context).
Proof.
  unfold checkPermissionSecurity.
  preserve_with ltac:(apply preserving_getUser).
Qed.

Lemma preserving_generateAuthToken (userId : Z) :
  preserving platform (generateAuthToken platform userId).
Proof.
  unfold generateAuthToken.
  preserve_with ltac:(intros w; cbn [snd]; apply grows_volatile; simpl_world; reflexivity).
Qed.

Lemma preserving_setItemAsync (key value : string) :
  preserving platform (SecureStore_setItemAsync key value).
Proof. apply preserving_volatile; intros w; reflexivity. Qed.

Lemma preserving_bcrypt_hash (password : string) :
  preserving platform (bcrypt_hash_12 platform password).
Proof. intros w. cbn [bcrypt_hash_12 snd]. apply grows_volatile; simpl_world; reflexivity. Qed.

Lemma preserving_register (username' email' password ipAddress : string) :
  preserving platform (register platform username' email' password ipAddress).
Proof.
  unfold register.
  preserve_with ltac:(first
    [ apply preserving_checkRateLimit | apply preserving_getUserByUsername
    | apply preserving_getUserByEmail | apply preserving_recordSuspiciousActivity
    | apply preserving_bcrypt_hash | apply preserving_createUser
    | apply preserving_registerUserOnChain | apply preserving_updatePermission
    | apply preserving_generateAuthToken | apply preserving_setItemAsync ]).
Qed.

Lemma preserving_login (username' password ipAddress : string) :
  preserving platform (login platform username' password ipAddress).
Proof.
  unfold login.
  preserve_with ltac:(first
    [ apply preserving_isIPBlocked | apply preserving_checkRateLimit
    | apply preserving_getUserByUsername | apply preserving_recordFailedAttempt
    | apply preserving_clearFailedAttempts | apply preserving_detectIntrusion
    | apply preserving_updateUser | apply preserving_generateAuthToken
    | apply preserving_setItemAsync ]).
Qed.

Lemma grows_after_request (request : Request) (w : World) :
  grows platform w (after_request platform request w).
Proof.
  destruct request; cbn [after_request].
  - apply preserving_createSecurityTransaction.
  - apply preserving_registerUserOnChain.
  - apply preserving_recordMessageOnChain.
  - apply preserving_createAuditTrail.
  - apply preserving_verifyTransaction.
  - apply preserving_validateChainIntegrity.
  - apply preserving_blockIP.
  - apply preserving_checkRateLimit.
  - apply preserving_recordFailedAttempt.
  - apply preserving_clearFailedAttempts.
  - apply preserving_recordSuspiciousActivity.
  - apply preserving_checkPermissionSecurity.
  - apply preserving_detectIntrusion.
  - apply preserving_cleanupSecurityData.
  - apply preserving_emergencyLockdown.
  - apply preserving_updatePermission.
  - apply preserving_register.
  - apply preserving_login.
Qed.

Lemma grows_after_requests (requests : list Request) (w : World) :
  grows platform w (after_requests platform requests w).
Proof.
  unfold after_requests. revert w.
  induction requests as [|request requests IH]; intros w; cbn [fold_left].
  - apply grows_refl.
  - eapply grows_trans; [apply grows_after_request | apply IH].
Qed.

End Callers.

Section Rising.

Lemma rising_bounds (k k' : Z) (numbers : list (option Z)) :
  rising k numbers k' →
  k <= k' ∧ Forall (λ n, ∃ m, n = Some m ∧ k < m <= k') numbers.
Proof.
  revert k. induction numbers as [|n rest IH]; intros k; cbn [rising].
  - intros Hle. split; [exact Hle | constructor].
  - intros (m & -> & Hlt & Hrest). destruct (IH m Hrest) as [Hle Hall].
    split; [lia|]. constructor.
    + exists m. split; [reflexivity | lia].
    + eapply Forall_impl; [exact Hall|]. cbn beta. intros n (m' & -> & Hm').
      exists m'. split; [reflexivity | lia].
Qed.

Lemma rising_NoDup (k k' : Z) (numbers : list (option Z)) :
  rising k numbers k' → NoDup numbers.
Proof.
  revert k. induction numbers as [|n rest IH]; intros k; cbn [rising].
  - intros _. constructor.
  - intros (m & -> & Hlt & Hrest). constructor; [|apply (IH m Hrest)].
    intros Hin. destruct (rising_bounds _ _ _ Hrest) as [_ Hall].
    rewrite Forall_forall in Hall. destruct (Hall _ Hin) as (m' & Hm' & Hlt').
    injection Hm' as <-. lia.
Qed.

End Rising.

(** X1. No request takes an address off the block list: whatever requests
    are served, to the two services, to the permission store or to
    registration and login, in whatever order and whether they return or
    throw, every address that was blocked is blocked afterwards, and
    [isIPBlocked] keeps answering true for it. *)
Theorem blocked_addresses_stay_blocked (platform : Platform) (requests : list Request)
    (w : World) :
  blockedIPs w ⊆ blockedIPs (after_requests platform requests w) ∧
  ∀ ipAddress,
    fst (isIPBlocked ipAddress w) = Ok true →
    fst (isIPBlocked ipAddress (after_requests platform requests w)) = Ok true.
Proof.
  pose proof (grows_blocked _ _ _ (grows_after_requests platform requests w)) as Hsub.
  split; [exact Hsub|].
  intros ipAddress. unfold isIPBlocked, gets. cbn [fst].
  intros Hb. injection Hb as Hb. apply bool_decide_eq_true in Hb.
  f_equal. apply bool_decide_eq_true. apply Hsub. exact Hb.
Qed.

(** X2. No request rewrites or deletes a ledger row: over any run of
    requests the ledger only gains rows at its end. Every new row is
    confirmed and is stored under the digest of the object that was handed
    to the database; the block numbers of the new rows are strictly
    increasing, so none occurs twice, and lie above the counter the run
    started from and at most at the counter it ends with. Numbers may be
    left out: an append that the store refused has used one. *)
Theorem ledger_is_append_only (platform : Platform) (requests : list Request) (w : World) :
  ∃ rows,
    blockchain_transactions (after_requests platform requests w) =
      blockchain_transactions w ++ rows ∧
    rising (currentBlockNumber w) (blockNumber <$> rows)
      (currentBlockNumber (after_requests platform requests w)) ∧
    NoDup (blockNumber <$> rows) ∧
    Forall (λ number, ∃ m, number = Some m ∧
              currentBlockNumber w < m <=
                currentBlockNumber (after_requests platform requests w))
      (blockNumber <$> rows) ∧
    Forall (λ row, isConfirmed row = true ∧
                   ∃ props, data row = db_jsonb platform (JObject props) ∧
                            txHash row = payload_hash (JObject props)) rows.
Proof.
  destruct (grows_ledger _ _ _ (grows_after_requests platform requests w))
    as (rows & Hrows & Hnum & Hsealed).
  exists rows. split; [exact Hrows|]. split; [exact Hnum|].
  split; [apply (rising_NoDup _ _ _ Hnum)|].
  split; [apply (rising_bounds _ _ _ Hnum) | exact Hsealed].
Qed.

(** X3. No request rewrites or deletes a security log row: over any run of
    requests the log only gains rows at its end. Every new row is flagged
    as an anomaly exactly when its risk level is high or critical, and a new
    row that carries a ledger hash carries the hash of a row that is in the
    ledger. *)
Theorem security_log_is_append_only (platform : Platform) (requests : list Request)
    (w : World) :
  ∃ logs,
    security_logs (after_requests platform requests w) = security_logs w ++ logs ∧
    Forall (λ l, isAnomaly l =
                 (String.eqb (riskLevel l) "high" || String.eqb (riskLevel l) "critical"))
      logs ∧
    Forall (λ l, ∀ h, blockchainHash l = Some h →
                      ∃ row,
                        row ∈ blockchain_transactions (after_requests platform requests w) ∧
                        txHash row = h) logs.
Proof.
  destruct (grows_logs _ _ _ (grows_after_requests platform requests w))
    as (logs & Hlogs & Hflags & Hlinks).
  exists logs. split; [exact Hlogs|]. split; [exact Hflags | exact Hlinks].
Qed.

(** X4. In every state reached from a fresh process over empty tables,
    the block numbers of the ledger rows are strictly increasing from 1 on
    and none exceeds the in-memory counter, so no block number is given
    twice; the counter is at least the number of rows. *)
Theorem reachable_ledger_numbering (platform : Platform) (requests : list Request) :
  let w := after_requests platform requests initial_world in
  rising 0 (blockNumber <$> blockchain_transactions w) (currentBlockNumber w) ∧
  NoDup (blockNumber <$> blockchain_transactions w) ∧
  Forall (λ number, ∃ m, number = Some m ∧ 1 <= m <= currentBlockNumber w)
    (blockNumber <$> blockchain_transactions w).
Proof.
  intros w.
  destruct (grows_ledger _ _ _ (grows_after_requests platform requests initial_world))
    as (rows & Hrows & Hnum & _).
  fold w in Hrows, Hnum. cbn [initial_world blockchain_transactions app] in Hrows.
  cbn [initial_world currentBlockNumber] in Hnum. rewrite Hrows.
  split; [exact Hnum|]. split; [apply (rising_NoDup _ _ _ Hnum)|].
  destruct (rising_bounds _ _ _ Hnum) as [_ Hall].
  eapply Forall_impl; [exact Hall|]. cbn beta. intros n (m & -> & Hm).
  exists m. split; [reflexivity | lia].
Qed.

(** X23. Accounts are kept. Over any run of requests the users table only
    gains rows at its end, no row having its id, user name, e-mail address,
    password hash or security score changed, and the rows gained carry ids
    that the sequence of the table has handed out during the run. *)
Theorem accounts_are_kept (platform : Platform) (requests : list Request) (w : World) :
  ∃ added,
    account <$> users (after_requests platform requests w) =
      (account <$> users w) ++ added ∧
    users_id_seq w <= users_id_seq (after_requests platform requests w) ∧
    Forall (λ a, users_id_seq w < account_id a <=
                 users_id_seq (after_requests platform requests w)) added.
Proof. apply (grows_users _ _ _ (grows_after_requests platform requests w)). Qed.

(** X30. In every state reached from a fresh process over empty tables the
    ids of the users are positive and at most the last id the sequence has
    handed out: no user has id 0, the id under which the firewall writes its
    audit records. *)
Theorem reachable_users_have_positive_ids (platform : Platform) (requests : list Request) :
  Forall (λ u, 1 <= user_id u <=
               users_id_seq (after_requests platform requests initial_world))
    (users (after_requests platform requests initial_world)) ∧
  no_user_zero (after_requests platform requests initial_world).
Proof.
  destruct (grows_users _ _ _ (grows_after_requests platform requests initial_world))
    as (added & Husers & Hseq & Hids).
  cbn [initial_world users fmap list_fmap app users_id_seq] in Husers, Hids.
  assert (Hall : Forall (λ u, 1 <= user_id u <=
                              users_id_seq (after_requests platform requests initial_world))
                   (users (after_requests platform requests initial_world))).
  { apply Forall_forall. intros u Hu.
    assert (Ha : account u ∈ added).
    { rewrite <- Husers. apply list_elem_of_fmap. exists u. auto. }
    rewrite Forall_forall in Hids. specialize (Hids _ Ha). cbn [account account_id] in Hids.
    lia. }
  split; [exact Hall|].
  unfold no_user_zero. intros Hin. apply list_elem_of_fmap in Hin as (u & Hzero & Hu).
  rewrite Forall_forall in Hall. specialize (Hall _ Hu). lia.
Qed.

(** X31. The firewall cannot write its audit records. In every state
    reached from a fresh process over empty tables, an audit record for
    user 0 is refused by the store, and so blockIP without a user,
    recordFailedAttempt, recordSuspiciousActivity for a string identifier
    and emergencyLockdown all throw, whatever their arguments, and leave
    the security log as it was. *)
Theorem firewall_audits_are_refused (platform : Platform) (requests : list Request) :
  let w := after_requests platform requests initial_world in
  (∀ eventType' description riskLevel',
     audit_taken platform 0 eventType' description riskLevel' w = false) ∧
  (∀ ipAddress reason, ∃ e w',
     blockIP platform ipAddress reason None w = (Throw e, w') ∧
     e ∈ store_refusals ∧ security_logs w' = security_logs w) ∧
  (∀ identifier ipAddress, ∃ e w',
     recordFailedAttempt platform identifier ipAddress w = (Throw e, w') ∧
     e ∈ store_refusals ∧ security_logs w' = security_logs w) ∧
  (∀ name activityType description ipAddress, ∃ e w',
     recordSuspiciousActivity platform (inl name) activityType description ipAddress w =
       (Throw e, w') ∧
     e ∈ store_refusals ∧ security_logs w' = security_logs w) ∧
  (∀ reason, ∃ e w',
     emergencyLockdown platform reason w = (Throw e, w') ∧
     e ∈ store_refusals ∧ security_logs w' = security_logs w).
Proof.
  intros w.
  assert (Hno : no_user_zero w).
  { destruct (grows_users _ _ _ (grows_after_requests platform requests initial_world))
      as (added & Husers & Hseq & Hids).
    fold w in Husers, Hids.
    cbn [initial_world users fmap list_fmap app users_id_seq] in Husers, Hids.
    unfold no_user_zero. intros Hin. apply list_elem_of_fmap in Hin as (u & Hzero & Hu).
    assert (Ha : account u ∈ added).
    { rewrite <- Husers. apply list_elem_of_fmap. exists u. auto. }
    rewrite Forall_forall in Hids. specialize (Hids _ Ha). cbn [account account_id] in Hids.
    lia. }
  split; [intros; apply audit_refused_unknown_user; exact Hno|].
  split.
  { intros ipAddress reason.
    destruct (blockIP_unaudited platform ipAddress reason w Hno)
      as (e & w' & Hrun & He & _ & _ & _ & _ & _ & Hlogs).
    exists e, w'. auto. }
  split.
  { intros identifier ipAddress.
    destruct (recordFailedAttempt_unaudited platform identifier ipAddress w Hno)
      as (e & w' & Hrun & He & _ & _ & _ & _ & _ & Hlogs).
    exists e, w'. auto. }
  split.
  { intros name activityType description ipAddress.
    destruct (recordSuspiciousActivity_unaudited platform name activityType description
                ipAddress w Hno)
      as (e & w' & Hrun & He & _ & _ & _ & _ & _ & Hlogs).
    exists e, w'. auto. }
  intros reason. unfold emergencyLockdown, bind.
  destruct (createAuditTrail_refused platform 0 "emergency_lockdown"
              ("Emergency lockdown activated: " +:+ reason) "critical" w)
    as (e & w' & -> & He & _ & Hlogs & _).
  { apply audit_refused_unknown_user. exact Hno. }
  exists e, w'. auto.
Qed.

(** * Further properties of the hash and of the ciphers *)

(** X17. The transaction hash does not depend on the order in which the
    keys of a payload were inserted, at any depth: two values that are equal
    up to the order of the keys of their objects, the keys of an object
    being distinct, have the same canonical text and the same hash. *)
Theorem hash_independent_of_key_order (a b : JsValue) :
  key_reorder a b →
  canonical_string a = canonical_string b ∧
  generateTransactionHash a = generateTransactionHash b.
Proof. apply hash_key_order_independent. Qed.

Lemma hash_independent_of_key_order_sample :
  generateTransactionHash
    (JObject [ ("userId", JNumber 7);
               ("data", JObject [("timestamp", JNumber 5); ("userId", JNumber 7)]) ]) =
  generateTransactionHash
    (JObject [ ("data", JObject [("userId", JNumber 7); ("timestamp", JNumber 5)]);
               ("userId", JNumber 7) ]).
Proof.
  apply hash_independent_of_key_order.
  apply (reorder_object _
           [ ("data", JObject [("timestamp", JNumber 5); ("userId", JNumber 7)]);
             ("userId", JNumber 7) ]).
  - apply (bool_decide_unpack _). vm_compute. reflexivity.
  - apply perm_swap.
  - constructor; [split; [reflexivity|] | repeat constructor].
    apply (reorder_object _ [("userId", JNumber 7); ("timestamp", JNumber 5)]).
    + apply (bool_decide_unpack _). vm_compute. reflexivity.
    + apply perm_swap.
    + repeat constructor.
Defined.

(** * Properties of the callers *)

Section Pruning.

Lemma prune_array (keys : list string) (xs : list JsValue) :
  prune keys (JArray xs) = JArray (prune keys <$> xs).
Proof. reflexivity. Qed.

Lemma prune_object (keys : list string) (props : list (string * JsValue)) :
  prune keys (JObject props) =
  JObject ((λ kv, (kv.1, prune keys kv.2)) <$> filter (λ kv, kv.1 ∈ keys) props).
Proof.
  cbn [prune]. f_equal. induction props as [|[k x] props IH]; [reflexivity|].
  rewrite filter_cons. cbn [fst]. rewrite IH.
  destruct (decide (k ∈ keys)) as [Hin|Hout].
  - rewrite bool_decide_eq_true_2 by exact Hin. reflexivity.
  - rewrite bool_decide_eq_false_2 by exact Hout. reflexivity.
Qed.

Lemma assoc_get_fmap {A B : Type} (f : A → B) (k : string) (ps : list (string * A)) :
  assoc_get k ((λ kv, (kv.1, f kv.2)) <$> ps) = f <$> assoc_get k ps.
Proof.
  induction ps as [|[k' x] ps IH]; [reflexivity|].
  cbn [fmap list_fmap assoc_get fst snd]. destruct (String.eqb k k'); [reflexivity | exact IH].
Qed.

Lemma assoc_get_filter_keys {A : Type} (keys : list string) (k : string)
    (ps : list (string * A)) :
  k ∈ keys → assoc_get k (filter (λ kv, kv.1 ∈ keys) ps) = assoc_get k ps.
Proof.
  intros Hin. induction ps as [|[k' x] ps IH]; [reflexivity|].
  rewrite filter_cons. cbn [fst]. destruct (decide (k' ∈ keys)) as [Hk'|Hk'].
  - cbn [assoc_get]. destruct (String.eqb k k'); [reflexivity | exact IH].
  - cbn [assoc_get]. destruct (String.eqb k k') eqn:Heq; [|exact IH].
    apply String.eqb_eq in Heq. subst k'. contradiction.
Qed.

Lemma object_members_agree (plist : list string)
    (sprops sprops' : list (string * option string)) :
  (∀ k, k ∈ plist → assoc_get k sprops = assoc_get k sprops') →
  object_members plist sprops = object_members plist sprops'.
Proof.
  induction plist as [|P plist IH]; intros Hagree; [reflexivity|].
  cbn [object_members]. rewrite (Hagree P) by constructor.
  rewrite IH by (intros k Hk; apply Hagree; constructor; exact Hk). reflexivity.
Qed.

(** Serialization under a property list does not see what pruning to a
    larger list of keys removes. *)
Lemma SerializeJSONProperty_prune (plist keys : list string) :
  (∀ k, k ∈ plist → k ∈ keys) →
  ∀ v, SerializeJSONProperty plist (prune keys v) = SerializeJSONProperty plist v.
Proof.
  intros Hsub v. induction v as [| | b | n | s | xs IH | props IH] using JsValue_nested_ind;
    try reflexivity.
  - rewrite prune_array, !SerializeJSONProperty_array. do 4 f_equal.
    rewrite <- list_fmap_compose. apply Forall_fmap_ext_1.
    eapply Forall_impl; [exact IH|]. intros x Hx. cbn [compose]. rewrite Hx. reflexivity.
  - rewrite prune_object, !SerializeJSONProperty_object. do 4 f_equal.
    apply object_members_agree. intros k Hk.
    rewrite <- list_fmap_compose.
    rewrite (assoc_get_fmap (λ x, SerializeJSONProperty plist (prune keys x))).
    rewrite (assoc_get_fmap (SerializeJSONProperty plist)).
    rewrite assoc_get_filter_keys by (apply Hsub; exact Hk).
    clear Hk. induction IH as [|[k' x] props Hx _ IHprops]; [reflexivity|].
    cbn [assoc_get]. destruct (String.eqb k k'); [|exact IHprops].
    cbn [fmap option_fmap option_map]. cbn [snd] in Hx. rewrite Hx. reflexivity.
Qed.

Lemma property_list_subset (replacer acc : list string) (k : string) :
  k ∈ property_list replacer acc → k ∈ replacer ∨ k ∈ acc.
Proof.
  revert acc. induction replacer as [|r replacer IH]; intros acc Hin; [right; exact Hin|].
  cbn [property_list] in Hin. destruct (bool_decide (r ∈ acc)).
  - destruct (IH acc Hin) as [H|H]; [left; constructor; exact H | right; exact H].
  - destruct (IH _ Hin) as [H|H]; [left; constructor; exact H|].
    apply elem_of_app in H as [H|H]; [right; exact H|].
    apply list_elem_of_singleton in H. subst k. left. constructor.
Qed.

Lemma filter_all {A : Type} (P : A → Prop) `{∀ x, Decision (P x)} (l : list A) :
  Forall P l → filter P l = l.
Proof.
  induction 1 as [|x l Hx _ IH]; [reflexivity|].
  rewrite filter_cons_True by exact Hx. rewrite IH. reflexivity.
Qed.

Lemma Object_keys_prune (v : JsValue) (keys : list string) :
  Object_keys v = Ok keys → Object_keys (prune keys v) = Ok keys.
Proof.
  destruct v as [| | b | n | s | xs | props]; cbn [Object_keys]; try (intros H; exact H).
  - intros H. rewrite prune_array. cbn [Object_keys]. rewrite length_fmap. exact H.
  - intros H. injection H as <-. rewrite prune_object. cbn [Object_keys]. f_equal.
    rewrite filter_all.
    + rewrite <- list_fmap_compose. apply list_fmap_ext. intros i [k x] _. reflexivity.
    + apply Forall_forall. intros kv Hin. apply list_elem_of_fmap. exists kv. auto.
Qed.

(** X24. The hash of a payload reads, below the top level, only members
    whose names are also top-level keys: removing from a payload every
    nested member, at any depth, whose name is not one of its top-level
    keys changes neither the canonical text nor the hash. What
    [verifyTransaction] and [validateChainIntegrity] compare is therefore
    blind to every such member. *)
Theorem hash_reads_only_top_level_names (v : JsValue) :
  canonical_string (prune_nested v) = canonical_string v ∧
  generateTransactionHash (prune_nested v) = generateTransactionHash v.
Proof.
  assert (Hcanon : canonical_string (prune_nested v) = canonical_string v).
  { unfold prune_nested. destruct (Object_keys v) as [keys|e] eqn:Hkeys; [|reflexivity].
    unfold canonical_string. rewrite (Object_keys_prune v keys Hkeys), Hkeys.
    unfold JSON_stringify. rewrite SerializeJSONProperty_prune; [reflexivity|].
    intros k Hk. apply property_list_subset in Hk as [Hk|Hk]; [|inversion Hk].
    unfold Array_sort in Hk. rewrite merge_sort_Permutation in Hk. exact Hk. }
  split; [exact Hcanon|]. unfold generateTransactionHash. rewrite Hcanon. reflexivity.
Qed.

End Pruning.

(** X25. The ledger entry of a registration does not commit to the key: the
    text hashed for a user_registration transaction holds the user id, the
    two time stamps and the block number only, so two registration payloads
    that differ in the public key or in the registration data have the same
    transaction hash. *)
Theorem registration_record_ignores_public_key (userId : Z)
    (publicKey1 publicKey2 : string) (userData1 userData2 : JsValue)
    (timestamp txTimestamp blockNumber' : Z) :
  canonical_string
    (transaction_payload "user_registration"
       (registration_payload userId publicKey1 userData1 timestamp)
       (Some userId) txTimestamp blockNumber') =
  Ok (hashed_registration_text userId timestamp txTimestamp blockNumber') ∧
  generateTransactionHash
    (transaction_payload "user_registration"
       (registration_payload userId publicKey1 userData1 timestamp)
       (Some userId) txTimestamp blockNumber') =
  generateTransactionHash
    (transaction_payload "user_registration"
       (registration_payload userId publicKey2 userData2 timestamp)
       (Some userId) txTimestamp blockNumber').
Proof.
  assert (Hcanon : ∀ publicKey' userData,
    canonical_string
      (transaction_payload "user_registration"
         (registration_payload userId publicKey' userData timestamp)
         (Some userId) txTimestamp blockNumber') =
    Ok (hashed_registration_text userId timestamp txTimestamp blockNumber')).
  { intros publicKey' userData.
    unfold canonical_string, transaction_payload, registration_payload, JSON_stringify.
    cbn [Object_keys fmap list_fmap fst].
    replace (Array_sort ["eventType"; "data"; "userId"; "timestamp"; "blockNumber"])
      with ["blockNumber"; "data"; "eventType"; "timestamp"; "userId"]
      by (vm_compute; reflexivity).
    replace (property_list ["blockNumber"; "data"; "eventType"; "timestamp"; "userId"] [])
      with ["blockNumber"; "data"; "eventType"; "timestamp"; "userId"]
      by (vm_compute; reflexivity).
    cbn [SerializeJSONProperty object_members assoc_get String.eqb Ascii.eqb Bool.eqb
         from_option].
    reflexivity. }
  split; [apply Hcanon|].
  unfold generateTransactionHash. rewrite !Hcanon. reflexivity.
Qed.

(** X14. What [encryptData] returns, [decryptData] called with the same key
    argument turns back into the data, and what [encryptPrivateKey] returns,
    [decryptPrivateKey] turns back into the private key, whenever AES
    decryption undoes AES encryption under one non-empty key: the two
    functions of each pair choose their key in the same way. *)
Theorem encrypt_decrypt_round_trip (platform : Platform) :
  (∀ plain key, key ≠ EmptyString →
     AES_decrypt_utf8 platform (AES_encrypt platform plain key) key = Ok plain) →
  (∀ data' key cipher,
     encryptData platform data' key = Ok cipher →
     decryptData platform cipher key = data') ∧
  (∀ privateKey cipher,
     encryptPrivateKey platform privateKey = Ok cipher →
     decryptPrivateKey platform cipher = Ok privateKey).
Proof.
  intros Haes. split.
  - intros data' key cipher. unfold encryptData, decryptData.
    destruct (string_falsy (string_or key (process_env platform "ENCRYPTION_KEY")))
      eqn:Hfalsy; [discriminate|].
    destruct (string_falsy_present _ Hfalsy) as (k & Hk & Hne).
    rewrite Hk. cbn [default from_option id]. intros Hcipher. injection Hcipher as <-.
    rewrite (Haes data' k Hne). reflexivity.
  - intros privateKey cipher. unfold encryptPrivateKey, decryptPrivateKey.
    destruct (string_falsy (process_env platform "MASTER_ENCRYPTION_KEY"))
      eqn:Hfalsy; [discriminate|].
    destruct (string_falsy_present _ Hfalsy) as (k & Hk & Hne).
    rewrite Hk. cbn [default from_option id]. intros Hcipher. injection Hcipher as <-.
    apply Haes. exact Hne.
Qed.

Lemma encrypt_decrypt_round_trip_sample :
  decryptData transparent_platform "token" None = "token" ∧
  decryptPrivateKey transparent_platform "secret" = Ok "secret".
Proof.
  destruct (encrypt_decrypt_round_trip transparent_platform) as [Hdata Hkey].
  - intros plain key _. reflexivity.
  - split.
    + apply (Hdata "token" None "token"). reflexivity.
    + apply (Hkey "secret" "secret"). reflexivity.
Defined.

(** * Verification *)

Section Verification.

Context (platform : Platform).

Lemma createSecurityLog_after_log (insertLog : InsertSecurityLog) (w : World) :
  log_takes insertLog w = true →
  storage_createSecurityLog platform insertLog w =
  (Ok (logged platform insertLog w), after_log platform insertLog w).
Proof. intros H. rewrite storage_createSecurityLog_taken by exact H. reflexivity. Qed.

(** What [verifyTransaction] does on a confirmed row whose payload is an
    object: it answers whether the recomputed digest equals the hash asked
    for; when it does not, it hands one critical log row to the store, and
    answers false whether the store takes the row or refuses it. *)
Lemma verifyTransaction_confirmed (h : string) (w : World) (row : BlockchainTransaction)
    (props : list (string * JsValue)) :
  head (filter (λ t, txHash t = h) (blockchain_transactions w)) = Some row →
  isConfirmed row = true →
  data row = JObject props →
  verifyTransaction platform h w =
  if String.eqb (payload_hash (data row)) h then (Ok true, w)
  else (Ok false, snd (storage_createSecurityLog platform (tampering_log h row) w)).
Proof.
  intros Hrow Hconf Hdata.
  unfold verifyTransaction, try_catch, storage_getBlockchainTransaction.
  unfold bind at 1. unfold bind at 1. unfold gets at 1. unfold ret at 1.
  rewrite Hrow, Hconf. cbn [negb].
  unfold bind at 1. unfold lift at 1. rewrite Hdata, generateTransactionHash_object.
  destruct (String.eqb (payload_hash (JObject props)) h); cbn [negb]; [reflexivity|].
  unfold bind at 1. unfold bind at 1.
  match goal with
  | |- context [storage_createSecurityLog platform ?i w] =>
      change i with (tampering_log h row)
  end.
  destruct (storage_createSecurityLog platform (tampering_log h row) w) as [[l|e] w'];
    reflexivity.
Qed.

(** A row that is missing or not confirmed is answered with [false] and
    no log row. *)
Lemma verifyTransaction_unconfirmed (h : string) (w : World) :
  match head (filter (λ t, txHash t = h) (blockchain_transactions w)) with
  | None => True
  | Some row => isConfirmed row = false
  end →
  verifyTransaction platform h w = (Ok false, w).
Proof.
  unfold verifyTransaction, try_catch, storage_getBlockchainTransaction.
  unfold bind at 1. unfold bind at 1. unfold gets at 1. unfold ret at 1.
  destruct (head _) as [row|]; [intros ->|]; reflexivity.
Qed.

End Verification.

(** X11. [verifyTransaction] never throws. It answers true only for a hash
    under which the ledger holds a confirmed row whose payload hashes to
    that hash, and then changes nothing; for a hash that no row carries it
    answers false and changes nothing. Whenever it answers false the ledger
    is left as it was, and the security log is either left as it was or has
    gained one critical, anomalous blockchain_tampering_detected row. The
    row is gained exactly when the row found under the hash is confirmed,
    its payload hashes to another digest, and the store takes the log row,
    which it does not when the user read off the ledger row has no row in
    the users table: a mismatch on such a row is answered false and not
    logged. *)
Theorem verifyTransaction_answers (platform : Platform) (h : string) (w : World) :
  ∃ answer w',
    verifyTransaction platform h w = (Ok answer, w') ∧
    (answer = true →
       w' = w ∧
       ∃ row, row ∈ blockchain_transactions w ∧ txHash row = h ∧
              isConfirmed row = true ∧ generateTransactionHash (data row) = Ok h) ∧
    (h ∉ txHash <$> blockchain_transactions w → answer = false ∧ w' = w) ∧
    (answer = false →
       blockchain_transactions w' = blockchain_transactions w ∧
       (security_logs w' = security_logs w ∨
        ∃ l, security_logs w' = security_logs w ++ [l] ∧
             eventType l = "blockchain_tampering_detected" ∧
             riskLevel l = "critical" ∧ isAnomaly l = true)) ∧
    (security_logs w' ≠ security_logs w ↔
     ∃ row regenerated,
       head (filter (λ t, txHash t = h) (blockchain_transactions w)) = Some row ∧
       isConfirmed row = true ∧
       generateTransactionHash (data row) = Ok regenerated ∧ regenerated ≠ h ∧
       log_takes (tampering_log h row) w = true).
Proof.
  assert (Hgrown : ∀ (logs : list SecurityLog) l, logs ++ [l] ≠ logs).
  { intros logs l Heq. apply (f_equal length) in Heq. rewrite length_app in Heq.
    cbn [length] in Heq. lia. }
  unfold verifyTransaction, try_catch, storage_getBlockchainTransaction.
  unfold bind at 1. unfold bind at 1. unfold gets at 1. unfold ret at 1.
  destruct (head (filter (λ t, txHash t = h) (blockchain_transactions w)))
    as [row|] eqn:Hhead.
  - assert (Hin : row ∈ blockchain_transactions w ∧ txHash row = h).
    { apply head_Some_elem_of in Hhead. apply list_elem_of_filter in Hhead. tauto. }
    destruct Hin as [Hin Hhash].
    assert (Hcarried : ¬ (h ∉ txHash <$> blockchain_transactions w)).
    { intros Hnot. apply Hnot. apply list_elem_of_fmap. exists row. auto. }
    destruct (isConfirmed row) eqn:Hconf; cbn [negb].
    + unfold bind at 1. unfold lift at 1.
      destruct (generateTransactionHash (data row)) as [regenerated|e] eqn:Hgen.
      * destruct (String.eqb regenerated h) eqn:Heq; cbn [negb].
        -- apply String.eqb_eq in Heq. subst regenerated.
           exists true, w. split; [reflexivity|].
           split; [intros _; split; [reflexivity | exists row; auto]|].
           split; [intros Hnot; contradiction|]. split; [discriminate|].
           split; [intros Hne; contradiction|].
           intros (row' & regenerated & Hrow' & _ & Hgen' & Hne & _).
           injection Hrow' as <-. rewrite Hgen in Hgen'. injection Hgen' as <-.
           contradiction.
        -- apply String.eqb_neq in Heq.
           unfold bind at 1. unfold bind at 1.
           match goal with
           | |- context [storage_createSecurityLog platform ?i w] =>
               change i with (tampering_log h row)
           end.
           destruct (log_takes (tampering_log h row) w) eqn:Htaken.
           ++ rewrite (createSecurityLog_after_log platform _ _ Htaken).
              eexists false, _. split; [reflexivity|]. split; [discriminate|].
              split; [intros Hnot; contradiction|].
              unfold after_log. simpl_world.
              split.
              { intros _. split; [reflexivity|]. right. eexists. split; [reflexivity|].
                split; [reflexivity|]. split; reflexivity. }
              split; [intros _; exists row, regenerated; auto | intros _; apply Hgrown].
           ++ destruct (storage_createSecurityLog_refused platform _ _ Htaken)
                as (e & seq' & Hrun & _).
              rewrite Hrun.
              eexists false, _. split; [reflexivity|]. split; [discriminate|].
              split; [intros Hnot; contradiction|]. simpl_world.
              split; [intros _; split; [reflexivity | left; reflexivity]|].
              split; [intros Hne; contradiction|].
              intros (row' & regenerated' & Hrow' & _ & _ & _ & Htaken').
              injection Hrow' as <-. congruence.
      * exists false, w. split; [reflexivity|]. split; [discriminate|].
        split; [intros Hnot; contradiction|].
        split; [intros _; split; [reflexivity | left; reflexivity]|].
        split; [intros Hne; contradiction|].
        intros (row' & regenerated & Hrow' & _ & Hgen' & _).
        injection Hrow' as <-. congruence.
    + exists false, w. split; [reflexivity|]. split; [discriminate|].
      split; [intros Hnot; contradiction|].
      split; [intros _; split; [reflexivity | left; reflexivity]|].
      split; [intros Hne; contradiction|].
      intros (row' & regenerated & Hrow' & Hconf' & _).
      injection Hrow' as <-. congruence.
  - exists false, w. split; [reflexivity|]. split; [discriminate|].
    split; [intros _; split; reflexivity|].
    split; [intros _; split; [reflexivity | left; reflexivity]|].
    split; [intros Hne; contradiction|].
    intros (row' & regenerated & Hrow' & _). discriminate.
Qed.

Section Validation.

Context (platform : Platform).

Lemma generateTransactionHash_unreadable (row : BlockchainTransaction) :
  unreadable_payload row = true →
  generateTransactionHash (data row) =
  Throw "TypeError: Cannot convert undefined or null to object".
Proof.
  unfold unreadable_payload. destruct (data row); try discriminate; reflexivity.
Qed.

Lemma has_object_payload_spec (row : BlockchainTransaction) :
  has_object_payload row = true → object_payload row.
Proof.
  unfold has_object_payload, object_payload.
  destruct (data row); try discriminate. eauto.
Qed.

(** One turn of the loop of [validateChainIntegrity] on a row with an
    object payload. *)
Lemma validate_transactions_cons (row : BlockchainTransaction)
    (rest : list BlockchainTransaction) (corrupted : list string) (w : World) :
  object_payload row →
  validate_transactions platform (row :: rest) corrupted w =
  if digest_mismatch row then
    match storage_createSecurityLog platform (violation_log row) w with
    | (Ok _, w') => validate_transactions platform rest (corrupted ++ [txHash row]) w'
    | (Throw e, w') => (Throw e, w')
    end
  else validate_transactions platform rest corrupted w.
Proof.
  intros [props Hdata]. cbn [validate_transactions]. unfold bind at 1. unfold lift at 1.
  rewrite Hdata, generateTransactionHash_object, <- Hdata.
  fold (digest_mismatch row). destruct (digest_mismatch row); reflexivity.
Qed.

(** The loop over rows with object payloads. When the store takes every
    log row, the loop returns, in order, the hashes of the rows whose digest
    does not match, having logged each; at the first log row the store
    refuses, it throws. *)
Lemma validate_transactions_objects (txs : list BlockchainTransaction)
    (corrupted : list string) (w : World) :
  Forall object_payload txs →
  let mismatches := filter (λ row, digest_mismatch row = true) txs in
  ∃ w' logs,
    snd (validate_transactions platform txs corrupted w) = w' ∧
    security_logs w' = security_logs w ++ logs ∧
    Forall (λ l, eventType l = "blockchain_integrity_violation" ∧
                 riskLevel l = "critical" ∧ isAnomaly l = true) logs ∧
    blockchain_transactions w' = blockchain_transactions w ∧
    if violations_taken platform txs w then
      fst (validate_transactions platform txs corrupted w) =
        Ok (corrupted ++ (txHash <$> mismatches)) ∧
      length logs = length mismatches ∧
      (mismatches = [] → w' = w)
    else
      (∃ e, fst (validate_transactions platform txs corrupted w) = Throw e ∧
            e ∈ store_refusals) ∧
      (length logs < length mismatches)%nat.
Proof.
  intros Hobj. revert corrupted w.
  induction Hobj as [|row txs Hrow _ IH]; intros corrupted w; cbv zeta.
  - exists w, []. cbn. rewrite !app_nil_r. repeat split; constructor.
  - rewrite (validate_transactions_cons row txs corrupted w Hrow).
    cbn [violations_taken]. destruct (digest_mismatch row) eqn:Hmis.
    + rewrite filter_cons_True by exact Hmis.
      destruct (log_takes (violation_log row) w) eqn:Htaken; cbn [andb].
      * rewrite (createSecurityLog_after_log platform _ _ Htaken).
        destruct (IH (corrupted ++ [txHash row]) (after_log platform (violation_log row) w))
          as (w' & logs & Hsnd & Hlogs & Hall & Hledger & Hrest).
        exists w', (logged platform (violation_log row) w :: logs).
        split; [exact Hsnd|]. split.
        { rewrite Hlogs. unfold after_log. simpl_world. rewrite <- app_assoc. reflexivity. }
        split; [constructor; [repeat split | exact Hall]|].
        split; [rewrite Hledger; reflexivity|].
        cbv zeta in Hrest.
        destruct (violations_taken platform txs
                    (after_log platform (violation_log row) w)).
        -- destruct Hrest as (Hfst & Hlen & _). split.
           { rewrite Hfst. cbn [fmap list_fmap]. rewrite <- app_assoc. reflexivity. }
           split; [cbn [length]; rewrite Hlen; reflexivity | discriminate].
        -- destruct Hrest as (Hthrow & Hlen). split; [exact Hthrow | cbn [length]; lia].
      * destruct (storage_createSecurityLog_refused platform _ _ Htaken)
          as (e & seq' & Hrun & He).
        rewrite Hrun. eexists _, []. split; [reflexivity|]. simpl_world.
        rewrite app_nil_r. split; [reflexivity|]. split; [constructor|].
        split; [reflexivity|]. split; [exists e; auto | cbn [length]; lia].
    + rewrite filter_cons_False by (rewrite Hmis; discriminate).
      apply IH.
Qed.

Lemma validate_transactions_app (pre rest : list BlockchainTransaction)
    (corrupted : list string) (w : World) :
  validate_transactions platform (pre ++ rest) corrupted w =
  match validate_transactions platform pre corrupted w with
  | (Ok found, w') => validate_transactions platform rest found w'
  | (Throw e, w') => (Throw e, w')
  end.
Proof.
  revert corrupted w. induction pre as [|row pre IH]; intros corrupted w; [reflexivity|].
  cbn [app validate_transactions].
  set (step := λ (continue : list string → M (list string)) (regenerated : string),
         if negb (String.eqb regenerated (txHash row))
         then
           do _ <- storage_createSecurityLog platform
                (mkInsertLog
                   (parseInt (default "0" (string_or (relatedEntityId row) None)))
                   "blockchain_integrity_violation"
                   ("Chain integrity violation: " +:+ txHash row)
                   "critical" None (Some true)) ;
           continue (corrupted ++ [txHash row])
         else continue corrupted).
  change (bind (lift (generateTransactionHash (data row)))
            (step (validate_transactions platform (pre ++ rest))) w =
          match bind (lift (generateTransactionHash (data row)))
                  (step (validate_transactions platform pre)) w with
          | (Ok found, w') => validate_transactions platform rest found w'
          | (Throw e, w') => (Throw e, w')
          end).
  unfold bind at 1 2. unfold lift.
  destruct (generateTransactionHash (data row)) as [regenerated|e]; [|reflexivity].
  unfold step. destruct (negb (String.eqb regenerated (txHash row))); [|apply IH].
  unfold bind at 1 2.
  destruct (storage_createSecurityLog platform _ w) as [[l|e] w1]; [apply IH | reflexivity].
Qed.

Lemma validateChainIntegrity_loop (w : World) :
  validateChainIntegrity platform w =
  match validate_transactions platform
          (merge_sort newer_first (blockchain_transactions w)) [] w with
  | (Ok corrupted, w') =>
      (Ok (mkChainValidation (bool_decide (length corrupted = 0%nat)) corrupted), w')
  | (Throw _, w') => (Ok (mkChainValidation false []), w')
  end.
Proof.
  unfold validateChainIntegrity, try_catch, getAllTransactions, try_catch,
    storage_getAllBlockchainTransactions.
  unfold bind at 1. unfold bind at 1. unfold gets at 1. unfold ret at 1.
  unfold bind at 1.
  destruct (validate_transactions platform _ [] w) as [[corrupted|e] w']; reflexivity.
Qed.

End Validation.

(** X12. [validateChainIntegrity] over a ledger whose payloads are all
    objects never throws and leaves the ledger as it was. It goes through
    the rows newest first and hands one critical
    blockchain_integrity_violation log row to the store for each row whose
    recomputed digest differs from the stored hash. When the store takes all
    of them, it returns the hashes of exactly those rows, in that order, and
    answers valid exactly when there is none. When the store refuses one,
    as it does for a ledger row of a user that has no row in the users
    table, it answers invalid with an empty list, whatever it had found up
    to there. *)
Theorem chain_validation_reports_mismatches (platform : Platform) (w : World) :
  forallb has_object_payload (blockchain_transactions w) = true →
  let sorted := merge_sort newer_first (blockchain_transactions w) in
  let mismatches := filter (λ row, digest_mismatch row = true) sorted in
  ∃ w' logs,
    validateChainIntegrity platform w =
      (Ok (if violations_taken platform sorted w
           then mkChainValidation (bool_decide (mismatches = [])) (txHash <$> mismatches)
           else mkChainValidation false []),
       w') ∧
    blockchain_transactions w' = blockchain_transactions w ∧
    security_logs w' = security_logs w ++ logs ∧
    (if violations_taken platform sorted w
     then length logs = length mismatches
     else (length logs < length mismatches)%nat) ∧
    Forall (λ l, eventType l = "blockchain_integrity_violation" ∧ riskLevel l = "critical" ∧
                 isAnomaly l = true) logs ∧
    (∀ row, row ∈ mismatches ↔
            row ∈ blockchain_transactions w ∧
            generateTransactionHash (data row) ≠ Ok (txHash row)).
Proof.
  intros Hobj sorted mismatches.
  assert (Hobjects : Forall object_payload (blockchain_transactions w)).
  { apply Forall_forall. intros row Hin. apply has_object_payload_spec.
    rewrite forallb_forall in Hobj. apply Hobj. apply list_elem_of_In. exact Hin. }
  assert (Hsorted : Forall object_payload sorted).
  { subst sorted. rewrite merge_sort_Permutation. exact Hobjects. }
  destruct (validate_transactions_objects platform _ [] w Hsorted)
    as (w' & logs & Hsnd & Hlogs & Hall & Hrows & Hrun).
  cbv zeta in Hrun. fold mismatches in Hrun.
  exists w', logs. split.
  { rewrite validateChainIntegrity_loop. fold sorted.
    destruct (validate_transactions platform sorted [] w) as [r w1].
    cbn [fst snd] in Hsnd, Hrun. subst w1.
    destruct (violations_taken platform sorted w).
    - destruct Hrun as (-> & _ & _). cbn [app]. do 2 f_equal. f_equal.
      rewrite length_fmap. apply bool_decide_ext. apply length_zero_iff_nil.
    - destruct Hrun as ((e & -> & _) & _). reflexivity. }
  split; [exact Hrows|]. split; [exact Hlogs|].
  split.
  { destruct (violations_taken platform sorted w); [apply Hrun | apply Hrun]. }
  split; [exact Hall|].
  intros row. subst mismatches sorted. rewrite list_elem_of_filter, merge_sort_Permutation.
  split.
  - intros [Hmis Hin]. split; [exact Hin|].
    rewrite Forall_forall in Hobjects. destruct (Hobjects row Hin) as [props Hdata].
    unfold digest_mismatch in Hmis. rewrite Hdata in Hmis |- *.
    rewrite generateTransactionHash_object. intros Heq. injection Heq as Heq.
    rewrite Heq, String.eqb_refl in Hmis. discriminate Hmis.
  - intros [Hin Hne]. split; [|exact Hin].
    rewrite Forall_forall in Hobjects. destruct (Hobjects row Hin) as [props Hdata].
    unfold digest_mismatch. rewrite Hdata in Hne |- *.
    rewrite generateTransactionHash_object in Hne.
    destruct (String.eqb _ _) eqn:Heq; [|reflexivity].
    apply String.eqb_eq in Heq. rewrite Heq in Hne. contradiction.
Qed.

(** X13. One unreadable payload hides every finding. When a row of the
    ledger holds null or undefined in place of its payload,
    [validateChainIntegrity] gives up at that row, if not before: it
    reports invalid with an empty list of corrupted hashes, although the
    rows examined before it, the newer ones, have been logged when their
    digest did not match and the store took the log row, and the older rows
    are not examined. [verifyTransaction] of the hash of such a row, when it
    is the row found under that hash, answers false and changes nothing. *)
Theorem validation_gives_up_on_unreadable_payload (platform : Platform) (w : World)
    (newer older : list BlockchainTransaction) (row : BlockchainTransaction) :
  merge_sort newer_first (blockchain_transactions w) = newer ++ row :: older →
  unreadable_payload row = true →
  forallb has_object_payload newer = true →
  ∃ w' logs,
    validateChainIntegrity platform w = (Ok (mkChainValidation false []), w') ∧
    security_logs w' = security_logs w ++ logs ∧
    (if violations_taken platform newer w
     then length logs = length (filter (λ r, digest_mismatch r = true) newer)
     else (length logs < length (filter (λ r, digest_mismatch r = true) newer))%nat) ∧
    Forall (λ l, eventType l = "blockchain_integrity_violation") logs ∧
    (head (filter (λ t, txHash t = txHash row) (blockchain_transactions w)) = Some row →
     verifyTransaction platform (txHash row) w = (Ok false, w)).
Proof.
  intros Hsorted Hnull Hobj.
  assert (Hobjects : Forall object_payload newer).
  { apply Forall_forall. intros r Hin. apply has_object_payload_spec.
    rewrite forallb_forall in Hobj. apply Hobj. apply list_elem_of_In. exact Hin. }
  destruct (validate_transactions_objects platform newer [] w Hobjects)
    as (w' & logs & Hsnd & Hlogs & Hall & _ & Hrun).
  cbv zeta in Hrun.
  exists w', logs. split.
  { rewrite validateChainIntegrity_loop, Hsorted, validate_transactions_app.
    destruct (validate_transactions platform newer [] w) as [r w1].
    cbn [fst snd] in Hsnd, Hrun. subst w1.
    destruct (violations_taken platform newer w).
    - destruct Hrun as (-> & _ & _).
      cbn [validate_transactions]. unfold bind at 1. unfold lift at 1.
      rewrite (generateTransactionHash_unreadable row Hnull). reflexivity.
    - destruct Hrun as ((e & -> & _) & _). reflexivity. }
  split; [exact Hlogs|].
  split.
  { destruct (violations_taken platform newer w); [apply Hrun | apply Hrun]. }
  split; [eapply Forall_impl; [exact Hall|]; intros l Hl; exact (proj1 Hl)|].
  intros Hhead.
  unfold verifyTransaction, try_catch, storage_getBlockchainTransaction.
  unfold bind at 1. unfold bind at 1. unfold gets at 1. unfold ret at 1.
  rewrite Hhead. destruct (isConfirmed row); cbn [negb]; [|reflexivity].
  unfold bind at 1. unfold lift at 1.
  rewrite (generateTransactionHash_unreadable row Hnull). reflexivity.
Qed.

Lemma chain_validation_reports_mismatches_sample :
  (forallb has_object_payload (blockchain_transactions forged_ledger) = true ∧
   ∃ w' log,
     validateChainIntegrity sample_platform forged_ledger =
       (Ok (mkChainValidation false ["not-a-digest"]), w') ∧
     security_logs w' = [log]) ∧
  (forallb has_object_payload (blockchain_transactions orphan_ledger) = true ∧
   ∃ w',
     validateChainIntegrity sample_platform orphan_ledger =
       (Ok (mkChainValidation false []), w')).
Proof.
  split.
  - split; [vm_compute; reflexivity|].
    destruct (chain_validation_reports_mismatches sample_platform forged_ledger)
      as (w' & logs & Hrun & _ & Hlogs & Hlen & _); [vm_compute; reflexivity|].
    cbv zeta in Hrun, Hlen.
    replace (violations_taken sample_platform
               (merge_sort newer_first (blockchain_transactions forged_ledger))
               forged_ledger) with true in Hrun, Hlen by (vm_compute; reflexivity).
    replace (filter (λ row, digest_mismatch row = true)
               (merge_sort newer_first (blockchain_transactions forged_ledger)))
      with [forged_row] in Hrun, Hlen by (vm_compute; reflexivity).
    destruct logs as [|log [|log' logs]]; try discriminate Hlen.
    exists w', log. split; [exact Hrun | exact Hlogs].
  - split; [vm_compute; reflexivity|].
    destruct (chain_validation_reports_mismatches sample_platform orphan_ledger)
      as (w' & logs & Hrun & _); [vm_compute; reflexivity|].
    cbv zeta in Hrun.
    replace (violations_taken sample_platform
               (merge_sort newer_first (blockchain_transactions orphan_ledger))
               orphan_ledger) with false in Hrun by (vm_compute; reflexivity).
    exists w'. exact Hrun.
Defined.

Lemma validation_gives_up_sample :
  merge_sort newer_first (blockchain_transactions emptied_ledger) =
    [forged_row] ++ emptied_row :: [] ∧
  ∃ w' log,
    validateChainIntegrity sample_platform emptied_ledger =
      (Ok (mkChainValidation false []), w') ∧
    security_logs w' = [log] ∧
    eventType log = "blockchain_integrity_violation".
Proof.
  split; [vm_compute; reflexivity|].
  destruct (validation_gives_up_on_unreadable_payload sample_platform emptied_ledger
              [forged_row] [] emptied_row) as (w' & logs & Hrun & Hlogs & Hlen & Hall & _).
  - vm_compute; reflexivity.
  - vm_compute; reflexivity.
  - vm_compute; reflexivity.
  - replace (violations_taken sample_platform [forged_row] emptied_ledger) with true in Hlen
      by (vm_compute; reflexivity).
    replace (filter (λ r, digest_mismatch r = true) [forged_row]) with [forged_row] in Hlen
      by (vm_compute; reflexivity).
    destruct logs as [|log [|log' logs]]; try discriminate Hlen.
    exists w', log. split; [exact Hrun|]. split; [exact Hlogs|].
    inversion Hall. assumption.
Defined.

Section SameOutcome.

Context (platform : Platform).

(** Whether the ledger takes a row, and the error with which it refuses
    it, depend on the hash, the type and the two integers of the row only,
    not on its payload. *)
Lemma storage_createBlockchainTransaction_outcome (row1 row2 : InsertBlockchainTransaction)
    (w : World) :
  ins_txHash row1 = ins_txHash row2 →
  ins_txType row1 = ins_txType row2 →
  ins_blockNumber row1 = ins_blockNumber row2 →
  ins_gasUsed row1 = ins_gasUsed row2 →
  match storage_createBlockchainTransaction platform row1 w,
        storage_createBlockchainTransaction platform row2 w with
  | (Ok _, _), (Ok _, _) => True
  | (Throw e1, w1), (Throw e2, w2) => e1 = e2 ∧ w1 = w2
  | _, _ => False
  end.
Proof.
  intros Hhash Htype Hnumber Hgas.
  cbv beta iota zeta delta
    [storage_createBlockchainTransaction bind Date_now nextval gets modify ret throw].
  rewrite Hhash, Htype, Hnumber, Hgas.
  destruct (negb _); [split; reflexivity|].
  destruct (varchar 50 (ins_txType row2)); [|split; reflexivity].
  simpl_world. destruct (int4 _); [|split; reflexivity].
  simpl_world. destruct (_ || _); [split; reflexivity | exact I].
Qed.

End SameOutcome.

(** X10. The ledger entry of a message does not commit to the message: the
    text hashed for it holds the sender, the two time stamps and the block
    number only, so [recordMessageOnChain] called in the same state gives
    the same outcome for any two message ids, recipients and message
    hashes: the same transaction hash when the ledger takes the row, the
    same error when it does not. The nested message fields are dropped by
    the replacer array in the same way as the nested audit fields. *)
Theorem message_record_ignores_content (platform : Platform)
    (messageId1 messageId2 : string) (senderId recipientId1 recipientId2 : Z)
    (messageHash1 messageHash2 : string) (w : World) :
  (∀ timestamp txTimestamp blockNumber',
     canonical_string
       (transaction_payload "message_sent"
          (message_payload messageId1 senderId recipientId1 messageHash1 timestamp)
          (Some senderId) txTimestamp blockNumber') =
     Ok (hashed_message_text senderId timestamp txTimestamp blockNumber')) ∧
  fst (recordMessageOnChain platform messageId1 senderId recipientId1 messageHash1 w) =
  fst (recordMessageOnChain platform messageId2 senderId recipientId2 messageHash2 w).
Proof.
  assert (Hcanon : ∀ messageId recipientId messageHash timestamp txTimestamp blockNumber',
    canonical_string
      (transaction_payload "message_sent"
         (message_payload messageId senderId recipientId messageHash timestamp)
         (Some senderId) txTimestamp blockNumber') =
    Ok (hashed_message_text senderId timestamp txTimestamp blockNumber')).
  { intros messageId recipientId messageHash timestamp txTimestamp blockNumber'.
    unfold canonical_string, transaction_payload, message_payload, JSON_stringify.
    cbn [Object_keys fmap list_fmap fst].
    replace (Array_sort ["eventType"; "data"; "userId"; "timestamp"; "blockNumber"])
      with ["blockNumber"; "data"; "eventType"; "timestamp"; "userId"]
      by (vm_compute; reflexivity).
    replace (property_list ["blockNumber"; "data"; "eventType"; "timestamp"; "userId"] [])
      with ["blockNumber"; "data"; "eventType"; "timestamp"; "userId"]
      by (vm_compute; reflexivity).
    cbn [SerializeJSONProperty object_members assoc_get String.eqb Ascii.eqb Bool.eqb
         from_option].
    reflexivity. }
  split; [intros; apply Hcanon|].
  unfold recordMessageOnChain. unfold bind at 1 2. unfold Date_now.
  rewrite !createSecurityTransaction_insert.
  assert (Hhash : ∀ messageId recipientId messageHash,
    ins_txHash
      (append_insert platform "message_sent"
         (message_payload messageId senderId recipientId messageHash
            (clock platform (clock_reads w)))
         (Some senderId) (set_clock_reads (S (clock_reads w)) w)) =
    SHA256.hash_hex
      (hashed_message_text senderId (clock platform (clock_reads w))
         (clock platform (S (clock_reads w))) (currentBlockNumber w + 1))).
  { intros. unfold append_insert. cbn [ins_txHash]. simpl_world.
    unfold payload_hash, generateTransactionHash. rewrite Hcanon. reflexivity. }
  pose proof (storage_createBlockchainTransaction_outcome platform
    (append_insert platform "message_sent"
       (message_payload messageId1 senderId recipientId1 messageHash1
          (clock platform (clock_reads w)))
       (Some senderId) (set_clock_reads (S (clock_reads w)) w))
    (append_insert platform "message_sent"
       (message_payload messageId2 senderId recipientId2 messageHash2
          (clock platform (clock_reads w)))
       (Some senderId) (set_clock_reads (S (clock_reads w)) w))
    (set_random_draws (S (random_draws (set_clock_reads (S (clock_reads w)) w)))
       (set_currentBlockNumber
          (currentBlockNumber (set_clock_reads (S (clock_reads w)) w) + 1)
          (set_clock_reads (S (clock_reads (set_clock_reads (S (clock_reads w)) w)))
             (set_clock_reads (S (clock_reads w)) w))))) as Hsame.
  rewrite !Hhash in Hsame |- *.
  specialize (Hsame eq_refl eq_refl eq_refl eq_refl).
  destruct (storage_createBlockchainTransaction platform _ _) as [[row1|e1] w1],
           (storage_createBlockchainTransaction platform _ _) as [[row2|e2] w2];
    cbn [fst]; try contradiction.
  - reflexivity.
  - destruct Hsame as [-> _]. reflexivity.
Qed.

(** * Independence *)

Section Frame.

Context (F : World → World).

Lemma commutes_ret {A : Type} (a : A) : commutes F (ret a).
Proof. intros w. reflexivity. Qed.

Lemma commutes_throw {A : Type} (e : string) : commutes F (@throw A e).
Proof. intros w. reflexivity. Qed.

Lemma commutes_lift {A : Type} (r : Result A) : commutes F (lift r).
Proof. intros w. reflexivity. Qed.

Lemma commutes_gets {A : Type} (f : World → A) :
  (∀ w, f (F w) = f w) → commutes F (gets f).
Proof. intros Hf w. unfold gets. rewrite Hf. reflexivity. Qed.

Lemma commutes_modify (g : World → World) :
  (∀ w, g (F w) = F (g w)) → commutes F (modify g).
Proof. intros Hg w. unfold modify. rewrite Hg. reflexivity. Qed.

Lemma commutes_state {A : Type} (f : World → A) (g : World → World) :
  (∀ w, f (F w) = f w) → (∀ w, g (F w) = F (g w)) →
  commutes F (λ w, (Ok (f w), g w)).
Proof. intros Hf Hg w. rewrite Hf, Hg. reflexivity. Qed.

Lemma commutes_nextval (current : World → Z) (set : Z → World → World) :
  (∀ w, current (F w) = current w) → (∀ n w, set n (F w) = F (set n w)) →
  commutes F (nextval current set).
Proof.
  intros Hcurrent Hset w. unfold nextval. rewrite Hcurrent, Hset.
  destruct (int4 (current w + 1)); reflexivity.
Qed.

Lemma commutes_bind {A B : Type} (m : M A) (k : A → M B) :
  commutes F m → (∀ a, commutes F (k a)) → commutes F (bind m k).
Proof.
  intros Hm Hk w. unfold bind. rewrite Hm.
  destruct (m w) as [[a|e] w1]; cbn [fst snd]; [apply Hk | reflexivity].
Qed.

Lemma commutes_try_catch {A : Type} (body : M A) (handler : string → M A) :
  commutes F body → (∀ e, commutes F (handler e)) → commutes F (try_catch body handler).
Proof.
  intros Hbody Hhandler w. unfold try_catch. rewrite Hbody.
  destruct (body w) as [[a|e] w1]; cbn [fst snd]; [reflexivity | apply Hhandler].
Qed.

End Frame.

(** Independence through the monad. The leaves are closed by evaluating
    the projections of the state. *)
Ltac commute_leaf :=
  first
    [ apply commutes_gets; intros ?; reflexivity
    | apply commutes_modify; intros ?; reflexivity
    | apply commutes_state; intros ?; reflexivity ].

Ltac commute_step lemmas :=
  lazymatch goal with
  | |- commutes _ ?m =>
      lazymatch m with
      | bind _ _ => apply commutes_bind; [|intros ?]
      | try_catch _ _ => apply commutes_try_catch; [|intros ?]
      | ret _ => apply commutes_ret
      | throw _ => apply commutes_throw
      | lift _ => apply commutes_lift
      | nextval _ _ => apply commutes_nextval; intros; reflexivity
      | (if ?b then _ else _) => destruct b
      | (match ?x with _ => _ end) => destruct x
      | _ => first [ lemmas | commute_leaf ]
      end
  end.

Ltac commute_with lemmas := repeat commute_step lemmas.
Ltac commute := repeat commute_step fail.

Section FirewallFrame.

Context (platform : Platform).

(** The two maps that the sweep touches are read by the rate limiter and
    the lockout only: the ledger, the audit and the escalation of suspicious
    activities do not look at them. *)
Context (limits : gmap string RateLimit) (attempts : gmap string Z).

Lemma commutes_Date_now : commutes (with_maps limits attempts) (Date_now platform).
Proof. unfold Date_now. commute. Qed.

Lemma commutes_createSecurityLog (insertLog : InsertSecurityLog) :
  commutes (with_maps limits attempts) (storage_createSecurityLog platform insertLog).
Proof.
  unfold storage_createSecurityLog.
  commute_with ltac:(apply commutes_Date_now).
Qed.

Lemma commutes_createSecurityTransaction (eventType' : string) (data' : JsValue)
    (userId : option Z) :
  commutes (with_maps limits attempts) (createSecurityTransaction platform eventType' data' userId).
Proof.
  unfold createSecurityTransaction, storage_createBlockchainTransaction,
    Math_random_50000.
  commute_with ltac:(apply commutes_Date_now).
Qed.

Lemma commutes_createAuditTrail (userId : Z) (eventType' description riskLevel' : string) :
  commutes (with_maps limits attempts) (createAuditTrail platform userId eventType' description riskLevel').
Proof.
  unfold createAuditTrail.
  commute_with ltac:(first [ apply commutes_Date_now
                           | apply commutes_createSecurityTransaction
                           | apply commutes_createSecurityLog ]).
Qed.

Lemma commutes_blockIP (ipAddress reason : string) (userId : option Z) :
  commutes (with_maps limits attempts) (blockIP platform ipAddress reason userId).
Proof. unfold blockIP. commute_with ltac:(apply commutes_createAuditTrail). Qed.

Lemma commutes_recordSuspiciousActivity (userId : string + Z)
    (activityType description ipAddress : string) :
  commutes (with_maps limits attempts)
    (recordSuspiciousActivity platform userId activityType description ipAddress).
Proof.
  unfold recordSuspiciousActivity.
  commute_with ltac:(first [ apply commutes_createAuditTrail | apply commutes_blockIP ]).
Qed.

End FirewallFrame.

Section Keeping.

Context (R : World → World → Prop) `{!PreOrder R}.

Lemma keeping_ret {A : Type} (a : A) : keeping R (ret a).
Proof. intros w. reflexivity. Qed.

Lemma keeping_throw {A : Type} (e : string) : keeping R (@throw A e).
Proof. intros w. reflexivity. Qed.

Lemma keeping_lift {A : Type} (r : Result A) : keeping R (lift r).
Proof. intros w. reflexivity. Qed.

Lemma keeping_gets {A : Type} (f : World → A) : keeping R (gets f).
Proof. intros w. reflexivity. Qed.

Lemma keeping_modify (g : World → World) : (∀ w, R w (g w)) → keeping R (modify g).
Proof. intros Hg w. apply Hg. Qed.

Lemma keeping_state {A : Type} (f : World → A) (g : World → World) :
  (∀ w, R w (g w)) → keeping R (λ w, (Ok (f w), g w)).
Proof. intros Hg w. apply Hg. Qed.

Lemma keeping_nextval (current : World → Z) (set : Z → World → World) :
  (∀ n w, R w (set n w)) → keeping R (nextval current set).
Proof.
  intros Hset w. unfold nextval. destruct (int4 (current w + 1)); cbn [snd].
  - apply Hset.
  - reflexivity.
Qed.

Lemma keeping_bind {A B : Type} (m : M A) (k : A → M B) :
  keeping R m → (∀ a, keeping R (k a)) → keeping R (bind m k).
Proof.
  intros Hm Hk w. unfold bind. specialize (Hm w).
  destruct (m w) as [[a|e] w1]; cbn [snd] in *.
  - etransitivity; [exact Hm | apply Hk].
  - exact Hm.
Qed.

Lemma keeping_try_catch {A : Type} (body : M A) (handler : string → M A) :
  keeping R body → (∀ e, keeping R (handler e)) → keeping R (try_catch body handler).
Proof.
  intros Hbody Hhandler w. unfold try_catch. specialize (Hbody w).
  destruct (body w) as [[a|e] w1]; cbn [snd] in *.
  - exact Hbody.
  - etransitivity; [exact Hbody | apply Hhandler].
Qed.

End Keeping.

#[global] Instance unchanged_preorder {B : Type} (part : World → B) :
  PreOrder (unchanged part).
Proof.
  split.
  - intros w. reflexivity.
  - intros w1 w2 w3 H12 H23. unfold unchanged in *. congruence.
Qed.

(** Keeping through the monad; a step on the state is closed by
    evaluating the part of the state that is kept. *)
Ltac keep_step lemmas :=
  lazymatch goal with
  | |- keeping ?R ?m =>
      lazymatch m with
      | bind _ _ => apply (keeping_bind R); [|intros ?]
      | try_catch _ _ => apply (keeping_try_catch R); [|intros ?]
      | ret _ => apply (keeping_ret R)
      | throw _ => apply (keeping_throw R)
      | lift _ => apply (keeping_lift R)
      | gets _ => apply (keeping_gets R)
      | modify _ => apply (keeping_modify R); intros ?; unfold unchanged; reflexivity
      | nextval _ _ =>
          apply (keeping_nextval R); intros ? ?; unfold unchanged; reflexivity
      | (if ?b then _ else _) => destruct b
      | (match ?x with _ => _ end) => destruct x
      | _ => first [ lemmas
                   | apply (keeping_state R); intros ?; unfold unchanged; reflexivity ]
      end
  end.

Ltac keep_with lemmas := repeat keep_step lemmas.
Ltac keep := repeat keep_step fail.

Section RateLimiter.

Context (platform : Platform).

Lemma keeping_limits_createAuditTrail (userId : Z)
    (eventType' description riskLevel' : string) :
  keeping (unchanged rateLimits)
    (createAuditTrail platform userId eventType' description riskLevel').
Proof.
  unfold createAuditTrail, createSecurityTransaction, storage_createBlockchainTransaction,
    storage_createSecurityLog, Date_now, Math_random_50000.
  keep.
Qed.

Lemma keeping_limits_recordSuspiciousActivity (userId : string + Z)
    (activityType description ipAddress : string) :
  keeping (unchanged rateLimits)
    (recordSuspiciousActivity platform userId activityType description ipAddress).
Proof.
  unfold recordSuspiciousActivity, blockIP.
  keep_with ltac:(apply keeping_limits_createAuditTrail).
Qed.

(** A call on a full window that has not expired: the answer is that of
    the escalation. *)
Lemma checkRateLimit_full (identifier ipAddress : string) (w : World) (l : RateLimit) :
  rateLimits w !! map_key identifier ipAddress = Some l →
  clock platform (clock_reads w) <= resetTime l →
  MAX_REQUESTS_PER_MINUTE <= count l →
  checkRateLimit platform identifier ipAddress w =
  match recordSuspiciousActivity platform (inl identifier) "rate_limit_exceeded"
          ("Rate limit exceeded: " +:+ pretty (count l) +:+ " requests") ipAddress
          (set_clock_reads (S (clock_reads w)) w) with
  | (Ok _, w') => (Ok false, w')
  | (Throw e, w') => (Throw e, w')
  end.
Proof.
  intros Hl Hnow Hcount. unfold checkRateLimit.
  unfold bind at 1. unfold Date_now at 1. unfold bind at 1. unfold gets at 1.
  simpl_world. rewrite Hl.
  destruct (Z.ltb_spec (resetTime l) (clock platform (clock_reads w))) as [?|_]; [lia|].
  cbn [default from_option id].
  destruct (Z.leb_spec MAX_REQUESTS_PER_MINUTE (count l)) as [_|?]; [|lia].
  unfold bind at 1.
  destruct (recordSuspiciousActivity platform _ _ _ _ _) as [[[]|e] w']; reflexivity.
Qed.

End RateLimiter.

(** X15. A sweep is invisible to the rate limiter. When the clock does not
    run backwards, [checkRateLimit] gives the same outcome and leaves the
    same window for its key whether [cleanupSecurityData] ran just before
    it or only its reading of the clock was taken: the sweep deletes only
    windows that the rate limiter would have replaced anyway. *)
Theorem cleanup_is_invisible_to_rate_limiter (platform : Platform)
    (identifier ipAddress : string) (w : World) :
  clock platform (clock_reads w) <= clock platform (S (clock_reads w)) →
  let swept := snd (cleanupSecurityData platform w) in
  let unswept := set_clock_reads (S (clock_reads w)) w in
  fst (checkRateLimit platform identifier ipAddress swept) =
  fst (checkRateLimit platform identifier ipAddress unswept) ∧
  rateLimits (snd (checkRateLimit platform identifier ipAddress swept))
    !! map_key identifier ipAddress =
  rateLimits (snd (checkRateLimit platform identifier ipAddress unswept))
    !! map_key identifier ipAddress.
Proof.
  intros Hclock swept unswept.
  set (key := map_key identifier ipAddress).
  set (now := clock platform (clock_reads w)) in *.
  set (now' := clock platform (S (clock_reads w))) in *.
  assert (Hreads : clock_reads swept = S (clock_reads w)).
  { subst swept. rewrite cleanupSecurityData_run. reflexivity. }
  assert (Hswept : ∀ l, rateLimits swept !! key = Some l ↔
                        rateLimits w !! key = Some l ∧ ¬ (resetTime l < now))
    by (intros l; apply cleanup_rate_limits).
  assert (Hnew : ∀ v : World,
            clock_reads v = S (clock_reads w) →
            (rateLimits v !! key = None ∨
             ∃ l, rateLimits v !! key = Some l ∧ resetTime l < now') →
            fst (checkRateLimit platform identifier ipAddress v) = Ok true ∧
            rateLimits (snd (checkRateLimit platform identifier ipAddress v)) !! key =
              Some (mkRateLimit 1 (now' + RATE_LIMIT_WINDOW))).
  { intros v Hv Hexp. rewrite checkRateLimit_new_window by (rewrite Hv; exact Hexp).
    cbn [fst snd set_rateLimits rateLimits]. rewrite Hv.
    split; [reflexivity | apply lookup_insert_eq]. }
  destruct (rateLimits w !! key) as [l|] eqn:Hw.
  - destruct (decide (resetTime l < now)) as [Hold|Hfresh].
    + destruct (Hnew swept Hreads) as [-> ->].
      { left. destruct (rateLimits swept !! key) as [l'|] eqn:Hs; [|reflexivity].
        destruct (proj1 (Hswept l') eq_refl) as [Hsame Hkeep].
        injection Hsame as <-. contradiction. }
      destruct (Hnew unswept eq_refl) as [-> ->]; [|split; reflexivity].
      right. exists l. split; [exact Hw | lia].
    + assert (Hs : rateLimits swept !! key = Some l)
        by (apply (proj2 (Hswept l)); split; [reflexivity | exact Hfresh]).
      destruct (decide (resetTime l < now')) as [Hexp|Hlive].
      * destruct (Hnew swept Hreads) as [-> ->]; [right; eauto|].
        destruct (Hnew unswept eq_refl) as [-> ->]; [right; eauto|]. split; reflexivity.
      * destruct (decide (count l < MAX_REQUESTS_PER_MINUTE)) as [Hroom|Hfull].
        -- rewrite (checkRateLimit_within platform identifier ipAddress swept l Hs)
             by (rewrite ?Hreads; fold now'; lia).
           rewrite (checkRateLimit_within platform identifier ipAddress unswept l Hw)
             by (cbn [unswept set_clock_reads clock_reads]; fold now'; lia).
           cbn [fst snd set_rateLimits rateLimits]. split; [reflexivity|].
           fold key. rewrite !lookup_insert_eq. reflexivity.
        -- rewrite (checkRateLimit_full platform identifier ipAddress swept l Hs)
             by (rewrite ?Hreads; fold now'; lia).
           rewrite (checkRateLimit_full platform identifier ipAddress unswept l Hw)
             by (cbn [unswept set_clock_reads clock_reads]; fold now'; lia).
           set (u1 := set_clock_reads (S (clock_reads unswept)) unswept).
           set (limits := filter (λ kv, ¬ (resetTime kv.2 < now)) (rateLimits w)).
           set (attempts := filter (λ kv, ¬ (kv.2 < now - 60 * 60 * 1000))
                              (failedAttempts w)).
           change (set_clock_reads (S (clock_reads swept)) swept)
             with (with_maps limits attempts u1).
           rewrite (commutes_recordSuspiciousActivity platform limits attempts).
           pose proof (keeping_limits_recordSuspiciousActivity platform (inl identifier)
                         "rate_limit_exceeded"
                         ("Rate limit exceeded: " +:+ pretty (count l) +:+ " requests")
                         ipAddress u1) as Hkept.
           unfold unchanged in Hkept.
           destruct (recordSuspiciousActivity platform _ _ _ _ u1) as [[[]|e] w'];
             cbn [fst snd] in Hkept |- *;
             (split; [reflexivity|]);
             unfold with_maps; simpl_world; rewrite Hkept;
             subst u1 unswept; simpl_world; rewrite Hw;
             exact (proj2 (Hswept l) (conj Hw Hfresh)) || (rewrite <- Hs; reflexivity).
  - assert (Hs : rateLimits swept !! key = None).
    { destruct (rateLimits swept !! key) as [l'|] eqn:Hs; [|reflexivity].
      destruct (proj1 (Hswept l') eq_refl) as [Hsame _]. discriminate Hsame. }
    destruct (Hnew swept Hreads) as [-> ->]; [left; exact Hs|].
    destruct (Hnew unswept eq_refl) as [-> ->]; [left; exact Hw|]. split; reflexivity.
Qed.

Lemma cleanup_is_invisible_sample :
  clock sample_platform (clock_reads stale_windows) <=
    clock sample_platform (S (clock_reads stale_windows)) ∧
  rateLimits stale_windows !! map_key "login" "9.9.9.9" = Some (mkRateLimit 3 5) ∧
  rateLimits (snd (cleanupSecurityData sample_platform stale_windows))
    !! map_key "login" "9.9.9.9" = None ∧
  (fst (checkRateLimit sample_platform "login" "9.9.9.9"
          (snd (cleanupSecurityData sample_platform stale_windows))) =
   fst (checkRateLimit sample_platform "login" "9.9.9.9"
          (set_clock_reads (S (clock_reads stale_windows)) stale_windows))) ∧
  (fst (checkRateLimit sample_platform "register" "9.9.9.9"
          (snd (cleanupSecurityData sample_platform stale_windows))) =
   fst (checkRateLimit sample_platform "register" "9.9.9.9"
          (set_clock_reads (S (clock_reads stale_windows)) stale_windows))).
Proof.
  assert (H : clock sample_platform (clock_reads stale_windows) <=
              clock sample_platform (S (clock_reads stale_windows)))
    by (vm_compute; intros H; discriminate H).
  split; [exact H|]. split; [vm_compute; reflexivity|]. split; [vm_compute; reflexivity|].
  split.
  - exact (proj1 (cleanup_is_invisible_to_rate_limiter sample_platform "login" "9.9.9.9"
                    stale_windows H)).
  - exact (proj1 (cleanup_is_invisible_to_rate_limiter sample_platform "register" "9.9.9.9"
                    stale_windows H)).
Defined.

(** * Escalation *)

(** X9. [detectIntrusion] reads a flag of the metadata only when the
    activity names the word that goes with it. With metadata undefined or
    null it therefore throws a TypeError, leaving the state untouched,
    exactly when the activity names a permission or a file access; for
    every other activity it does what it does on an empty object, where
    only the rapid-activity counter can match. *)
Theorem intrusion_check_error_path (platform : Platform) (userId : Z) (activity : string)
    (metadata : JsValue) (w : World) :
  let outcome := detectIntrusion platform userId activity metadata w in
  let nullish := match metadata with JUndefined | JNull => true | _ => false end in
  let reads_metadata :=
    includes "permission" activity || includes "file_access" activity in
  (nullish && reads_metadata = true →
     outcome = (Throw "TypeError: Cannot read properties of undefined", w)) ∧
  (nullish && reads_metadata = false →
     outcome ≠ (Throw "TypeError: Cannot read properties of undefined", w)) ∧
  (nullish = true → reads_metadata = false →
     outcome = detectIntrusion platform userId activity (JObject []) w).
Proof.
  cbv zeta. split; [|split].
  - intros Hthrow. apply andb_true_iff in Hthrow as [Hnull Hreads].
    unfold detectIntrusion.
    unfold bind at 1. unfold gets at 1. unfold bind at 1. unfold lift at 1.
    unfold flagged at 1.
    destruct (includes "permission" activity) eqn:Hperm.
    + destruct metadata; try discriminate Hnull; reflexivity.
    + unfold bind at 1. unfold lift at 1. unfold flagged at 1.
      cbn [orb] in Hreads. rewrite Hreads.
      destruct metadata; try discriminate Hnull; reflexivity.
  - intros Hreturns.
    assert (Hflag : ∀ word flag,
              word = "permission" ∨ word = "file_access" →
              ∃ b, flagged activity word metadata flag = Ok b).
    { intros word flag Hword. unfold flagged.
      destruct (includes word activity) eqn:Hinc; [|eexists; reflexivity].
      destruct metadata; cbn [js_member]; try (eexists; reflexivity);
        exfalso; cbn [andb] in Hreturns;
        apply orb_false_iff in Hreturns as [H1 H2];
        destruct Hword as [-> | ->]; congruence. }
    destruct (Hflag "permission" "unusual_pattern") as [unusual Hunusual]; [auto|].
    destruct (Hflag "file_access" "suspicious_size") as [suspicious Hsuspicious]; [auto|].
    unfold detectIntrusion.
    unfold bind at 1. unfold gets at 1. unfold bind at 1. unfold lift at 1.
    rewrite Hunusual. unfold bind at 1. unfold lift at 1. rewrite Hsuspicious.
    cbv beta zeta.
    destruct (bool_decide _); [discriminate|].
    unfold bind at 1.
    match goal with
    | |- context [createAuditTrail platform userId ?ev ?d ?r w] =>
        destruct (audit_taken platform userId ev d r w) eqn:Htaken;
          [ rewrite (createAuditTrail_taken platform _ _ _ _ _ Htaken); discriminate
          | destruct (createAuditTrail_refused platform _ _ _ _ _ Htaken)
              as (e & w' & -> & He & _) ]
    end.
    intros Heq. injection Heq as -> _. unfold store_refusals in He.
    repeat (apply elem_of_cons in He as [He|He]; [discriminate He|]).
    inversion He.
  - intros Hnull Hreads. apply orb_false_iff in Hreads as [Hperm Hfile].
    unfold detectIntrusion, flagged. rewrite Hperm, Hfile. reflexivity.
Qed.

(** X16. [emergencyLockdown] locks nothing. When the store takes an audit
    record for user 0 it returns after writing one critical record, a
    ledger row and a security log row; otherwise, as over every users table
    without a row of id 0, it throws and the security log is left as it
    was. Either way the block list, the rate limits and the counters of
    failed attempts and suspicious activities are as they were, so
    [isIPBlocked] answers for every address as it did before. *)
Theorem emergency_lockdown_blocks_nothing (platform : Platform) (reason : string)
    (w : World) :
  let description := "Emergency lockdown activated: " +:+ reason in
  let w' := snd (emergencyLockdown platform reason w) in
  blockedIPs w' = blockedIPs w ∧ rateLimits w' = rateLimits w ∧
  failedAttempts w' = failedAttempts w ∧
  suspiciousActivities w' = suspiciousActivities w ∧
  (∀ ipAddress, fst (isIPBlocked ipAddress w') = fst (isIPBlocked ipAddress w)) ∧
  (audit_taken platform 0 "emergency_lockdown" description "critical" w = true →
   emergencyLockdown platform reason w =
     (Ok tt, after_audit platform 0 "emergency_lockdown" description "critical" w)) ∧
  (audit_taken platform 0 "emergency_lockdown" description "critical" w = false →
   (∃ e, fst (emergencyLockdown platform reason w) = Throw e ∧ e ∈ store_refusals) ∧
   security_logs w' = security_logs w) ∧
  (no_user_zero w →
   audit_taken platform 0 "emergency_lockdown" description "critical" w = false).
Proof.
  intros description w'. subst w'. unfold emergencyLockdown, bind. fold description.
  destruct (audit_taken platform 0 "emergency_lockdown" description "critical" w)
    eqn:Htaken.
  - rewrite (createAuditTrail_taken platform _ _ _ _ _ Htaken). cbn [ret fst snd].
    unfold after_audit, after_append. simpl_world.
    do 4 (split; [reflexivity|]).
    split; [intros ipAddress; reflexivity|].
    split; [intros _; reflexivity|]. split; [discriminate|].
    intros Hno. rewrite (audit_refused_unknown_user platform 0 _ _ _ w Hno) in Htaken.
    discriminate Htaken.
  - destruct (createAuditTrail_refused platform _ _ _ _ _ Htaken)
      as (e & w1 & -> & He & [Hblocked Hsuspicious Hlimits Hfailed _ _ _ _ _ _] & Hlogs & _).
    cbn [fst snd].
    split; [exact Hblocked|]. split; [exact Hlimits|]. split; [exact Hfailed|].
    split; [exact Hsuspicious|].
    split; [intros ipAddress; unfold isIPBlocked, gets; cbn [fst]; rewrite Hblocked;
            reflexivity|].
    split; [discriminate|].
    split; [intros _; split; [exists e; auto | exact Hlogs] | reflexivity].
Qed.


(** X7. A client that keeps asking after its window is full is not
    blocked. In a state without a user of id 0, a call of [checkRateLimit]
    on a full window that has not run out throws: the refusal is counted as
    a suspicious activity of the identifier and the window is left as it
    is, but the audit record for user 0 is refused before the threshold of
    suspicious activities is looked at, so the block list is left alone
    however high the count, and no answer, true or false, is returned. *)
Theorem rate_limit_rejections_never_block (platform : Platform)
    (identifier ipAddress : string) (w : World) (l : RateLimit) :
  no_user_zero w →
  rateLimits w !! map_key identifier ipAddress = Some l →
  clock platform (clock_reads w) <= resetTime l →
  MAX_REQUESTS_PER_MINUTE <= count l →
  let key := map_key identifier "rate_limit_exceeded" in
  ∃ e w',
    checkRateLimit platform identifier ipAddress w = (Throw e, w') ∧
    e ∈ store_refusals ∧
    rateLimits w' = rateLimits w ∧
    default 0 (suspiciousActivities w' !! key) =
      default 0 (suspiciousActivities w !! key) + 1 ∧
    blockedIPs w' = blockedIPs w ∧
    security_logs w' = security_logs w ∧
    no_user_zero w'.
Proof.
  intros Hno Hlimit Hnow Hfull key.
  destruct (checkRateLimit_exceeded platform identifier ipAddress w l Hno Hlimit Hnow Hfull)
    as (e & w' & Hrun & He & Hlimits & Hcounted & Hblocked & _ & Husers & Hlogs).
  exists e, w'. split; [exact Hrun|]. split; [exact He|]. split; [exact Hlimits|].
  split; [subst key; rewrite Hcounted, lookup_insert_eq; reflexivity|].
  split; [exact Hblocked|]. split; [exact Hlogs|].
  unfold no_user_zero. rewrite Husers. exact Hno.
Qed.

Lemma rate_limit_rejections_never_block_sample :
  let full :=
    set_suspiciousActivities {[ map_key "login" "rate_limit_exceeded" := 10 ]}
      (set_rateLimits {[ map_key "login" "9.9.9.9" := mkRateLimit 100 1700000060000 ]}
         initial_world) in
  no_user_zero full ∧
  ∃ e w',
    checkRateLimit sample_platform "login" "9.9.9.9" full = (Throw e, w') ∧
    default 0 (suspiciousActivities w' !! map_key "login" "rate_limit_exceeded") = 11 ∧
    blockedIPs w' = blockedIPs full.
Proof.
  intros full.
  assert (Hno : no_user_zero full) by (intros H; inversion H).
  split; [exact Hno|].
  destruct (rate_limit_rejections_never_block sample_platform "login" "9.9.9.9" full
              (mkRateLimit 100 1700000060000) Hno)
    as (e & w' & Hrun & _ & _ & Hcount & Hblocked & _).
  - vm_compute; reflexivity.
  - vm_compute; intros H; discriminate H.
  - vm_compute; intros H; discriminate H.
  - exists e, w'. split; [exact Hrun|]. split; [|exact Hblocked].
    rewrite Hcount. vm_compute. reflexivity.
Defined.

(** X8. The lockout counts per identifier and address, not per address.
    In a state without a user of id 0 every recorded attempt throws, and
    when no key of a run of attempts reaches five, counting those already
    recorded, the block list is left as it was, however many identifiers
    the address has tried; the counter of every key has grown by the number
    of attempts made under it. *)
Theorem spread_guesses_never_block (platform : Platform)
    (attempts : list (string * string)) (w : World) :
  no_user_zero w →
  (∀ key, 0 < attempts_under key attempts →
          default 0 (failedAttempts w !! key) + attempts_under key attempts
            < MAX_FAILED_ATTEMPTS) →
  ∃ outcomes w',
    run_each ((λ a, recordFailedAttempt platform a.1 a.2) <$> attempts) w =
      (outcomes, w') ∧
    length outcomes = length attempts ∧
    Forall thrown outcomes ∧
    blockedIPs w' = blockedIPs w ∧
    ∀ key, default 0 (failedAttempts w' !! key) =
           default 0 (failedAttempts w !! key) + attempts_under key attempts.
Proof.
  revert w. induction attempts as [|[identifier ipAddress] rest IH]; intros w Hno Hbelow.
  - exists [], w. split; [reflexivity|]. split; [reflexivity|]. split; [constructor|].
    split; [reflexivity|]. intros key. unfold attempts_under. cbn. lia.
  - cbn [fmap list_fmap run_each fst snd].
    destruct (recordFailedAttempt_unaudited platform identifier ipAddress w Hno)
      as (e & w1 & -> & _ & Hfailed & Hblocked & _ & _ & Husers & _).
    cbv zeta in Hfailed, Hblocked.
    set (key0 := map_key identifier ipAddress) in *.
    assert (Hunder : ∀ key, attempts_under key ((identifier, ipAddress) :: rest) =
                            (if decide (key0 = key) then 1 else 0) + attempts_under key rest).
    { intros key. unfold attempts_under. rewrite filter_cons. cbn [fst snd]. fold key0.
      destruct (decide (key0 = key)); cbn [length]; lia. }
    assert (Hnonneg : ∀ key, 0 <= attempts_under key rest)
      by (intros key; unfold attempts_under; lia).
    pose proof (Hbelow key0) as Hkey0. rewrite Hunder in Hkey0.
    destruct (decide (key0 = key0)) as [_|Hne]; [|congruence].
    pose proof (Hnonneg key0) as H0.
    destruct (Z.leb_spec MAX_FAILED_ATTEMPTS (default 0 (failedAttempts w !! key0) + 1))
      as [Hmax|_]; [lia|].
    destruct (IH w1) as (outcomes & w' & Hrest & Hlen & Hall & Hblocked' & Hcounts).
    { unfold no_user_zero. rewrite Husers. exact Hno. }
    { intros key Hpos. rewrite Hfailed.
      specialize (Hbelow key). rewrite Hunder in Hbelow.
      destruct (decide (key0 = key)) as [<-|Hne].
      - rewrite lookup_insert_eq. cbn [default from_option id]. lia.
      - rewrite lookup_insert_ne by exact Hne. lia. }
    rewrite Hrest. exists (Throw e :: outcomes), w'.
    split; [reflexivity|]. split; [cbn [length]; lia|].
    split; [constructor; [exists e; reflexivity | exact Hall]|].
    split; [rewrite Hblocked', Hblocked; reflexivity|].
    intros key. rewrite Hcounts, Hunder, Hfailed.
    destruct (decide (key0 = key)) as [<-|Hne].
    + rewrite lookup_insert_eq. cbn [default from_option id]. lia.
    + rewrite lookup_insert_ne by exact Hne. lia.
Qed.

Lemma spread_guesses_never_block_sample :
  no_user_zero initial_world ∧
  ∃ outcomes w',
    run_each
      ((λ a, recordFailedAttempt sample_platform a.1 a.2) <$>
       [ ("alice", "9.9.9.9"); ("bob", "9.9.9.9"); ("alice", "9.9.9.9"); ("carol", "9.9.9.9");
         ("dave", "9.9.9.9"); ("erin", "9.9.9.9") ]) initial_world =
      (outcomes, w') ∧
    length outcomes = 6%nat ∧
    blockedIPs w' = blockedIPs initial_world.
Proof.
  assert (Hno : no_user_zero initial_world) by (intros H; inversion H).
  split; [exact Hno|].
  destruct (spread_guesses_never_block sample_platform
              [ ("alice", "9.9.9.9"); ("bob", "9.9.9.9"); ("alice", "9.9.9.9");
                ("carol", "9.9.9.9"); ("dave", "9.9.9.9"); ("erin", "9.9.9.9") ]
              initial_world Hno) as (outcomes & w' & Hrun & Hlen & _ & Hblocked & _).
  - intros key _. unfold attempts_under.
    cbn [initial_world failedAttempts]. rewrite lookup_empty. cbn [default from_option].
    repeat (rewrite filter_cons; cbn [fst snd]; case_decide); rewrite filter_nil;
      cbn [length]; unfold MAX_FAILED_ATTEMPTS; try lia;
      repeat match goal with H : map_key _ _ = key |- _ => vm_compute in H end;
      congruence.
  - exists outcomes, w'. split; [exact Hrun|]. split; [exact Hlen | exact Hblocked].
Defined.

(** * Properties of the callers *)

(** X18. [checkPermissionSecurity] never throws and decides by the stored
    security score and the count of permission requests alone: it allows
    exactly when the user exists, the score is not NULL and at least 50, at
    most three permission requests are on record, and the store takes the
    low permission_granted audit record, which is then written; whatever
    the permission and the context. A refusal for a missing user or for too
    many requests changes nothing; a user id that does not fit the id
    column and an audit record that the store refuses are answered as a
    failed security check; and no outcome touches the users table or the
    block list. *)
Theorem permission_check_decisions (platform : Platform) (userId : Z)
    (permissionType : string) (context : JsValue) (w : World) :
  let found := head (filter (λ u, user_id u = userId) (users w)) in
  let requests :=
    default 0 (suspiciousActivities w !! map_key (pretty userId) "permission_request") in
  let granted :=
    audit_taken platform userId "permission_granted"
      ("Permission " +:+ permissionType +:+ " granted") "low" w in
  ∃ decision w',
    checkPermissionSecurity platform userId permissionType context w = (Ok decision, w') ∧
    (allowed decision = true ↔
     int4 userId = true ∧
     (∃ u score, found = Some u ∧ securityScore u = Some score ∧ 50 <= score) ∧
     requests <= 3 ∧ granted = true) ∧
    (allowed decision = true →
     reason decision = None ∧
     w' = after_audit platform userId "permission_granted"
            ("Permission " +:+ permissionType +:+ " granted") "low" w) ∧
    (int4 userId = false →
     decision = mkDecision false (Some "Security check failed") ∧ w' = w) ∧
    (int4 userId = true → found = None →
     decision = mkDecision false (Some "User not found") ∧ w' = w) ∧
    (reason decision = Some "Too many recent permission requests" → w' = w) ∧
    users w' = users w ∧ blockedIPs w' = blockedIPs w.
Proof.
  intros found requests granted.
  unfold checkPermissionSecurity, try_catch.
  unfold bind at 1. unfold storage_getUser at 1.
  destruct (int4 userId) eqn:Hid; cbn [negb].
  2:{ eexists _, w. split; [reflexivity|]. cbn [allowed reason].
      split; [split; [discriminate | intros (H & _); discriminate H]|].
      split; [discriminate|]. split; [auto|]. split; [discriminate|].
      split; [discriminate|]. split; reflexivity. }
  unfold bind at 1. unfold gets at 1. unfold ret at 1. fold found.
  destruct found as [u|].
  - destruct (default 0 (securityScore u) <? 50) eqn:Hlow.
    + unfold bind at 1.
      pose proof (createAuditTrail_quiet platform userId "permission_denied"
                    ("Permission " +:+ permissionType +:+
                     " denied due to low security score: " +:+
                     from_option pretty "null" (securityScore u)) "medium" w)
        as [Hblocked _ _ _ _ _ Husers _ _ _].
      destruct (createAuditTrail platform userId "permission_denied" _ "medium" w)
        as [[h|e] w1]; cbn [snd] in Hblocked, Husers;
        (eexists _, _; split; [reflexivity|]); cbn [allowed reason];
        (split; [split; [discriminate|];
                 intros (_ & (u' & score & Hu & Hscore & Hge) & _);
                 injection Hu as <-; rewrite Hscore in Hlow; cbn in Hlow;
                 apply Z.ltb_lt in Hlow; lia|]);
        (split; [discriminate|]); (split; [discriminate|]); (split; [discriminate|]);
        (split; [discriminate|]); split; assumption.
    + apply Z.ltb_ge in Hlow.
      unfold bind at 1. unfold gets at 1. fold requests.
      destruct (3 <? requests) eqn:Hmany.
      * apply Z.ltb_lt in Hmany.
        exists (mkDecision false (Some "Too many recent permission requests")), w.
        split; [reflexivity|]. cbn [allowed reason].
        split; [split; [discriminate | intros (_ & _ & Hle & _); lia]|].
        split; [discriminate|]. split; [discriminate|]. split; [discriminate|].
        split; [reflexivity|]. split; reflexivity.
      * apply Z.ltb_ge in Hmany. unfold bind at 1. subst granted.
        destruct (audit_taken platform userId "permission_granted"
                    ("Permission " +:+ permissionType +:+ " granted") "low" w) eqn:Htaken.
        -- rewrite (createAuditTrail_taken platform _ _ _ _ _ Htaken).
           eexists _, _. split; [reflexivity|]. cbn [allowed reason].
           split.
           { split; [|reflexivity]. intros _. split; [reflexivity|].
             split; [|split; [exact Hmany | reflexivity]].
             destruct (securityScore u) as [score|] eqn:Hscore.
             - exists u, score. cbn in Hlow. repeat split; try assumption; reflexivity.
             - cbn in Hlow. lia. }
           split; [intros _; split; reflexivity|].
           split; [discriminate|]. split; [discriminate|]. split; [discriminate|].
           split; reflexivity.
        -- destruct (createAuditTrail_refused platform _ _ _ _ _ Htaken)
             as (e & w1 & -> & _ & [Hblocked _ _ _ _ _ Husers _ _ _] & _).
           eexists _, _. split; [reflexivity|]. cbn [allowed reason].
           split; [split; [discriminate | intros (_ & _ & _ & H); discriminate H]|].
           split; [discriminate|]. split; [discriminate|]. split; [discriminate|].
           split; [discriminate|]. split; assumption.
  - exists (mkDecision false (Some "User not found")), w.
    split; [reflexivity|]. cbn [allowed reason].
    split; [split; [discriminate | intros (_ & (u' & score & Hu & _) & _); discriminate Hu]|].
    split; [discriminate|]. split; [discriminate|]. split; [auto|].
    split; [discriminate|]. split; reflexivity.
Qed.

